(** * GOAT Meet Manager: the background coordinator (src/js/background.js)

    A shallow embedding of the background script: the [Meetings] registry,
    the [Meeting] sessions, the [Badge] projector and the event handlers,
    followed by the properties of the coordinator core.  The log module
    (src/js/logging.js) and the script of the meeting page
    (src/js/inject.js) follow, each with its own conventions.

    Modelling conventions.
    - A JS [Map] is an association list in insertion order.
    - A [Meeting] object is referenced from the registry [Map] and from the
      listeners of its own port.  Every [Meeting] is constructed in
      [onConnect] and bound at once, and ids are never handed out twice, so
      the registry key doubles as the object reference: a write to a field
      of a [Meeting] is stored back under the meeting's id.
    - JS numbers used as ids and counters are integers; they are exact far
      beyond any number of connections a browser can make, and are taken
      here as [Z] (ids) and [nat] (counts).
    - Calls to the chrome.* APIs, [port.postMessage] and the logging module
      are recorded, in order, in a trace of [Effect]s.  [logging.debug]
      tracing is left out. *)

From Stdlib Require Import List ZArith String Ascii Bool Arith Lia DecimalString Sorted FinFun.
Import ListNotations.

Local Open Scope Z_scope.

(** ** JavaScript [Map] with number keys, in insertion order *)

Module JsMap.
Section WithValue.
Context {V : Type}.

Definition t := list (Z * V).

Definition empty : t := [].

Definition size (m : t) : nat := List.length m.

Fixpoint get (k : Z) (m : t) : option V :=
  match m with
  | [] => None
  | (k', v) :: m' => if k' =? k then Some v else get k m'
  end.

Definition has (k : Z) (m : t) : bool :=
  match get k m with Some _ => true | None => false end.

(** [set] keeps the position of a key that is already there and appends a
    new one at the end. *)
Fixpoint set (k : Z) (v : V) (m : t) : t :=
  match m with
  | [] => [(k, v)]
  | (k', v') :: m' =>
      if k' =? k then (k', v) :: m' else (k', v') :: set k v m'
  end.

Definition delete (k : Z) (m : t) : t :=
  filter (fun e => negb (fst e =? k)) m.

Definition keys (m : t) : list Z := map fst m.

Definition values (m : t) : list V := map snd m.

(** [update k f] is a write through the reference held under key [k]. *)
Definition update (k : Z) (f : V -> V) (m : t) : t :=
  map (fun e => if fst e =? k then (fst e, f (snd e)) else e) m.

(** Rewriting the values under their keys, as a [forEach] that assigns to
    fields of the values does. *)
Definition rewrite_values (g : Z -> V -> V) (m : t) : t :=
  map (fun e => (fst e, g (fst e) (snd e))) m.
End WithValue.
Arguments t : clear implicits.
End JsMap.

(** ** Data model *)

(** [port.sender.tab]: the tab a content script runs in. *)
Record Tab := mkTab {
  tabId : Z;
  windowId : Z
}.

(** A [chrome.runtime.Port].  [sender_tab] is [None] for the extension's own
    pages, whose [port.sender.tab] is undefined. *)
Record Port := mkPort {
  name : string;
  sender_tab : option Tab
}.

(** [class Meeting], the fields set by its constructor. *)
Record Meeting := mkMeeting {
  id : option Z;
  title : option string;
  port : Port;
  active : bool;
  prefer : bool;
  audioMuted : option bool;
  videoMuted : option bool
}.

(** [class Meetings]. *)
Record Meetings := mkMeetings {
  nextId : Z;
  meetings : JsMap.t Meeting
}.

(** [Meetings.INACTIVE], [Meetings.MUTED], [Meetings.UNMUTED]. *)
Inductive Symbol := INACTIVE | MUTED | UNMUTED.

(** [class Badge]. *)
Record Badge := mkBadge {
  popup : option Port
}.

(** The global variables of the background page. *)
Record World := mkWorld {
  g_autofocus : bool;
  g_actionButtonBehavior : option string;
  g_meetings : Meetings;
  g_badge : Badge
}.

(** The fields [countMeetings_] is asked to count. *)
Inductive Property := P_active | P_audioMuted | P_videoMuted.

(** ** Messages *)

(** [{audio?: bool, video?: bool}], the argument of toggle, mute and unmute. *)
Record Data := mkData {
  audio : option bool;
  video : option bool
}.

(** A message from a meeting page: [{command, title?, audioMuted, videoMuted}].
    The two flags are booleans, as [inject.js] sends them, or null. *)
Record PeerMessage := mkPeerMessage {
  pm_command : string;
  pm_title : option string;
  pm_audioMuted : option bool;
  pm_videoMuted : option bool
}.

(** A message from the popup or the options page:
    [{command, id?, prefer?, audio?, video?}].  [im_id] is [None] when the id
    is missing or not a number; [im_data] holds the two fields a meeting
    page reads when the whole message is forwarded to it. *)
Record PageMessage := mkPageMessage {
  im_command : string;
  im_id : option Z;
  im_prefer : option bool;
  im_data : Data
}.

(** One row of the reply to [list]. *)
Record ListEntry := mkListEntry {
  le_id : option Z;
  le_name : string;
  le_title : option string;
  le_prefer : bool;
  le_active : bool;
  le_audioMuted : option bool;
  le_videoMuted : option bool
}.

Inductive OutMessage :=
| MsgCommand (command : string) (data : Data)
| MsgList (rows : list ListEntry)
| MsgGetLog.

Inductive LogLevel := INFO | WARN | ERROR.

(** What the handlers do to the outside world. *)
Inductive Effect :=
| PostMessage (p : Port) (m : OutMessage)
| TabsGet (tab : Z)
| SetIcon (path : string)
| SetTitle (text : string)
| SetPopup (page : string)
| SetBadgeText (text : string)
| SetBadgeBackgroundColor (color : string)
| Log (level : LogLevel)
| RecordLog
| SetDebug (enabled : bool)
| WindowOpen (url : string).

(** ** JavaScript helpers *)

(** Truthiness of a nullable boolean: [null] and [false] are falsy. *)
Definition truthy (v : option bool) : bool :=
  match v with
  | Some true => true
  | _ => false
  end.

(** Strict equality [===] on nullable booleans. *)
Definition strict_eqb (a b : option bool) : bool :=
  match a, b with
  | None, None => true
  | Some x, Some y => Bool.eqb x y
  | _, _ => false
  end.

(** [meeting.id === id]: the left side is a number or null, the right side
    a number or, as [None], undefined or NaN; they are equal only when both
    are the same number. *)
Definition id_strict_eqb (a b : option Z) : bool :=
  match a, b with
  | Some x, Some y => x =? y
  | _, _ => false
  end.

(** A number in a template literal. *)
Definition Number_toString (n : nat) : string :=
  NilZero.string_of_uint (Nat.to_uint n).

(** [title.replace(/^Meet - /, '')]. *)
Definition strip_Meet_prefix (s : string) : string :=
  if String.prefix "Meet - " s
  then String.substring 7 (String.length s - 7) s
  else s.

(** ** [Meetings]: the accessors *)

Definition Meetings_new : Meetings :=
  {| nextId := 0; meetings := JsMap.empty |}.

Definition Meetings_size (this : Meetings) : nat :=
  JsMap.size (meetings this).

Definition Meetings_get (this : Meetings) (id_ : Z) : option Meeting :=
  JsMap.get id_ (meetings this).

Definition Meetings_default (this : Meetings) : option Meeting :=
  fold_left
    (fun ret entry => if prefer (snd entry) then Some (snd entry) else ret)
    (meetings this) None.

(** [meeting[property]]. *)
Definition Meeting_field (meeting : Meeting) (property : Property) : option bool :=
  match property with
  | P_active => Some (active meeting)
  | P_audioMuted => audioMuted meeting
  | P_videoMuted => videoMuted meeting
  end.

Definition Meetings_countMeetings_ (this : Meetings) (property : Property) : nat :=
  fold_left
    (fun ret entry =>
       (ret + if truthy (Meeting_field (snd entry) property) then 1 else 0)%nat)
    (meetings this) 0%nat.

Definition Meetings_numActive (this : Meetings) : nat :=
  Meetings_countMeetings_ this P_active.

Definition Meetings_numAudioMuted (this : Meetings) : nat :=
  Meetings_countMeetings_ this P_audioMuted.

Definition Meetings_numVideoMuted (this : Meetings) : nat :=
  Meetings_countMeetings_ this P_videoMuted.

Definition Meetings_state (this : Meetings) : Symbol :=
  if (Meetings_size this =? 0)%nat then INACTIVE
  else if (Meetings_numAudioMuted this =? Meetings_size this)%nat then MUTED
  else UNMUTED.

Definition Meetings_summary (this : Meetings) : string :=
  let size := Meetings_size this in
  let numAudioMuted := Meetings_numAudioMuted this in
  if (size =? 0)%nat then
    "No meetings found. Please reload Google Meet pages to connect."%string
  else if (size =? numAudioMuted)%nat then
    "All meetings are muted."%string
  else if (numAudioMuted =? 0)%nat then
    "No meetings are muted."%string
  else
    (Number_toString size ++ " active meetings; "
       ++ Number_toString numAudioMuted ++ " are muted.")%string.

(** ** Handlers: state, effects and uncaught exceptions

    A handler reads and writes the globals, appends to the trace, and either
    returns or throws (a [TypeError] on a property of undefined). *)

Inductive Outcome (A : Type) :=
| Returned (a : A)
| Threw.
Arguments Returned {A} a.
Arguments Threw {A}.

Definition M (A : Type) : Type := World -> Outcome A * World * list Effect.

Definition ret {A} (a : A) : M A := fun w => (Returned a, w, []).

Definition bind {A B} (c : M A) (k : A -> M B) : M B :=
  fun w =>
    match c w with
    | (Returned a, w1, e1) =>
        match k a w1 with
        | (r, w2, e2) => (r, w2, e1 ++ e2)
        end
    | (Threw, w1, e1) => (Threw, w1, e1)
    end.

Definition throw {A} : M A := fun w => (Threw, w, []).

Definition emit (e : Effect) : M unit := fun w => (Returned tt, w, [e]).

Definition gets {A} (f : World -> A) : M A := fun w => (Returned (f w), w, []).

Definition modify (f : World -> World) : M unit := fun w => (Returned tt, f w, []).

Declare Scope handler_scope.
Notation "x <- c ;; k" := (bind c (fun x => k))
  (at level 61, c at next level, right associativity) : handler_scope.
Notation "c ;; k" := (bind c (fun _ => k))
  (at level 61, right associativity) : handler_scope.
Local Open Scope handler_scope.

(** The globals after a handler ran, and what it did. *)
Definition world_after {A} (c : M A) (w : World) : World := snd (fst (c w)).
Definition effects_of {A} (c : M A) (w : World) : list Effect := snd (c w).
Definition outcome_of {A} (c : M A) (w : World) : Outcome A := fst (fst (c w)).

(** [for (x of l) body(x)], the body threading the variables it captures. *)
Fixpoint forEach {X S} (body : S -> X -> M S) (l : list X) (s : S) : M S :=
  match l with
  | [] => ret s
  | x :: l' => s' <- body s x ;; forEach body l' s'
  end.

Definition with_meetings (f : Meetings -> Meetings) (w : World) : World :=
  {| g_autofocus := g_autofocus w;
     g_actionButtonBehavior := g_actionButtonBehavior w;
     g_meetings := f (g_meetings w);
     g_badge := g_badge w |}.

Definition with_map (f : JsMap.t Meeting -> JsMap.t Meeting) (this : Meetings) : Meetings :=
  {| nextId := nextId this; meetings := f (meetings this) |}.

(** A write to a field of a [Meeting] is seen through the registry when the
    object is held there. *)
Definition store (this : Meeting) : M unit :=
  match id this with
  | Some k => modify (with_meetings (with_map (JsMap.update k (fun _ => this))))
  | None => ret tt
  end.

(** ** [Meeting]: construction and outbound operations *)

Definition Meeting_new (port_ : Port) : Meeting :=
  {| id := None; title := None; port := port_; active := false;
     prefer := false; audioMuted := None; videoMuted := None |}.

(** The default argument [{audio: true}]. *)
Definition audio_only : Data := {| audio := Some true; video := None |}.

Definition or_default (data : option Data) : Data :=
  match data with
  | Some d => d
  | None => audio_only
  end.

(** [this.port.postMessage(Object.assign({}, data, {command}))]. *)
Definition Meeting_send (this : Meeting) (command : string) (data : Data) : M unit :=
  emit (PostMessage (port this) (MsgCommand command data)).

Definition Meeting_toggle (data : option Data) (this : Meeting) : M unit :=
  Meeting_send this "toggle" (or_default data).

Definition Meeting_mute (data : option Data) (this : Meeting) : M unit :=
  Meeting_send this "mute" (or_default data).

Definition Meeting_unmute (data : option Data) (this : Meeting) : M unit :=
  Meeting_send this "unmute" (or_default data).

(** [chrome.tabs.get(this.port.sender.tab.id, ...)], whose callback focuses
    the window and highlights the tab. *)
Definition Meeting_focus (this : Meeting) : M unit :=
  match sender_tab (port this) with
  | Some tab => emit (TabsGet (tabId tab))
  | None => throw
  end.

Definition Meeting_autofocus (this : Meeting) : M unit :=
  autofocus <- gets g_autofocus ;;
  if autofocus then Meeting_focus this else ret tt.

(** ** The [list] reply of [onInternalPageMessage] *)

Definition list_row (meeting : Meeting) : ListEntry :=
  {| le_id := id meeting;
     le_name := name (port meeting);
     le_title := title meeting;
     le_prefer := prefer meeting;
     le_active := active meeting;
     le_audioMuted := audioMuted meeting;
     le_videoMuted := videoMuted meeting |}.

Definition onInternalPageMessage_list (port_ : Port) : M unit :=
  this <- gets g_meetings ;;
  emit (PostMessage port_ (MsgList (map list_row (JsMap.values (meetings this))))).

(** ** [Badge] *)

(** The argument of [Badge.set]; a field left out is [None]. *)
Record Settings := mkSettings {
  s_icon : option string;
  s_title : option string;
  s_popup : option string;
  s_text : option string;
  s_color : option string
}.

Definition when_defined {A} (v : option A) (f : A -> M unit) : M unit :=
  match v with
  | Some a => f a
  | None => ret tt
  end.

Definition Badge_set (s : Settings) : M unit :=
  when_defined (s_icon s)
    (fun icon => emit (SetIcon ("../images/" ++ icon ++ "-96.png")%string)) ;;
  when_defined (s_title s) (fun t => emit (SetTitle t)) ;;
  when_defined (s_popup s) (fun p => emit (SetPopup p)) ;;
  when_defined (s_text s) (fun t => emit (SetBadgeText t)) ;;
  when_defined (s_color s) (fun c => emit (SetBadgeBackgroundColor c)).

Definition one_of (s : string) (l : list string) : bool :=
  existsb (String.eqb s) l.

(** The part of [popupAction] the [switch] falls through to for the
    [...+popup] behaviours. *)
Definition popupAction_with_popup (this : Meetings) : string :=
  match Meetings_default this with
  | Some _ => ""%string
  | None =>
      if (1 <? Meetings_numActive this)%nat
         || ((Meetings_numActive this =? 0)%nat && (1 <? Meetings_size this)%nat)
      then "html/control.html"%string
      else ""%string
  end.

Definition Badge_popupAction : M string :=
  behavior <- gets g_actionButtonBehavior ;;
  this <- gets g_meetings ;;
  match behavior with
  | Some b =>
      if String.eqb b "popup" then ret "html/control.html"%string
      else if one_of b ["toggle-audio+popup"; "focus+popup"; "mute-audio+popup"]%string
      then ret (popupAction_with_popup this)
      else if one_of b ["toggle-audio"; "focus"; "mute-audio"]%string
      then ret ""%string
      else emit (Log WARN) ;; ret (popupAction_with_popup this)
  | None => emit (Log WARN) ;; ret (popupAction_with_popup this)
  end.

Definition Badge_update : M unit :=
  popup_ <- gets (fun w => popup (g_badge w)) ;;
  when_defined popup_ onInternalPageMessage_list ;;
  this <- gets g_meetings ;;
  let state := Meetings_state this in
  let size := Meetings_size this in
  let summary := Meetings_summary this in
  match state with
  | INACTIVE =>
      Badge_set {| s_icon := Some "inactive"%string;
                   s_title := Some summary;
                   s_popup := Some "html/inactive.html"%string;
                   s_text := Some ""%string;
                   s_color := None |}
  | UNMUTED =>
      let numMuted := Meetings_numAudioMuted this in
      let text :=
        if (numMuted =? 0)%nat then Number_toString size
        else (Number_toString numMuted ++ "/" ++ Number_toString size)%string in
      popupAction <- Badge_popupAction ;;
      Badge_set {| s_icon := Some "mic-on"%string;
                   s_title := Some summary;
                   s_popup := Some popupAction;
                   s_text := Some text;
                   s_color := Some "#219653"%string |}
  | MUTED =>
      popupAction <- Badge_popupAction ;;
      Badge_set {| s_icon := Some "mic-off"%string;
                   s_title := Some summary;
                   s_popup := Some popupAction;
                   s_text := Some (Number_toString size);
                   s_color := Some "#d92f25"%string |}
  end.

(** ** [Meetings]: the operations *)

Definition set_id (meeting : Meeting) (v : option Z) : Meeting :=
  {| id := v; title := title meeting; port := port meeting;
     active := active meeting; prefer := prefer meeting;
     audioMuted := audioMuted meeting; videoMuted := videoMuted meeting |}.

Definition set_title (meeting : Meeting) (v : option string) : Meeting :=
  {| id := id meeting; title := v; port := port meeting;
     active := active meeting; prefer := prefer meeting;
     audioMuted := audioMuted meeting; videoMuted := videoMuted meeting |}.

Definition set_active (meeting : Meeting) (v : bool) : Meeting :=
  {| id := id meeting; title := title meeting; port := port meeting;
     active := v; prefer := prefer meeting;
     audioMuted := audioMuted meeting; videoMuted := videoMuted meeting |}.

Definition set_prefer (meeting : Meeting) (v : bool) : Meeting :=
  {| id := id meeting; title := title meeting; port := port meeting;
     active := active meeting; prefer := v;
     audioMuted := audioMuted meeting; videoMuted := videoMuted meeting |}.

Definition set_muted (meeting : Meeting) (a v : option bool) : Meeting :=
  {| id := id meeting; title := title meeting; port := port meeting;
     active := active meeting; prefer := prefer meeting;
     audioMuted := a; videoMuted := v |}.

(** [add] returns nothing in the source; the model hands back the meeting
    with the id it was given, which the caller's reference now shows. *)
Definition Meetings_add (meeting : Meeting) : M Meeting :=
  this <- gets g_meetings ;;
  let meeting := set_id meeting (Some (nextId this)) in
  modify (with_meetings (fun this =>
    {| nextId := nextId this + 1;
       meetings := JsMap.set (nextId this) meeting (meetings this) |})) ;;
  Badge_update ;;
  ret meeting.

(** [this.meetings.delete(meeting.id)]; a null id is no key of the map. *)
Definition Meetings_remove (meeting : Meeting) : M unit :=
  modify (with_meetings (with_map (fun m =>
    match id meeting with
    | Some k => JsMap.delete k m
    | None => m
    end))) ;;
  Badge_update.

(** The body of the [forEach] in [setDefault]. *)
Definition setDefault_body (id_ : option Z) (value : bool) (meeting : Meeting) : Meeting :=
  if id_strict_eqb (id meeting) id_ then set_prefer meeting value
  else if value && prefer meeting then set_prefer meeting false
  else meeting.

Definition Meetings_setDefault (id_ : option Z) (value : option bool) : M unit :=
  let value := match value with Some v => v | None => true end in
  modify (with_meetings (with_map
    (map (fun entry => (fst entry, setDefault_body id_ value (snd entry)))))) ;;
  Badge_update.

(** [find({tabId, windowId})]; reading [tab.id] of a port without a tab
    throws. *)
Fixpoint find_loop (tabId_ windowId_ : Z) (l : list (Z * Meeting))
    (ret_ : option Meeting) : M (option Meeting) :=
  match l with
  | [] => ret ret_
  | (_, meeting) :: l' =>
      match sender_tab (port meeting) with
      | Some tab =>
          find_loop tabId_ windowId_ l'
            (if (tabId tab =? tabId_) && (windowId tab =? windowId_)
             then Some meeting else ret_)
      | None => throw
      end
  end.

Definition Meetings_find (tabId_ windowId_ : Z) : M (option Meeting) :=
  this <- gets g_meetings ;;
  find_loop tabId_ windowId_ (meetings this) None.

(** [processMeetings_(callback)].  [S] holds the variables the callback
    closes over; [focused] is the local of the loop. *)
Definition processMeetings_body {S} (callback : S -> Meeting -> M S)
    (numActive : nat) (st : bool * S) (entry : Z * Meeting) : M (bool * S) :=
  let meeting := snd entry in
  let focused := fst st in
  if (numActive =? 0)%nat || active meeting then
    focused' <- (if negb focused
                 then Meeting_autofocus meeting ;; ret true
                 else ret focused) ;;
    s' <- callback (snd st) meeting ;;
    ret (focused', s')
  else ret st.

Definition Meetings_processMeetings_ {S} (callback : S -> Meeting -> M S) (s : S) : M S :=
  this <- gets g_meetings ;;
  match Meetings_default this with
  | Some prefer_ =>
      Meeting_autofocus prefer_ ;;
      callback s prefer_
  | None =>
      let numActive := Meetings_numActive this in
      st <- forEach (processMeetings_body callback numActive)
              (meetings this) (false, s) ;;
      ret (snd st)
  end.

(** A callback that closes over nothing. *)
Definition stateless (f : Meeting -> M unit) (s : unit) (meeting : Meeting) : M unit :=
  f meeting.

Definition Meetings_toggle (data : option Data) : M unit :=
  Meetings_processMeetings_ (stateless (Meeting_toggle (Some (or_default data)))) tt.

Definition Meetings_mute (data : option Data) : M unit :=
  Meetings_processMeetings_ (stateless (Meeting_mute (Some (or_default data)))) tt.

Definition Meetings_unmute (data : option Data) : M unit :=
  Meetings_processMeetings_ (stateless (Meeting_unmute (Some (or_default data)))) tt.

(** The callback of [Meetings.focus], closing over [focused]. *)
Definition focus_callback (focused : bool) (meeting : Meeting) : M bool :=
  if negb focused then Meeting_focus meeting ;; ret true else ret focused.

Definition Meetings_focus : M unit :=
  Meetings_processMeetings_ focus_callback false ;; ret tt.

Definition Meetings_autofocus : M unit :=
  autofocus <- gets g_autofocus ;;
  if autofocus then Meetings_focus else ret tt.

(** ** [Meeting]: life cycle and inbound messages *)

(** [bind] also attaches [disconnect] and [recv] to the port; the listeners
    are the events [EvPortDisconnect] and [EvPortMessage] below. *)
Definition Meeting_bind (this : Meeting) : M Meeting :=
  Meetings_add this.

Definition Meeting_disconnect (this : Meeting) : M unit :=
  Meetings_remove this.

Definition Meeting_message_log (this : Meeting) : M unit :=
  emit RecordLog.

Definition Meeting_message_joined (this : Meeting) : M unit :=
  store (set_active this true) ;;
  Badge_update.

(** [if (title)]: undefined and the empty string are falsy. *)
Definition new_title (this : Meeting) (title_ : option string) : option string :=
  match title_ with
  | Some s => if String.eqb s "" then title this else Some (strip_Meet_prefix s)
  | None => title this
  end.

Definition Meeting_message_update (this : Meeting) (message : PeerMessage) : M unit :=
  let this := set_title this (new_title this (pm_title message)) in
  let update :=
    negb (strict_eqb (audioMuted this) (pm_audioMuted message))
    || negb (strict_eqb (videoMuted this) (pm_videoMuted message)) in
  let this := set_muted this (pm_audioMuted message) (pm_videoMuted message) in
  store this ;;
  if update then Badge_update else ret tt.

(** [recv]: the [commands] table holds the [message_*] methods. *)
Definition Meeting_recv (this : Meeting) (message : PeerMessage) : M unit :=
  let command := pm_command message in
  if String.eqb command "log" then Meeting_message_log this
  else if String.eqb command "joined" then Meeting_message_joined this
  else if String.eqb command "update" then Meeting_message_update this message
  else emit (Log WARN).

(** ** Event handlers *)

Definition with_badge (b : Badge) (w : World) : World :=
  {| g_autofocus := g_autofocus w;
     g_actionButtonBehavior := g_actionButtonBehavior w;
     g_meetings := g_meetings w;
     g_badge := b |}.

Definition with_autofocus (v : bool) (w : World) : World :=
  {| g_autofocus := v;
     g_actionButtonBehavior := g_actionButtonBehavior w;
     g_meetings := g_meetings w;
     g_badge := g_badge w |}.

Definition with_actionButtonBehavior (v : option string) (w : World) : World :=
  {| g_autofocus := g_autofocus w;
     g_actionButtonBehavior := v;
     g_meetings := g_meetings w;
     g_badge := g_badge w |}.

(** [meetings.get(message.id)]. *)
Definition get_by_message_id (this : Meetings) (id_ : option Z) : option Meeting :=
  match id_ with
  | Some k => Meetings_get this k
  | None => None
  end.

Definition onInternalPageMessage (port_ : Port) (message : PageMessage) : M unit :=
  let command := im_command message in
  if String.eqb command "list" then onInternalPageMessage_list port_
  else if String.eqb command "default" then
    Meetings_setDefault (im_id message) (im_prefer message)
  else if String.eqb command "focus" then
    this <- gets g_meetings ;;
    when_defined (get_by_message_id this (im_id message)) Meeting_focus
  else if String.eqb command "toggle" then
    this <- gets g_meetings ;;
    when_defined (get_by_message_id this (im_id message))
      (Meeting_toggle (Some (im_data message)))
  else if String.eqb command "log" then emit RecordLog
  else if String.eqb command "get-log" then emit (PostMessage port_ MsgGetLog)
  else emit (Log WARN).

Definition onPopupDisconnect (port_ : Port) : M unit :=
  modify (with_badge {| popup := None |}).

Definition onConnect (port_ : Port) : M unit :=
  if String.eqb (name port_) "control" then
    (match sender_tab port_ with
     | None => ret tt
     | Some _ => emit (Log ERROR)
     end) ;;
    modify (with_badge {| popup := Some port_ |})
  else if String.eqb (name port_) "options" then ret tt
  else
    Meeting_bind (Meeting_new port_) ;;
    Badge_update.

(** The three arms of [onActionClicked] and [onCommand] share this shape. *)
Definition one_or_all (meeting : option Meeting)
    (one : Meeting -> M unit) (all : M unit) : M unit :=
  match meeting with
  | Some m => one m
  | None => all
  end.

Definition behavior_in (behavior : option string) (l : list string) : bool :=
  match behavior with
  | Some b => one_of b l
  | None => false
  end.

Definition onActionClicked (tab : Tab) : M unit :=
  meeting <- Meetings_find (tabId tab) (windowId tab) ;;
  behavior <- gets g_actionButtonBehavior ;;
  let toggle_arm := one_or_all meeting (Meeting_toggle None) (Meetings_toggle None) in
  if behavior_in behavior ["popup"]%string then ret tt
  else if behavior_in behavior ["toggle-audio+popup"; "toggle-audio"]%string
  then toggle_arm
  else if behavior_in behavior ["mute-audio+popup"; "mute-audio"]%string
  then one_or_all meeting (Meeting_mute None) (Meetings_mute None)
  else if behavior_in behavior ["focus+popup"; "focus"]%string
  then one_or_all meeting Meeting_focus Meetings_focus
  else emit (Log WARN) ;; toggle_arm.

Definition audio_and_video : Data := {| audio := Some true; video := Some true |}.
Definition video_only : Data := {| audio := None; video := Some true |}.

Definition onCommand (command : string) : M unit :=
  if String.eqb command "focus" then Meetings_focus
  else if String.eqb command "mute-audio" then Meetings_mute (Some audio_only)
  else if String.eqb command "unmute-audio" then Meetings_unmute (Some audio_only)
  else if String.eqb command "toggle-mute-audio" then Meetings_toggle (Some audio_only)
  else if String.eqb command "mute-both" then Meetings_mute (Some audio_and_video)
  else if String.eqb command "unmute-both" then Meetings_unmute (Some audio_and_video)
  else if String.eqb command "toggle-mute-both" then Meetings_toggle (Some audio_and_video)
  else if String.eqb command "mute-video" then Meetings_mute (Some video_only)
  else if String.eqb command "unmute-video" then Meetings_unmute (Some video_only)
  else if String.eqb command "toggle-mute-video" then Meetings_toggle (Some video_only)
  else emit (Log ERROR).

(** A value read from [chrome.storage]. *)
Inductive JsValue :=
| JsUndefined
| JsBool (b : bool)
| JsString (s : string).

(** [!!v]. *)
Definition to_boolean (v : JsValue) : bool :=
  match v with
  | JsUndefined => false
  | JsBool b => b
  | JsString s => negb (String.eqb s "")
  end.

(** Only a string can match a [case] of the switches on
    [actionButtonBehavior]. *)
Definition as_behavior (v : JsValue) : option string :=
  match v with
  | JsString s => Some s
  | _ => None
  end.

Definition onStorageChanged_body (u : unit) (change : string * JsValue) : M unit :=
  let key := fst change in
  let newValue := snd change in
  if String.eqb key "debug" then
    emit (SetDebug (to_boolean newValue)) ;; emit (Log INFO)
  else if String.eqb key "autofocus" then
    modify (with_autofocus (to_boolean newValue))
  else if String.eqb key "action-behavior" then
    modify (with_actionButtonBehavior (as_behavior newValue))
  else ret tt.

Definition onStorageChanged (changes : list (string * JsValue)) : M unit :=
  forEach onStorageChanged_body changes tt ;;
  Badge_update.

Definition homepageUrl : string :=
  "https://github.com/vapier/chrome-ext-goat-meet-manager".

(** [runtime_id] is [chrome.runtime.id]. *)
Definition onContextMenu (runtime_id : string) (menuItemId : string) : M unit :=
  if String.eqb menuItemId "focus" then Meetings_focus
  else if String.eqb menuItemId "clear-default" then
    this <- gets g_meetings ;;
    when_defined (Meetings_default this)
      (fun meeting => store (set_prefer meeting false) ;; Badge_update)
  else if String.eqb menuItemId "feedback" then
    emit (WindowOpen (homepageUrl ++ "/issues")%string)
  else if String.eqb menuItemId "cws" then
    emit (WindowOpen ("https://chrome.google.com/webstore/detail/"
                        ++ runtime_id ++ "/reviews")%string)
  else emit (Log ERROR).

(** [initSettings] and the two [new] at the end of the script. *)
Definition initial_world (autofocus_ action_behavior : JsValue) : World :=
  {| g_autofocus := to_boolean autofocus_;
     g_actionButtonBehavior := as_behavior action_behavior;
     g_meetings := Meetings_new;
     g_badge := {| popup := None |} |}.

(** ** The coordinator as a transition system *)

(** What Chrome can deliver to the background page.  The listeners of a
    meeting are named by the id of their meeting; a port that disconnected
    delivers nothing more, so they fire only for a meeting still held. *)
Inductive Event :=
| EvConnect (port_ : Port)
| EvPortDisconnect (k : Z)
| EvPortMessage (k : Z) (message : PeerMessage)
| EvPageMessage (port_ : Port) (message : PageMessage)
| EvPopupDisconnect (port_ : Port)
| EvActionClicked (tab : Tab)
| EvCommand (command : string)
| EvStorageChanged (changes : list (string * JsValue))
| EvContextMenu (runtime_id : string) (menuItemId : string).

Definition on_meeting (k : Z) (method : Meeting -> M unit) : M unit :=
  this <- gets g_meetings ;;
  when_defined (Meetings_get this k) method.

Definition handle (ev : Event) : M unit :=
  match ev with
  | EvConnect port_ => onConnect port_
  | EvPortDisconnect k => on_meeting k Meeting_disconnect
  | EvPortMessage k message => on_meeting k (fun this => Meeting_recv this message)
  | EvPageMessage port_ message => onInternalPageMessage port_ message
  | EvPopupDisconnect port_ => onPopupDisconnect port_
  | EvActionClicked tab => onActionClicked tab
  | EvCommand command => onCommand command
  | EvStorageChanged changes => onStorageChanged changes
  | EvContextMenu runtime_id menuItemId => onContextMenu runtime_id menuItemId
  end.

(** One event: the handler runs to completion; an exception it lets escape
    reaches the [error] listener of the window, which logs it. *)
Definition step (w : World) (ev : Event) : World * list Effect :=
  match handle ev w with
  | (Returned _, w', e) => (w', e)
  | (Threw, w', e) => (w', e ++ [Log ERROR])
  end.

Definition run (evs : list Event) (w : World) : World :=
  fold_left (fun w ev => fst (step w ev)) evs w.

Fixpoint trace (evs : list Event) (w : World) : list Effect :=
  match evs with
  | [] => []
  | ev :: evs' => snd (step w ev) ++ trace evs' (fst (step w ev))
  end.

(** ** The specification's reading of the registry *)

(** The sessions held, in insertion order. *)
Definition sessions (this : Meetings) : list Meeting :=
  JsMap.values (meetings this).

(** The registry invariant: at most one session is preferred. *)
Definition at_most_one_preferred (this : Meetings) : Prop :=
  (List.length (filter prefer (sessions this)) <= 1)%nat.

(** What a registry built by the coordinator looks like: ids were handed out
    in increasing order from below [nextId], each session carries the id it
    is held under, and at most one session is preferred. *)
Record registry_ok (this : Meetings) : Prop := mk_registry_ok {
  ok_sorted : StronglySorted Z.lt (JsMap.keys (meetings this));
  ok_counter : 0 <= nextId this;
  ok_below : Forall (fun k => 0 <= k < nextId this) (JsMap.keys (meetings this));
  ok_id : Forall (fun e => id (snd e) = Some (fst e)) (meetings this);
  ok_prefer : at_most_one_preferred this
}.

(** The selection algorithm in the specification's words: the preferred
    session if there is one; else every session when none is active; else
    the active ones. *)
Definition selectTargets (this : Meetings) : list Meeting :=
  match filter prefer (sessions this) with
  | (_ :: _) as preferred => preferred
  | [] =>
      let numActive := List.length (filter active (sessions this)) in
      if (numActive =? 0)%nat then sessions this
      else filter active (sessions this)
  end.

(** The specification's delivery rule for a callback: the first target gets
    the autofocus signal, then every target, in order, gets the callback. *)
Definition deliver_as_specified {S} (callback : S -> Meeting -> M S) (s : S) : M S :=
  this <- gets g_meetings ;;
  match selectTargets this with
  | [] => ret s
  | first :: rest =>
      Meeting_autofocus first ;;
      forEach callback (first :: rest) s
  end.

(** The specification's delivery rule for a command. *)
Definition broadcast_as_specified (command : Meeting -> M unit) : M unit :=
  deliver_as_specified (stateless command) tt.

(** What a broadcast focus does: only the first target is focused. *)
Definition focus_first_target : M unit :=
  this <- gets g_meetings ;;
  match selectTargets this with
  | [] => ret tt
  | first :: _ =>
      Meeting_autofocus first ;;
      Meeting_focus first
  end.

(** A display recomputation is one call of [Badge.update], which sets the
    icon exactly once. *)
Definition is_SetIcon (e : Effect) : bool :=
  match e with
  | SetIcon _ => true
  | _ => false
  end.

Definition recomputations (t : list Effect) : nat :=
  List.length (filter is_SetIcon t).

(** Whether an [update] message differs from what the session has stored. *)
Definition mute_state_differs (this : Meeting) (message : PeerMessage) : bool :=
  negb (strict_eqb (audioMuted this) (pm_audioMuted message))
  || negb (strict_eqb (videoMuted this) (pm_videoMuted message)).

(** Whether the registry holds a session under the id of [meeting]. *)
Definition held (this : Meetings) (meeting : Meeting) : bool :=
  match id meeting with
  | Some k => JsMap.has k (meetings this)
  | None => false
  end.

(** The registry operations, as a caller can sequence them. *)
Inductive RegistryOp :=
| OpAdd (port_ : Port)
| OpRemove (meeting : Meeting)
| OpSetDefault (id_ : option Z) (value : option bool).

(** [OpAdd] is what [onConnect] does for a meeting page: construct and bind.
    The result is the meeting bound, if any. *)
Definition apply_op (op : RegistryOp) : M (list Meeting) :=
  match op with
  | OpAdd port_ => meeting <- Meeting_bind (Meeting_new port_) ;; ret [meeting]
  | OpRemove meeting => Meetings_remove meeting ;; ret []
  | OpSetDefault id_ value => Meetings_setDefault id_ value ;; ret []
  end.

(** Runs the operations in order and collects the meetings bound. *)
Definition apply_ops (ops : list RegistryOp) : M (list Meeting) :=
  forEach (fun bound op => more <- apply_op op ;; ret (bound ++ more)) ops [].

Definition is_add (op : RegistryOp) : bool :=
  match op with
  | OpAdd _ => true
  | _ => false
  end.

(** The ids [0, 1, ..., n-1]. *)
Definition first_ids (n : nat) : list (option Z) :=
  map (fun i => Some (Z.of_nat i)) (seq 0 n).

(** How a later registry continues an earlier one: the counter did not go
    back, a session held under an old id was held before, and it is still
    active if it was. *)
Definition continues (this this' : Meetings) : Prop :=
  nextId this <= nextId this'
  /\ forall k m',
       Meetings_get this' k = Some m' ->
       k < nextId this ->
       exists m, Meetings_get this k = Some m
                 /\ (active m = true -> active m' = true).

(** The handlers keep the registry well formed and only continue it. *)
Definition ok (w : World) : Prop := registry_ok (g_meetings w).

Definition safe_at {A} (c : M A) (w : World) : Prop :=
  ok w ->
  ok (world_after c w)
  /\ continues (g_meetings w) (g_meetings (world_after c w)).

(** A handler that only reads the globals. *)
Definition unchanged {A} (c : M A) : Prop :=
  forall w, world_after c w = w.

(** The calls that change what the action button shows. *)
Definition is_display (e : Effect) : bool :=
  match e with
  | SetIcon _ | SetTitle _ | SetPopup _ | SetBadgeText _
  | SetBadgeBackgroundColor _ => true
  | _ => false
  end.

(** What [update] leaves in the session. *)
Definition after_update (this : Meeting) (message : PeerMessage) : Meeting :=
  set_muted (set_title this (new_title this (pm_title message)))
    (pm_audioMuted message) (pm_videoMuted message).

(** ** Worked registries *)

Definition meeting_page (n : Z) : Port :=
  {| name := "/abc-defg-hij";
     sender_tab := Some {| tabId := 10 + n; windowId := 1 |} |}.

Definition control_page : Port :=
  {| name := "control"; sender_tab := None |}.

Definition update_message (a v : option bool) : PeerMessage :=
  {| pm_command := "update"; pm_title := None;
     pm_audioMuted := a; pm_videoMuted := v |}.

Definition title_message (t : string) (a v : option bool) : PeerMessage :=
  {| pm_command := "update"; pm_title := Some t;
     pm_audioMuted := a; pm_videoMuted := v |}.

Definition joined_message : PeerMessage :=
  {| pm_command := "joined"; pm_title := None;
     pm_audioMuted := None; pm_videoMuted := None |}.

Definition default_message (id_ : option Z) (value : option bool) : PageMessage :=
  {| im_command := "default"; im_id := id_; im_prefer := value;
     im_data := {| audio := None; video := None |} |}.

(** The background page as it starts with no stored settings. *)
Definition fresh : World := initial_world JsUndefined JsUndefined.

(** Two meeting pages connected, nothing reported yet. *)
Definition two_waiting : World :=
  run [EvConnect (meeting_page 0); EvConnect (meeting_page 1)] fresh.

(** Three meeting pages connected; the second reported a muted microphone. *)
Definition three_one_muted : World :=
  run [EvConnect (meeting_page 0); EvConnect (meeting_page 1);
       EvConnect (meeting_page 2);
       EvPortMessage 1 (update_message (Some true) (Some false))] fresh.

(** Three meeting pages, the last two joined, the first one preferred. *)
Definition three_one_preferred : World :=
  run [EvConnect (meeting_page 0); EvConnect (meeting_page 1);
       EvConnect (meeting_page 2);
       EvPortMessage 1 joined_message; EvPortMessage 2 joined_message;
       EvPageMessage control_page (default_message (Some 0) (Some true))] fresh.

(** One meeting page that reported microphone muted, camera on. *)
Definition one_reported : World :=
  run [EvConnect (meeting_page 0);
       EvPortMessage 0 (update_message (Some true) (Some false))] fresh.

(** Session 0 joins ... *)
Definition first_joins : list Event :=
  [EvConnect (meeting_page 0); EvConnect (meeting_page 1);
   EvPortMessage 0 joined_message].

(** ... and then a lot happens around it. *)
Definition busy_afterwards : list Event :=
  [EvPortMessage 0 (update_message (Some true) (Some true));
   EvConnect (meeting_page 2); EvPortDisconnect 2;
   EvPageMessage control_page (default_message (Some 0) (Some true));
   EvPageMessage control_page (default_message (Some 0) (Some false));
   EvCommand "toggle-mute-audio";
   EvContextMenu "ext" "clear-default"].

(** Session 0 at the end of [busy_afterwards]. *)
Definition session_0_later : Meeting :=
  {| id := Some 0; title := None; port := meeting_page 0;
     active := true; prefer := false;
     audioMuted := Some true; videoMuted := Some true |}.

(** Three meetings bound, the second one removed again. *)
Definition three_added_one_removed : list RegistryOp :=
  [OpAdd (meeting_page 0); OpAdd (meeting_page 1); OpAdd (meeting_page 2);
   OpSetDefault (Some 1) (Some true);
   OpRemove (set_id (Meeting_new (meeting_page 1)) (Some 1))].

(** ** Readings used by the further properties *)

(** Whether the port of a session carries a tab. *)
Definition has_tab (meeting : Meeting) : bool :=
  match sender_tab (port meeting) with
  | Some _ => true
  | None => false
  end.

(** Whether a session runs in the given tab of the given window. *)
Definition on_tab (tabId_ windowId_ : Z) (meeting : Meeting) : bool :=
  match sender_tab (port meeting) with
  | Some tab => (tabId tab =? tabId_) && (windowId tab =? windowId_)
  | None => false
  end.

(** A message posted on a port. *)
Definition is_post (e : Effect) : bool :=
  match e with
  | PostMessage _ _ => true
  | _ => false
  end.

(** The snapshot sent in reply to [list]. *)
Definition snapshot (this : Meetings) : OutMessage :=
  MsgList (map list_row (sessions this)).

(** One command message per target, in order. *)
Definition command_posts (command : string) (data : Data) (targets : list Meeting)
    : list Effect :=
  map (fun m => PostMessage (port m) (MsgCommand command data)) targets.

(** The events whose handlers only read the globals: clicks, shortcuts, page
    requests other than [default], menu items other than [clear-default],
    and peer messages other than [joined] and [update]. *)
Definition reads_only (ev : Event) : bool :=
  match ev with
  | EvActionClicked _ | EvCommand _ => true
  | EvPageMessage _ message => negb (String.eqb (im_command message) "default")
  | EvContextMenu _ item => negb (String.eqb item "clear-default")
  | EvPortMessage _ message =>
      negb (one_of (pm_command message) ["joined"; "update"]%string)
  | _ => false
  end.

(** * The log module (src/js/logging.js)

    Every page loads its own copy of the module.  The clock is an input:
    [now] is what [new Date().toISOString()] returns at the call.  A
    character of a string is a code unit below 256. *)

Module Logging.

(** The module's four bindings.  [page] is undefined until [init]. *)
Record State := mkState {
  debugEnabled : bool;
  port : option Port;
  page : option string;
  entries : list string
}.

Definition initial : State :=
  {| debugEnabled := false; port := None; page := None; entries := [] |}.

Inductive Level := DEBUG | INFO | WARN | ERROR.

(** [level.description]. *)
Definition description (level : Level) : string :=
  match level with
  | DEBUG => "debug"
  | INFO => "info"
  | WARN => "warn"
  | ERROR => "error"
  end.

(** The argument of [recordLog]: [{page, level, message}], each a string or
    undefined. *)
Record LogRecord := mkLogRecord {
  lr_page : option string;
  lr_level : option string;
  lr_message : option string
}.

(** What the module posts to the background page. *)
Inductive Request :=
| LogRequest (log : LogRecord)
| GetLogRequest.

Inductive Output :=
| ConsoleClear
| ConsoleLog (entry : string)
| Post (p : Port) (m : Request).

(** The argument of [init]; a [debug] left out is falsy. *)
Record InitSettings := mkInitSettings {
  i_page : option string;
  i_port : option Port;
  i_debug : bool
}.

Definition init (settings : InitSettings) (s : State) : State :=
  {| debugEnabled := i_debug settings; port := i_port settings;
     page := i_page settings; entries := entries s |}.

Definition setDebug (enabled : bool) (s : State) : State * list Output :=
  ({| debugEnabled := enabled; port := port s; page := page s;
      entries := entries s |},
   if enabled then [] else [ConsoleClear]).

(** [`${v}`] of a string or undefined. *)
Definition template (v : option string) : string :=
  match v with
  | Some s => s
  | None => "undefined"
  end.

Definition entry_text (now : string) (log : LogRecord) : string :=
  (now ++ ": " ++ template (lr_page log) ++ ": " ++ template (lr_level log)
       ++ ": " ++ template (lr_message log))%string.

Definition recordLog (now : string) (log : LogRecord) (s : State)
    : State * list Output :=
  let entry := entry_text now log in
  ({| debugEnabled := debugEnabled s; port := port s; page := page s;
      entries := entries s ++ [entry] |},
   if debugEnabled s then [ConsoleLog entry] else []).

(** [args] are the arguments as [join] converts them. *)
Definition log_ (now : string) (level : Level) (args : list string) (s : State)
    : State * list Output :=
  let message := String.concat " " args in
  let log := {| lr_page := page s; lr_level := Some (description level);
                lr_message := Some message |} in
  match port s with
  | Some p => (s, [Post p (LogRequest log)])
  | None => recordLog now log s
  end.

Definition debug (now : string) (args : list string) (s : State)
    : State * list Output :=
  if negb (debugEnabled s) then (s, []) else log_ now DEBUG args s.

Definition info (now : string) (args : list string) (s : State)
    : State * list Output :=
  log_ now INFO args s.

Definition log (now : string) (args : list string) (s : State)
    : State * list Output :=
  log_ now INFO args s.

Definition warn (now : string) (args : list string) (s : State)
    : State * list Output :=
  log_ now WARN args s.

Definition error (now : string) (args : list string) (s : State)
    : State * list Output :=
  log_ now ERROR args s.

(** [\s] on code units below 256. *)
Definition is_space (c : ascii) : bool :=
  existsb (Nat.eqb (nat_of_ascii c)) [9; 10; 11; 12; 13; 32; 160]%nat.

Fixpoint skip_spaces (s : string) : string :=
  match s with
  | String c rest => if is_space c then skip_spaces rest else s
  | EmptyString => s
  end.

(** [line.replace(/^\s*at\s+/, '')]. *)
Definition strip_at (line : string) : string :=
  match skip_spaces line with
  | String "a" (String "t" (String c rest)) =>
      if is_space c then skip_spaces rest else line
  | _ => line
  end.

(** [array[i]]: undefined outside the array. *)
Definition index {A} (array : list A) (i : Z) : option A :=
  if i <? 0 then None else nth_error array (Z.to_nat i).

(** The loop of [getStack], [n] rounds from index [i]; [None] is the
    TypeError of [undefined.replace]. *)
Fixpoint getStack_loop (stackArray : list string) (i : Z) (n : nat)
    (stackObject : list string) : option (list string) :=
  match n with
  | O => Some stackObject
  | S n' =>
      match index stackArray i with
      | None => None
      | Some line =>
          getStack_loop stackArray (i + 1) n' (stackObject ++ [strip_at line])
      end
  end.

(** [stackArray] is [new Error().stack.split('\n')]. *)
Definition getStack (stackArray : list string) (ignoreFrames count : option Z)
    : option (list string) :=
  let ignoreFrames :=
    match ignoreFrames with Some n => n | None => 0 end + 2 in
  let max := Z.of_nat (List.length stackArray) - ignoreFrames in
  let count :=
    match count with
    | None => max
    | Some count =>
        if count <? 0 then 0 else if count >? max then max else count
    end in
  getStack_loop stackArray ignoreFrames (Z.to_nat count) [].

(** [None] is an exception out of [getStack], before anything is logged. *)
Definition assert (now : string) (condition : bool) (args : list string)
    (stackArray : list string) (s : State) : option (State * list Output) :=
  if negb condition then
    match getStack stackArray None None with
    | Some frames =>
        Some (error now (("assert failed"%string :: args)
                           ++ [String.concat "," frames]) s)
    | None => None
    end
  else Some (s, []).

(** The result is [None] for undefined. *)
Definition getLog (s : State) : option (list string) * list Output :=
  match port s with
  | Some p => (None, [Post p GetLogRequest])
  | None => (Some (entries s), [])
  end.

(** The calls a page makes, with the time of each where the clock is read. *)
Inductive Call :=
| CInit (settings : InitSettings)
| CSetDebug (enabled : bool)
| CRecordLog (now : string) (log : LogRecord)
| CDebug (now : string) (args : list string)
| CInfo (now : string) (args : list string)
| CLog (now : string) (args : list string)
| CWarn (now : string) (args : list string)
| CError (now : string) (args : list string)
| CAssert (now : string) (condition : bool) (args stackArray : list string)
| CGetLog.

(** An exception leaves the module as it was. *)
Definition call (c : Call) (s : State) : State * list Output :=
  match c with
  | CInit settings => (init settings s, [])
  | CSetDebug enabled => setDebug enabled s
  | CRecordLog now log => recordLog now log s
  | CDebug now args => debug now args s
  | CInfo now args => info now args s
  | CLog now args => log now args s
  | CWarn now args => warn now args s
  | CError now args => error now args s
  | CAssert now condition args stackArray =>
      match assert now condition args stackArray s with
      | Some r => r
      | None => (s, [])
      end
  | CGetLog => (s, snd (getLog s))
  end.

Definition calls (cs : list Call) (s : State) : State :=
  fold_left (fun s c => fst (call c s)) cs s.

Definition is_init (c : Call) : bool :=
  match c with
  | CInit _ => true
  | _ => false
  end.

(** Everything the calls print or post, in order. *)
Fixpoint transcript (cs : list Call) (s : State) : list Output :=
  match cs with
  | [] => []
  | c :: cs => snd (call c s) ++ transcript cs (fst (call c s))
  end.

(** The calls that never record: [init], [setDebug], [getLog]. *)
Definition is_quiet (c : Call) : bool :=
  match c with
  | CInit _ | CSetDebug _ | CGetLog => true
  | _ => false
  end.

Definition is_recordLog (c : Call) : bool :=
  match c with
  | CRecordLog _ _ => true
  | _ => false
  end.

(** What a page with port [p] may put out: posts on [p], and clearing its
    console. *)
Definition forwarded (p : Port) (o : Output) : Prop :=
  match o with
  | Post q _ => q = p
  | ConsoleClear => True
  | ConsoleLog _ => False
  end.

End Logging.

(** * The meeting page (src/js/inject.js)

    The script sees the page through the two buttons
    [document.querySelectorAll(buttonSelector)] finds, and changes it by
    clicking them.  What a click does is the page's business: the page is
    any type, [click] any function on it.  [showPopup] lays a notice over a
    button and leaves the buttons as they are.  The connection to the
    coordinator is taken to be open.  Start-up ([init], [meetingLifeCycle])
    waits on timers and observers and is not part of the model. *)

Module Inject.

Inductive Control := Mic | Cam.

(** A button; [isMuted] is [dataset.isMuted === 'true']. *)
Record Button := mkButton {
  isMuted : bool
}.

(** The three settings. *)
Record State := mkState {
  debugEnabled : bool;
  defaultMuteAudio : bool;
  defaultMuteVideo : bool
}.

(** What [connection.send] posts. *)
Inductive Sent :=
| SentLog (level message : string)
| SentUpdate (audioMuted videoMuted : bool)
| SentJoined.

Inductive Output :=
| Click (c : Control)
| ShowPopup (c : Control) (text : string)
| Send (m : Sent)
| ConsoleLog
| ConsoleWarn.

Inductive Completion := Normal | TypeError.

Definition initSettings (debug muteAudio muteVideo : JsValue) : State :=
  {| debugEnabled := to_boolean debug;
     defaultMuteAudio := to_boolean muteAudio;
     defaultMuteVideo := to_boolean muteVideo |}.

Definition newline : string := String (ascii_of_nat 10) EmptyString.

Definition popup_text (what : string) : string :=
  (what ++ newline ++ "muted" ++ newline ++ "by" ++ newline ++ "default")%string.

Definition is_click (c : Control) (o : Output) : bool :=
  match o, c with
  | Click Mic, Mic | Click Cam, Cam => true
  | _, _ => false
  end.

Definition is_popup (c : Control) (o : Output) : bool :=
  match o, c with
  | ShowPopup Mic _, Mic | ShowPopup Cam _, Cam => true
  | _, _ => false
  end.

Definition is_send (o : Output) : bool :=
  match o with
  | Send _ => true
  | _ => false
  end.

(** The message as the coordinator's [Meeting.recv] reads it. *)
Definition to_peer (m : Sent) : PeerMessage :=
  match m with
  | SentLog _ _ => mkPeerMessage "log" None None None
  | SentUpdate a v => mkPeerMessage "update" None (Some a) (Some v)
  | SentJoined => mkPeerMessage "joined" None None None
  end.

Section Page.

Variable Page : Type.
Variable buttons : Page -> list Button.
Variable click : Control -> Page -> Page.

(** How a step ends, the settings and the page it leaves, what it did. *)
Definition Run : Type := Completion * (State * Page) * list Output.

Definition skip (st : State) (pg : Page) : Run := (Normal, (st, pg), []).

Definition andThen (r : Run) (k : State -> Page -> Run) : Run :=
  match r with
  | (Normal, (st, pg), out) =>
      let '(c, sp, out') := k st pg in (c, sp, out ++ out')
  | (TypeError, _, _) => r
  end.

Definition completion (r : Run) : Completion := fst (fst r).
Definition state_after (r : Run) : State := fst (snd (fst r)).
Definition page_after (r : Run) : Page := snd (snd (fst r)).
Definition outputs (r : Run) : list Output := snd r.

Definition log (level : string) (args : list string) (st : State) (pg : Page)
    : Run :=
  (Normal, (st, pg),
   (if debugEnabled st then [ConsoleLog] else [])
     ++ [Send (SentLog level (String.concat " " args))]).

Definition dbg (args : list string) (st : State) (pg : Page) : Run :=
  if negb (debugEnabled st) then skip st pg else log "debug" args st pg.

Definition getAudioElement (pg : Page) : option Button := nth_error (buttons pg) 0.

Definition getVideoElement (pg : Page) : option Button := nth_error (buttons pg) 1.

Definition getElement (c : Control) (pg : Page) : option Button :=
  match c with
  | Mic => getAudioElement pg
  | Cam => getVideoElement pg
  end.

(** The three [act]s; [c] says which button [ele] is. *)
Definition act_toggle (c : Control) (ele : option Button) (st : State)
    (pg : Page) : Run :=
  match ele with
  | None => (TypeError, (st, pg), [])
  | Some _ => (Normal, (st, click c pg), [Click c])
  end.

Definition act_mute (c : Control) (ele : option Button) (st : State)
    (pg : Page) : Run :=
  match ele with
  | None => (TypeError, (st, pg), [])
  | Some ele =>
      if negb (isMuted ele) then (Normal, (st, click c pg), [Click c])
      else skip st pg
  end.

Definition act_unmute (c : Control) (ele : option Button) (st : State)
    (pg : Page) : Run :=
  match ele with
  | None => (TypeError, (st, pg), [])
  | Some ele =>
      if isMuted ele then (Normal, (st, click c pg), [Click c])
      else skip st pg
  end.

(** The shared body of the three commands. *)
Definition command_body
    (act : Control -> option Button -> State -> Page -> Run)
    (data : Data) (st : State) (pg : Page) : Run :=
  andThen
    (if truthy (audio data) then act Mic (getAudioElement pg) st pg
     else skip st pg)
    (fun st pg =>
       if truthy (video data) then act Cam (getVideoElement pg) st pg
       else skip st pg).

Definition commandToggle : Data -> State -> Page -> Run := command_body act_toggle.

Definition commandMute : Data -> State -> Page -> Run := command_body act_mute.

Definition commandUnmute : Data -> State -> Page -> Run := command_body act_unmute.

(** [commands.get(command)]. *)
Definition commands (command : string) : option (Data -> State -> Page -> Run) :=
  if String.eqb command "mute" then Some commandMute
  else if String.eqb command "toggle" then Some commandToggle
  else if String.eqb command "unmute" then Some commandUnmute
  else None.

(** [message] is [{command, audio, video}]. *)
Definition onMessage (command : string) (data : Data) (st : State) (pg : Page)
    : Run :=
  match commands command with
  | Some handler =>
      andThen
        (dbg [("dispatching to " ++ command)%string; "[object Object]"%string]
             st pg)
        (handler data)
  | None => (Normal, (st, pg), [ConsoleWarn])
  end.

Definition with_defaultMuteAudio (v : bool) (st : State) : State :=
  {| debugEnabled := debugEnabled st; defaultMuteAudio := v;
     defaultMuteVideo := defaultMuteVideo st |}.

Definition with_defaultMuteVideo (v : bool) (st : State) : State :=
  {| debugEnabled := debugEnabled st; defaultMuteAudio := defaultMuteAudio st;
     defaultMuteVideo := v |}.

Definition defaultMuteMeeting (st : State) (pg : Page) : Run :=
  andThen
    (if defaultMuteAudio st then
       match getAudioElement pg with
       | None => (TypeError, (st, pg), [])
       | Some audio =>
           if negb (isMuted audio) then
             (Normal, (with_defaultMuteAudio false st, click Mic pg),
              [Click Mic; ShowPopup Mic (popup_text "Audio")])
           else skip st pg
       end
     else skip st pg)
    (fun st pg =>
       if defaultMuteVideo st then
         match getVideoElement pg with
         | None => (TypeError, (st, pg), [])
         | Some video =>
             if negb (isMuted video) then
               (Normal, (with_defaultMuteVideo false st, click Cam pg),
                [Click Cam; ShowPopup Cam (popup_text "Video")])
             else skip st pg
         end
       else skip st pg).

(** [mutations] is the number of records, each shown as
    [[object MutationRecord]]. *)
Definition onMutations (mutations : nat) (st : State) (pg : Page) : Run :=
  andThen
    (dbg ["onMutations"%string;
          String.concat "," (repeat "[object MutationRecord]"%string mutations)]
         st pg)
    (fun st pg =>
       andThen
         (if defaultMuteAudio st || defaultMuteVideo st
          then defaultMuteMeeting st pg else skip st pg)
         (fun st pg =>
            match getAudioElement pg, getVideoElement pg with
            | Some audio, Some video =>
                (Normal, (st, pg),
                 [Send (SentUpdate (isMuted audio) (isMuted video))])
            | _, _ => (TypeError, (st, pg), [])
            end)).

(** Whether [onMessage] finds a handler. *)
Definition handles (command : string) : bool :=
  match commands command with
  | Some _ => true
  | None => false
  end.

(** What the coordinator does that the page can act on: everything but a
    command message without a handler. *)
Definition understood (e : Effect) : bool :=
  match e with
  | PostMessage _ (MsgCommand command _) => handles command
  | _ => true
  end.

(** The setting that arms the default mute of a control. *)
Definition armed (c : Control) (st : State) : bool :=
  match c with
  | Mic => defaultMuteAudio st
  | Cam => defaultMuteVideo st
  end.

(** The account of the default mute of [c] over a step: the notices shown
    and what is still armed afterwards make up what was armed before. *)
Definition pays (c : Control) (st : State) (r : Run) : Prop :=
  (List.length (filter (is_popup c) (outputs r))
   + (if armed c (state_after r) then 1 else 0)
   = if armed c st then 1 else 0)%nat.

(** What runs on the page after start-up: a command from the coordinator, a
    change of the buttons, or the page doing something of its own, which
    leaves it in any state [pg]. *)
Inductive PageEvent :=
| PeMessage (command : string) (data : Data)
| PeMutations (mutations : nat)
| PeDefaultMute
| PePage (pg : Page).

Definition on_event (ev : PageEvent) (st : State) (pg : Page) : Run :=
  match ev with
  | PeMessage command data => onMessage command data st pg
  | PeMutations mutations => onMutations mutations st pg
  | PeDefaultMute => defaultMuteMeeting st pg
  | PePage pg' => skip st pg'
  end.

(** The settings and the page outlive an exception. *)
Fixpoint on_events (evs : list PageEvent) (st : State) (pg : Page)
    : State * Page * list Output :=
  match evs with
  | [] => (st, pg, [])
  | ev :: evs =>
      let r := on_event ev st pg in
      let '(st', pg', out) := on_events evs (state_after r) (page_after r) in
      (st', pg', outputs r ++ out)
  end.

End Page.

(** A page whose buttons flip when clicked. *)
Definition flip (c : Control) (pg : list Button) : list Button :=
  match c, pg with
  | Mic, a :: rest => mkButton (negb (isMuted a)) :: rest
  | Cam, a :: v :: rest => a :: mkButton (negb (isMuted v)) :: rest
  | _, _ => pg
  end.

Definition lobby : list Button := [mkButton false; mkButton false].

End Inject.

(** Every effect of a handler satisfies [P], in whatever globals it runs. *)
Definition emits (P : Effect -> Prop) {A} (c : M A) : Prop :=
  forall w, Forall P (effects_of c w).

(** No session has a title. *)
Definition untitled (this : Meetings) : Prop :=
  Forall (fun m => title m = None) (sessions this).

(** The events that bring no title: all but a peer message with one. *)
Definition brings_no_title (ev : Event) : bool :=
  match ev with
  | EvPortMessage _ message =>
      match pm_title message with
      | None => true
      | Some _ => false
      end
  | _ => true
  end.

(** A handler that gives no session a title, run in [w]. *)
Definition keeps_untitled {A} (c : M A) (w : World) : Prop :=
  untitled (g_meetings w) -> untitled (g_meetings (world_after c w)).

(** * Properties *)

(** ** Laws of the handler monad, pointwise *)

Lemma bind_ret_l {A B} (a : A) (k : A -> M B) (w : World) :
  bind (ret a) k w = k a w.
Proof.
  unfold bind, ret. destruct (k a w) as [[r w2] e2]. reflexivity.
Qed.

Lemma bind_ret_r {A} (c : M A) (w : World) :
  bind c ret w = c w.
Proof.
  unfold bind, ret. destruct (c w) as [[[a|] w1] e1]; [|reflexivity].
  now rewrite app_nil_r.
Qed.

Lemma bind_assoc {A B C} (c : M A) (k : A -> M B) (h : B -> M C) (w : World) :
  bind (bind c k) h w = bind c (fun a => bind (k a) h) w.
Proof.
  unfold bind. destruct (c w) as [[[a|] w1] e1]; [|reflexivity].
  destruct (k a w1) as [[[b|] w2] e2]; [|reflexivity].
  destruct (h b w2) as [[r w3] e3]. now rewrite app_assoc.
Qed.

Lemma bind_ext {A B} (c : M A) (k1 k2 : A -> M B) (w : World) :
  (forall a w1, k1 a w1 = k2 a w1) -> bind c k1 w = bind c k2 w.
Proof.
  intros E. unfold bind. destruct (c w) as [[[a|] w1] e1]; [|reflexivity].
  now rewrite E.
Qed.

Lemma bind_gets {A B} (f : World -> A) (k : A -> M B) (w : World) :
  bind (gets f) k w = k (f w) w.
Proof.
  unfold bind, gets. destruct (k (f w) w) as [[r w2] e2]. reflexivity.
Qed.

(** ** The accessors count what they say *)

Lemma countMeetings_fold (property : Property) (l : list (Z * Meeting)) (n : nat) :
  fold_left
    (fun ret entry =>
       (ret + if truthy (Meeting_field (snd entry) property) then 1 else 0)%nat)
    l n
  = (n + List.length
           (filter (fun m => truthy (Meeting_field m property)) (map snd l)))%nat.
Proof.
  revert n. induction l as [|[k m] l IH]; intros n; simpl.
  - lia.
  - rewrite IH. destruct (truthy (Meeting_field m property)); simpl; lia.
Qed.

Lemma countMeetings_spec (this : Meetings) (property : Property) :
  Meetings_countMeetings_ this property
  = List.length (filter (fun m => truthy (Meeting_field m property)) (sessions this)).
Proof.
  unfold Meetings_countMeetings_. now rewrite countMeetings_fold.
Qed.

Lemma numActive_spec (this : Meetings) :
  Meetings_numActive this = List.length (filter active (sessions this)).
Proof.
  unfold Meetings_numActive. rewrite countMeetings_spec.
  apply (f_equal (@List.length Meeting)), filter_ext.
  intros m. simpl. now destruct (active m).
Qed.

Lemma numAudioMuted_spec (this : Meetings) :
  Meetings_numAudioMuted this
  = List.length (filter (fun m => truthy (audioMuted m)) (sessions this)).
Proof.
  unfold Meetings_numAudioMuted. now rewrite countMeetings_spec.
Qed.

Lemma size_spec (this : Meetings) :
  Meetings_size this = List.length (sessions this).
Proof.
  unfold Meetings_size, JsMap.size, sessions, JsMap.values.
  now rewrite length_map.
Qed.

(** ** The summary text *)

(** C5.  For every registry the summary is "No meetings found. Please reload
    Google Meet pages to connect." when it is empty, "All meetings are
    muted." when it is not empty and every session is audio-muted, "No
    meetings are muted." when it is not empty and none is, and "{size}
    active meetings; {numAudioMuted} are muted." otherwise; three sessions
    of which one is muted give "3 active meetings; 1 are muted.".  Here
    [size] is the number of sessions held and [numAudioMuted] the number of
    those whose [audioMuted] is true. *)
Theorem summary_text (this : Meetings) :
  let size := Meetings_size this in
  let numAudioMuted := Meetings_numAudioMuted this in
  size = List.length (sessions this)
  /\ numAudioMuted
     = List.length (filter (fun m => strict_eqb (audioMuted m) (Some true))
                      (sessions this))
  /\ (size = 0%nat ->
      Meetings_summary this
      = "No meetings found. Please reload Google Meet pages to connect."%string)
  /\ ((0 < size)%nat -> numAudioMuted = size ->
      Meetings_summary this = "All meetings are muted."%string)
  /\ ((0 < size)%nat -> numAudioMuted = 0%nat ->
      Meetings_summary this = "No meetings are muted."%string)
  /\ ((0 < size)%nat -> numAudioMuted <> size -> numAudioMuted <> 0%nat ->
      Meetings_summary this
      = (Number_toString size ++ " active meetings; "
           ++ Number_toString numAudioMuted ++ " are muted.")%string)
  /\ (size = 3%nat -> numAudioMuted = 1%nat ->
      Meetings_summary this = "3 active meetings; 1 are muted."%string).
Proof.
  intros size numAudioMuted.
  split; [apply size_spec|].
  split.
  { unfold numAudioMuted. rewrite numAudioMuted_spec.
    apply (f_equal (@List.length Meeting)), filter_ext.
    intros m. now destruct (audioMuted m) as [[|]|]. }
  unfold Meetings_summary. fold size. fold numAudioMuted.
  split; [|split; [|split; [|split]]].
  - intros ->. reflexivity.
  - intros Hpos ->. destruct size; [lia|]. simpl. now rewrite Nat.eqb_refl.
  - intros Hpos ->. destruct size; [lia|]. reflexivity.
  - intros Hpos Hne Hnz.
    destruct (Nat.eqb_spec size 0); [lia|].
    destruct (Nat.eqb_spec size numAudioMuted); [congruence|].
    destruct (Nat.eqb_spec numAudioMuted 0); [congruence|].
    reflexivity.
  - intros -> ->. reflexivity.
Qed.

(** The four branches of C5 on worked registries. *)
Lemma summary_text_witness :
  Meetings_summary (g_meetings fresh)
  = "No meetings found. Please reload Google Meet pages to connect."%string
  /\ Meetings_summary (g_meetings one_reported) = "All meetings are muted."%string
  /\ Meetings_summary (g_meetings two_waiting) = "No meetings are muted."%string
  /\ Meetings_summary (g_meetings three_one_muted)
     = "3 active meetings; 1 are muted."%string.
Proof.
  split; [|split; [|split]].
  - apply (summary_text (g_meetings fresh)). reflexivity.
  - apply (summary_text (g_meetings one_reported)); vm_compute; [lia|reflexivity].
  - apply (summary_text (g_meetings two_waiting)); vm_compute; [lia|reflexivity].
  - apply (summary_text (g_meetings three_one_muted)); reflexivity.
Defined.

(** ** Unknown mute state *)

(** C10.  [numAudioMuted] counts exactly the sessions whose [audioMuted] is
    true, so a session whose flag is still null is counted as not muted; a
    registry that is not empty and in which no session has reported its mute
    state has no muted session, state UNMUTED and the summary "No meetings
    are muted.". *)
Theorem unreported_counts_as_unmuted (this : Meetings) :
  Meetings_numAudioMuted this
  = List.length (filter (fun m => strict_eqb (audioMuted m) (Some true))
                   (sessions this))
  /\ ((0 < Meetings_size this)%nat ->
      Forall (fun m => audioMuted m = None) (sessions this) ->
      Meetings_numAudioMuted this = 0%nat
      /\ Meetings_state this = UNMUTED
      /\ Meetings_summary this = "No meetings are muted."%string).
Proof.
  assert (Hcount : Meetings_numAudioMuted this
                   = List.length (filter (fun m => strict_eqb (audioMuted m) (Some true))
                                    (sessions this))).
  { rewrite numAudioMuted_spec.
    apply (f_equal (@List.length Meeting)), filter_ext.
    intros m. now destruct (audioMuted m) as [[|]|]. }
  split; [exact Hcount|].
  intros Hpos Hnull.
  assert (Hzero : Meetings_numAudioMuted this = 0%nat).
  { rewrite Hcount. clear Hcount Hpos.
    induction Hnull as [|m l Hm _ IH]; [reflexivity|].
    simpl. now rewrite Hm. }
  split; [exact Hzero|]. split.
  - unfold Meetings_state. rewrite Hzero.
    destruct (Meetings_size this); [lia|]. reflexivity.
  - unfold Meetings_summary. rewrite Hzero.
    destruct (Meetings_size this); [lia|]. reflexivity.
Qed.

(** C10 on two connected meetings that have reported nothing. *)
Lemma unreported_counts_as_unmuted_witness :
  Meetings_numAudioMuted (g_meetings two_waiting) = 0%nat
  /\ Meetings_state (g_meetings two_waiting) = UNMUTED
  /\ Meetings_summary (g_meetings two_waiting) = "No meetings are muted."%string.
Proof.
  apply (proj2 (unreported_counts_as_unmuted (g_meetings two_waiting))).
  - vm_compute. lia.
  - vm_compute. repeat constructor.
Defined.

(** ** The badge *)

Lemma bind_returned {A B} (c : M A) (k : A -> M B) (w w1 : World) (a : A)
    (e1 : list Effect) :
  c w = (Returned a, w1, e1) ->
  bind c k w = (fst (fst (k a w1)), snd (fst (k a w1)), e1 ++ snd (k a w1)).
Proof.
  intros E. unfold bind. rewrite E. now destruct (k a w1) as [[r w2] e2].
Qed.

(** The refresh pushed to a connected popup. *)
Lemma popup_refresh_returns (p : option Port) (w : World) :
  exists e,
    when_defined p onInternalPageMessage_list w = (Returned tt, w, e)
    /\ Forall (fun x => is_display x = false) e.
Proof.
  destruct p as [p|]; simpl.
  - eexists. split; [reflexivity|]. repeat constructor.
  - exists []. split; [reflexivity|constructor].
Qed.

Lemma popupAction_returns (w : World) :
  exists target e,
    Badge_popupAction w = (Returned target, w, e)
    /\ Forall (fun x => is_display x = false) e.
Proof.
  unfold Badge_popupAction. rewrite !bind_gets.
  destruct (g_actionButtonBehavior w) as [b|].
  - destruct (String.eqb b "popup");
      [eexists; exists []; split; [reflexivity|constructor]|].
    destruct (one_of b _);
      [eexists; exists []; split; [reflexivity|constructor]|].
    destruct (one_of b _);
      [eexists; exists []; split; [reflexivity|constructor]|].
    eexists; eexists; split; [reflexivity|repeat constructor].
  - eexists; eexists; split; [reflexivity|repeat constructor].
Qed.

(** C8.  [Badge.update] on a registry in state UNMUTED hands [Badge.set] the
    icon "mic-on", the badge text [size] when no session is muted and
    "{numAudioMuted}/{size}" otherwise, and the green colour #219653; in
    state MUTED the icon "mic-off", the badge text [size] and the red colour
    #d92f25.  [Badge.set] turns the descriptor into the five browserAction
    calls that end the trace; nothing before them touches the display. *)
Theorem badge_descriptor (w : World) :
  let this := g_meetings w in
  let size := Meetings_size this in
  let numAudioMuted := Meetings_numAudioMuted this in
  exists popupTarget before,
    outcome_of Badge_popupAction w = Returned popupTarget
    /\ Forall (fun e => is_display e = false) before
    /\ (Meetings_state this = UNMUTED ->
        let text :=
          if (numAudioMuted =? 0)%nat then Number_toString size
          else (Number_toString numAudioMuted ++ "/" ++ Number_toString size)%string in
        let descriptor :=
          {| s_icon := Some "mic-on"%string;
             s_title := Some (Meetings_summary this);
             s_popup := Some popupTarget;
             s_text := Some text;
             s_color := Some "#219653"%string |} in
        effects_of Badge_update w = before ++ effects_of (Badge_set descriptor) w
        /\ effects_of (Badge_set descriptor) w
           = [SetIcon "../images/mic-on-96.png"; SetTitle (Meetings_summary this);
              SetPopup popupTarget; SetBadgeText text;
              SetBadgeBackgroundColor "#219653"])
    /\ (Meetings_state this = MUTED ->
        let descriptor :=
          {| s_icon := Some "mic-off"%string;
             s_title := Some (Meetings_summary this);
             s_popup := Some popupTarget;
             s_text := Some (Number_toString size);
             s_color := Some "#d92f25"%string |} in
        effects_of Badge_update w = before ++ effects_of (Badge_set descriptor) w
        /\ effects_of (Badge_set descriptor) w
           = [SetIcon "../images/mic-off-96.png"; SetTitle (Meetings_summary this);
              SetPopup popupTarget; SetBadgeText (Number_toString size);
              SetBadgeBackgroundColor "#d92f25"]).
Proof.
  intros this size numAudioMuted.
  destruct (popup_refresh_returns (popup (g_badge w)) w) as (e0 & E0 & F0).
  destruct (popupAction_returns w) as (target & e1 & E1 & F1).
  exists target, (e0 ++ e1).
  split; [unfold outcome_of; now rewrite E1|].
  split; [apply Forall_app; now split|].
  split.
  - intros Hstate text descriptor.
    split; [|reflexivity].
    unfold effects_of, Badge_update.
    rewrite bind_gets, (bind_returned _ _ _ _ _ _ E0), bind_gets.
    fold this. rewrite Hstate.
    rewrite (bind_returned _ _ _ _ _ _ E1). simpl.
    now rewrite app_assoc.
  - intros Hstate descriptor.
    split; [|reflexivity].
    unfold effects_of, Badge_update.
    rewrite bind_gets, (bind_returned _ _ _ _ _ _ E0), bind_gets.
    fold this. rewrite Hstate.
    rewrite (bind_returned _ _ _ _ _ _ E1). simpl.
    now rewrite app_assoc.
Qed.

(** C8 on a registry with one of three sessions muted and on one whose only
    session is muted. *)
Lemma badge_descriptor_witness :
  (exists target before,
     effects_of Badge_update three_one_muted
     = before ++ [SetIcon "../images/mic-on-96.png";
                  SetTitle "3 active meetings; 1 are muted."; SetPopup target;
                  SetBadgeText "1/3"; SetBadgeBackgroundColor "#219653"])
  /\ (exists target before,
        effects_of Badge_update one_reported
        = before ++ [SetIcon "../images/mic-off-96.png";
                     SetTitle "All meetings are muted."; SetPopup target;
                     SetBadgeText "1"; SetBadgeBackgroundColor "#d92f25"]).
Proof.
  split.
  - destruct (badge_descriptor three_one_muted) as (t & b & _ & _ & H & _).
    destruct (H eq_refl) as [H1 H2].
    exists t, b. rewrite H1, H2. reflexivity.
  - destruct (badge_descriptor one_reported) as (t & b & _ & _ & _ & H).
    destruct (H eq_refl) as [H1 H2].
    exists t, b. rewrite H1, H2. reflexivity.
Defined.

(** ** The map as a list of entries *)

Section MapFacts.
Context {V : Type}.
Implicit Types (l : JsMap.t V) (k : Z) (v : V).

Lemma get_In l k v : JsMap.get k l = Some v -> In (k, v) l.
Proof.
  induction l as [|[k' v'] l IH]; simpl; [discriminate|].
  destruct (Z.eqb_spec k' k) as [->|Hne].
  - intros [= ->]. now left.
  - intros H. right. now apply IH.
Qed.

Lemma get_None_keys l k : JsMap.get k l = None -> ~ In k (JsMap.keys l).
Proof.
  induction l as [|[k' v'] l IH]; simpl; [tauto|].
  destruct (Z.eqb_spec k' k) as [->|Hne]; [discriminate|].
  intros H [E|HIn]; [congruence|]. now apply IH.
Qed.

Lemma sorted_NoDup (ks : list Z) : StronglySorted Z.lt ks -> NoDup ks.
Proof.
  induction 1 as [|k ks _ IH Hall]; constructor; [|exact IH].
  intros HIn. rewrite Forall_forall in Hall. specialize (Hall k HIn). lia.
Qed.

Lemma In_get l k v : NoDup (JsMap.keys l) -> In (k, v) l -> JsMap.get k l = Some v.
Proof.
  induction l as [|[k' v'] l IH]; simpl; [tauto|].
  intros Hnd [E|HIn].
  - injection E as E1 E2. subst. now rewrite Z.eqb_refl.
  - inversion Hnd as [|? ? Hnotin Hnd']; subst.
    destruct (Z.eqb_spec k' k) as [->|Hne].
    + exfalso. apply Hnotin. change k with (fst (k, v)). now apply in_map.
    + now apply IH.
Qed.

Lemma set_fresh l k v :
  Forall (fun k' => k' < k) (JsMap.keys l) -> JsMap.set k v l = l ++ [(k, v)].
Proof.
  induction l as [|[k' v'] l IH]; simpl; [reflexivity|].
  intros Hall. inversion Hall as [|? ? Hlt Hall']; subst.
  destruct (Z.eqb_spec k' k) as [->|Hne]; [lia|].
  now rewrite IH.
Qed.

Lemma get_app_old l k k0 v :
  k0 <> k -> JsMap.get k0 (l ++ [(k, v)]) = JsMap.get k0 l.
Proof.
  intros Hne. induction l as [|[k' v'] l IH]; simpl.
  - destruct (Z.eqb_spec k k0); [congruence|reflexivity].
  - now rewrite IH.
Qed.

Lemma get_delete l k k0 :
  JsMap.get k0 (JsMap.delete k l)
  = if k0 =? k then None else JsMap.get k0 l.
Proof.
  unfold JsMap.delete. induction l as [|[k' v'] l IH]; simpl.
  - now destruct (k0 =? k).
  - destruct (Z.eqb_spec k' k) as [->|Hne]; simpl.
    + rewrite IH. destruct (Z.eqb_spec k0 k) as [E0|Hne0]; [reflexivity|].
      destruct (Z.eqb_spec k k0); [congruence|reflexivity].
    + rewrite IH. destruct (Z.eqb_spec k' k0) as [E'|Hne']; [|reflexivity].
      destruct (Z.eqb_spec k0 k); [congruence|reflexivity].
Qed.

Lemma delete_absent l k : JsMap.get k l = None -> JsMap.delete k l = l.
Proof.
  unfold JsMap.delete. induction l as [|[k' v'] l IH]; simpl; [reflexivity|].
  destruct (Z.eqb_spec k' k) as [->|Hne]; [discriminate|].
  intros H. simpl. now rewrite IH.
Qed.

Lemma delete_twice l k : JsMap.delete k (JsMap.delete k l) = JsMap.delete k l.
Proof.
  unfold JsMap.delete. induction l as [|[k' v'] l IH]; simpl; [reflexivity|].
  destruct (negb (k' =? k)) eqn:E; simpl; [|exact IH].
  now rewrite E, IH.
Qed.

Lemma keys_delete_sorted l k :
  StronglySorted Z.lt (JsMap.keys l) ->
  StronglySorted Z.lt (JsMap.keys (JsMap.delete k l)).
Proof.
  unfold JsMap.keys, JsMap.delete.
  induction l as [|[k' v'] l IH]; simpl; [constructor|].
  intros Hs. inversion Hs as [|? ? Hs' Hall]; subst.
  destruct (negb (k' =? k)); simpl; [|now apply IH].
  constructor; [now apply IH|].
  rewrite Forall_forall in *. intros x Hx. apply Hall.
  rewrite in_map_iff in *. destruct Hx as (e & He & HIn).
  exists e. split; [exact He|]. now apply filter_In in HIn.
Qed.

Lemma sorted_snoc (ks : list Z) (k : Z) :
  StronglySorted Z.lt ks -> Forall (fun x => x < k) ks ->
  StronglySorted Z.lt (ks ++ [k]).
Proof.
  induction 1 as [|x ks Hs IH Hall]; simpl; intros Hlt.
  - repeat constructor.
  - inversion Hlt as [|? ? Hx Hlt']; subst.
    constructor; [now apply IH|].
    apply Forall_app. split; [exact Hall|]. now repeat constructor.
Qed.

Lemma keys_rewrite_values g l :
  JsMap.keys (JsMap.rewrite_values g l) = JsMap.keys l.
Proof.
  unfold JsMap.keys, JsMap.rewrite_values. rewrite map_map. now apply map_ext.
Qed.

Lemma get_rewrite_values g l k :
  JsMap.get k (JsMap.rewrite_values g l) = option_map (g k) (JsMap.get k l).
Proof.
  unfold JsMap.rewrite_values. induction l as [|[k' v'] l IH]; simpl; [reflexivity|].
  destruct (Z.eqb_spec k' k) as [->|Hne]; [reflexivity|exact IH].
Qed.

Lemma update_as_rewrite (f : V -> V) l k :
  JsMap.update k f l = JsMap.rewrite_values (fun k' v => if k' =? k then f v else v) l.
Proof.
  unfold JsMap.update, JsMap.rewrite_values. apply map_ext.
  intros [k' v']. simpl. now destruct (k' =? k).
Qed.

Lemma filter_none {X} (f : X -> bool) (xs : list X) :
  (forall x, In x xs -> f x = false) -> filter f xs = [].
Proof.
  induction xs as [|x xs IH]; simpl; [reflexivity|].
  intros H. rewrite (H x (or_introl eq_refl)). apply IH.
  intros y Hy. apply H. now right.
Qed.

Lemma one_entry_per_key l k :
  NoDup (JsMap.keys l) ->
  (List.length (filter (fun e => (fst e =? k)%Z) l) <= 1)%nat.
Proof.
  induction l as [|[k' v'] l IH]; simpl; [lia|].
  intros Hnd. inversion Hnd as [|? ? Hnotin Hnd']; subst.
  destruct (Z.eqb_spec k' k) as [->|Hne]; [|now apply IH].
  simpl. rewrite filter_none; [simpl; lia|].
  intros [k1 v1] HIn. simpl.
  destruct (Z.eqb_spec k1 k) as [->|]; [|reflexivity].
  exfalso. apply Hnotin. change k with (fst (k, v1)). now apply in_map.
Qed.
End MapFacts.

(** ** The registry stays well formed *)

Lemma continues_refl (this : Meetings) : continues this this.
Proof.
  split; [lia|]. intros k m' Hget _. exists m'. now split.
Qed.

Lemma continues_trans (a b c : Meetings) :
  continues a b -> continues b c -> continues a c.
Proof.
  intros [Hab Gab] [Hbc Gbc]. split; [lia|].
  intros k m'' Hget Hlt.
  destruct (Gbc k m'' Hget) as (m' & Hget' & Hact'); [lia|].
  destruct (Gab k m' Hget' Hlt) as (m & Hget0 & Hact).
  exists m. split; [exact Hget0|]. auto.
Qed.

Lemma filter_map_length_le {X Y Y'} (p : Y -> bool) (p' : Y' -> bool)
    (h : X -> Y) (h' : X -> Y') (l : list X) :
  (forall x, In x l -> p (h x) = true -> p' (h' x) = true) ->
  (List.length (filter p (map h l)) <= List.length (filter p' (map h' l)))%nat.
Proof.
  induction l as [|x l IH]; simpl; [lia|].
  intros H.
  assert (IH' := IH (fun y Hy => H y (or_intror Hy))).
  specialize (H x (or_introl eq_refl)).
  destruct (p (h x)); simpl.
  - rewrite H by reflexivity. simpl. lia.
  - destruct (p' (h' x)); simpl; lia.
Qed.

Lemma values_rewrite_values (g : Z -> Meeting -> Meeting) (l : JsMap.t Meeting) :
  JsMap.values (JsMap.rewrite_values g l) = map (fun e => g (fst e) (snd e)) l.
Proof.
  unfold JsMap.values, JsMap.rewrite_values. now rewrite map_map.
Qed.

(** A loop that assigns to fields of the sessions keeps the registry well
    formed when it leaves the ids alone, never clears [active], and either
    only clears [prefer] or sets it under one key only. *)
Lemma rewrite_values_ok (g : Z -> Meeting -> Meeting) (this : Meetings) :
  registry_ok this ->
  (forall e, In e (meetings this) -> id (g (fst e) (snd e)) = id (snd e)) ->
  (forall e, In e (meetings this) ->
             active (snd e) = true -> active (g (fst e) (snd e)) = true) ->
  ((forall e, In e (meetings this) ->
              prefer (g (fst e) (snd e)) = true -> prefer (snd e) = true)
   \/ (exists k0, forall e, In e (meetings this) ->
                            prefer (g (fst e) (snd e)) = true -> fst e = k0)) ->
  registry_ok (with_map (JsMap.rewrite_values g) this)
  /\ continues this (with_map (JsMap.rewrite_values g) this).
Proof.
  intros [Hs Hc Hb Hi Hp] Hid Hact Hpref. split.
  - constructor; simpl.
    + now rewrite keys_rewrite_values.
    + exact Hc.
    + now rewrite keys_rewrite_values.
    + unfold JsMap.rewrite_values. rewrite Forall_map. simpl.
      rewrite Forall_forall in *. intros e He. rewrite Hid by exact He. auto.
    + unfold at_most_one_preferred, sessions in *. simpl.
      rewrite values_rewrite_values.
      destruct Hpref as [Hmono|[k0 Hone]].
      * etransitivity; [|exact Hp]. unfold JsMap.values.
        now apply filter_map_length_le.
      * etransitivity;
          [|apply (one_entry_per_key (meetings this) k0), sorted_NoDup, Hs].
        pose proof (filter_map_length_le prefer (fun e => fst e =? k0)
                      (fun e => g (fst e) (snd e)) (fun e => e)
                      (meetings this)) as Hle.
        rewrite map_id in Hle. apply Hle.
        intros e He Hpe. apply Z.eqb_eq. now apply Hone.
  - split; [simpl; lia|].
    intros k m' Hget _. unfold Meetings_get in *. simpl in Hget.
    rewrite get_rewrite_values in Hget.
    destruct (JsMap.get k (meetings this)) as [m|] eqn:E; [|discriminate].
    injection Hget as <-. exists m. split; [reflexivity|].
    apply (Hact (k, m)). now apply get_In.
Qed.

Lemma add_ok (this : Meetings) (meeting : Meeting) :
  registry_ok this -> prefer meeting = false ->
  let this' :=
    {| nextId := nextId this + 1;
       meetings := JsMap.set (nextId this)
                     (set_id meeting (Some (nextId this))) (meetings this) |} in
  registry_ok this' /\ continues this this'.
Proof.
  intros [Hs Hc Hb Hi Hp] Hpref this'.
  assert (E : meetings this'
              = meetings this ++ [(nextId this, set_id meeting (Some (nextId this)))]).
  { simpl. apply set_fresh.
    eapply Forall_impl; [|exact Hb]. simpl. intros; lia. }
  split.
  - constructor; rewrite ?E; unfold JsMap.keys; rewrite ?map_app; simpl.
    + apply sorted_snoc; [exact Hs|].
      eapply Forall_impl; [|exact Hb]. simpl. intros; lia.
    + lia.
    + apply Forall_app. split; [|repeat constructor; lia].
      eapply Forall_impl; [|exact Hb]. simpl. intros; lia.
    + apply Forall_app. split; [exact Hi|]. now repeat constructor.
    + unfold at_most_one_preferred, sessions, JsMap.values in *. rewrite E.
      rewrite map_app, filter_app. simpl. rewrite Hpref. simpl.
      now rewrite app_nil_r.
  - split; [simpl; lia|].
    intros k m' Hget Hlt. unfold Meetings_get in *. rewrite E in Hget.
    rewrite get_app_old in Hget by lia.
    exists m'. now split.
Qed.

Lemma delete_ok (this : Meetings) (k : Z) :
  registry_ok this ->
  registry_ok (with_map (JsMap.delete k) this)
  /\ continues this (with_map (JsMap.delete k) this).
Proof.
  intros [Hs Hc Hb Hi Hp]. split.
  - constructor; simpl.
    + now apply keys_delete_sorted.
    + exact Hc.
    + unfold JsMap.keys, JsMap.delete in *. rewrite Forall_forall in *.
      intros x Hx. apply Hb. rewrite in_map_iff in *.
      destruct Hx as (e & He & HIn). exists e. split; [exact He|].
      now apply filter_In in HIn.
    + unfold JsMap.delete. rewrite Forall_forall in *.
      intros e He. apply Hi. now apply filter_In in He.
    + unfold at_most_one_preferred, sessions, JsMap.values, JsMap.delete in *.
      simpl. etransitivity; [|exact Hp].
      clear. induction (meetings this) as [|[k' m] l IH]; simpl; [lia|].
      destruct (negb (k' =? k)); simpl; destruct (prefer m); simpl; lia.
  - split; [simpl; lia|].
    intros k0 m' Hget _. unfold Meetings_get in *. simpl in Hget.
    rewrite get_delete in Hget. destruct (k0 =? k); [discriminate|].
    exists m'. now split.
Qed.

Lemma Meetings_new_ok : registry_ok Meetings_new.
Proof.
  constructor; simpl; try constructor; try lia.
  unfold at_most_one_preferred. simpl. lia.
Qed.

(** ** Handlers that only read, handlers that keep the registry well formed *)

Lemma world_after_bind {A B} (c : M A) (k : A -> M B) (w : World) :
  world_after (bind c k) w
  = match c w with
    | (Returned a, w1, _) => world_after (k a) w1
    | (Threw, w1, _) => w1
    end.
Proof.
  unfold world_after, bind. destruct (c w) as [[[a|] w1] e1]; [|reflexivity].
  now destruct (k a w1) as [[r w2] e2].
Qed.

Lemma unchanged_ret {A} (a : A) : unchanged (ret a).
Proof. intros w. reflexivity. Qed.

Lemma unchanged_throw {A} : unchanged (@throw A).
Proof. intros w. reflexivity. Qed.

Lemma unchanged_emit (e : Effect) : unchanged (emit e).
Proof. intros w. reflexivity. Qed.

Lemma unchanged_gets {A} (f : World -> A) : unchanged (gets f).
Proof. intros w. reflexivity. Qed.

Lemma unchanged_bind {A B} (c : M A) (k : A -> M B) :
  unchanged c -> (forall a, unchanged (k a)) -> unchanged (bind c k).
Proof.
  intros Hc Hk w. rewrite world_after_bind.
  specialize (Hc w). unfold world_after in Hc.
  destruct (c w) as [[[a|] w1] e1]; simpl in Hc; subst; [apply Hk|reflexivity].
Qed.

Lemma unchanged_when_defined {A} (v : option A) (f : A -> M unit) :
  (forall a, unchanged (f a)) -> unchanged (when_defined v f).
Proof.
  intros Hf. destruct v; [apply Hf|apply unchanged_ret].
Qed.

Lemma unchanged_forEach {X S} (body : S -> X -> M S) (l : list X) (s : S) :
  (forall s x, unchanged (body s x)) -> unchanged (forEach body l s).
Proof.
  intros Hb. revert s. induction l as [|x l IH]; intros s; simpl.
  - apply unchanged_ret.
  - apply unchanged_bind; [apply Hb|exact IH].
Qed.

Create HintDb handlers.

(** Splits a handler along its binds and branches. *)
Ltac read_only :=
  repeat first
    [ assumption
    | solve [auto 1 with handlers nocore]
    | apply unchanged_ret | apply unchanged_throw | apply unchanged_emit
    | apply unchanged_gets
    | apply unchanged_bind; [|intros ?]
    | apply unchanged_when_defined; intros ?
    | apply unchanged_forEach; intros ? ?
    | match goal with
      | |- unchanged (if ?b then _ else _) => destruct b
      | |- unchanged (match ?x with _ => _ end) => destruct x
      end ].

Lemma Meeting_send_unchanged this command data :
  unchanged (Meeting_send this command data).
Proof. apply unchanged_emit. Qed.
#[local] Hint Resolve Meeting_send_unchanged : handlers.

Lemma Meeting_focus_unchanged this : unchanged (Meeting_focus this).
Proof. unfold Meeting_focus. read_only. Qed.
#[local] Hint Resolve Meeting_focus_unchanged : handlers.

Lemma Meeting_autofocus_unchanged this : unchanged (Meeting_autofocus this).
Proof. unfold Meeting_autofocus, Meeting_focus. read_only. Qed.
#[local] Hint Resolve Meeting_autofocus_unchanged : handlers.

Lemma Badge_update_unchanged : unchanged Badge_update.
Proof.
  unfold Badge_update, onInternalPageMessage_list, Badge_popupAction, Badge_set.
  read_only.
Qed.
#[local] Hint Resolve Badge_update_unchanged : handlers.

Lemma find_loop_unchanged t wi l r : unchanged (find_loop t wi l r).
Proof.
  revert r. induction l as [|[k m] l IH]; intros r; simpl.
  - apply unchanged_ret.
  - destruct (sender_tab (port m)); [apply IH|apply unchanged_throw].
Qed.
#[local] Hint Resolve find_loop_unchanged : handlers.

Lemma processMeetings_unchanged {S} (callback : S -> Meeting -> M S) (s : S) :
  (forall s m, unchanged (callback s m)) ->
  unchanged (Meetings_processMeetings_ callback s).
Proof.
  intros Hcb. unfold Meetings_processMeetings_, processMeetings_body.
  read_only; auto.
Qed.

Lemma Meetings_toggle_unchanged data : unchanged (Meetings_toggle data).
Proof.
  apply processMeetings_unchanged. intros. apply Meeting_send_unchanged.
Qed.
#[local] Hint Resolve Meetings_toggle_unchanged : handlers.

Lemma Meetings_mute_unchanged data : unchanged (Meetings_mute data).
Proof.
  apply processMeetings_unchanged. intros. apply Meeting_send_unchanged.
Qed.
#[local] Hint Resolve Meetings_mute_unchanged : handlers.

Lemma Meetings_unmute_unchanged data : unchanged (Meetings_unmute data).
Proof.
  apply processMeetings_unchanged. intros. apply Meeting_send_unchanged.
Qed.
#[local] Hint Resolve Meetings_unmute_unchanged : handlers.

Lemma Meetings_focus_unchanged : unchanged Meetings_focus.
Proof.
  unfold Meetings_focus. apply unchanged_bind; [|intros; apply unchanged_ret].
  apply processMeetings_unchanged. intros s m. unfold focus_callback.
  read_only.
Qed.
#[local] Hint Resolve Meetings_focus_unchanged : handlers.

Lemma unchanged_safe {A} (c : M A) (w : World) : unchanged c -> safe_at c w.
Proof.
  intros Hc Hok. rewrite (Hc w). split; [exact Hok|apply continues_refl].
Qed.

Lemma safe_bind {A B} (c : M A) (k : A -> M B) (w : World) :
  safe_at c w ->
  (forall a w1 e1, c w = (Returned a, w1, e1) -> ok w1 -> safe_at (k a) w1) ->
  safe_at (bind c k) w.
Proof.
  intros Hc Hk Hok. destruct (Hc Hok) as [Hok1 Hcont1].
  rewrite world_after_bind. unfold world_after in Hok1, Hcont1.
  destruct (c w) as [[[a|] w1] e1] eqn:E; simpl in *.
  - destruct (Hk a w1 e1 eq_refl Hok1 Hok1) as [Hok2 Hcont2].
    split; [exact Hok2|]. eapply continues_trans; eassumption.
  - now split.
Qed.

Lemma safe_then {A B} (c : M A) (k : A -> M B) (w : World) :
  safe_at c w -> (forall a w1, safe_at (k a) w1) -> safe_at (bind c k) w.
Proof.
  intros Hc Hk. apply safe_bind; [exact Hc|]. intros. apply Hk.
Qed.

Lemma safe_gets_bind {A B} (f : World -> A) (k : A -> M B) (w : World) :
  safe_at (k (f w)) w -> safe_at (bind (gets f) k) w.
Proof.
  intros H Hok. unfold world_after in *. rewrite bind_gets. now apply H.
Qed.

Lemma safe_modify_meetings (f : Meetings -> Meetings) (w : World) :
  (registry_ok (g_meetings w) ->
   registry_ok (f (g_meetings w)) /\ continues (g_meetings w) (f (g_meetings w))) ->
  safe_at (modify (with_meetings f)) w.
Proof.
  intros H Hok. exact (H Hok).
Qed.

Lemma safe_modify_globals (f : World -> World) (w : World) :
  g_meetings (f w) = g_meetings w -> safe_at (modify f) w.
Proof.
  intros E Hok. unfold world_after, modify, ok. simpl. rewrite E.
  split; [exact Hok|apply continues_refl].
Qed.

Lemma safe_forEach {X S} (body : S -> X -> M S) (l : list X) (s : S) (w : World) :
  (forall s x w', safe_at (body s x) w') -> safe_at (forEach body l s) w.
Proof.
  intros Hb. revert s w. induction l as [|x l IH]; intros s w; simpl.
  - apply unchanged_safe, unchanged_ret.
  - apply safe_then; [apply Hb|]. intros. apply IH.
Qed.

Lemma Meetings_add_safe (meeting : Meeting) (w : World) :
  prefer meeting = false -> safe_at (Meetings_add meeting) w.
Proof.
  intros Hp. unfold Meetings_add. apply safe_gets_bind.
  apply safe_then.
  - apply safe_modify_meetings. intros Hok. now apply add_ok.
  - intros _ w1. apply unchanged_safe.
    apply unchanged_bind; [apply Badge_update_unchanged|].
    intros. apply unchanged_ret.
Qed.

Lemma Meetings_remove_safe (meeting : Meeting) (w : World) :
  safe_at (Meetings_remove meeting) w.
Proof.
  unfold Meetings_remove. apply safe_then.
  - apply safe_modify_meetings. intros Hok.
    destruct (id meeting) as [k|].
    + now apply delete_ok.
    + destruct (g_meetings w). split; [exact Hok|apply continues_refl].
  - intros. apply unchanged_safe, Badge_update_unchanged.
Qed.

Lemma setDefault_body_id id_ value meeting :
  id (setDefault_body id_ value meeting) = id meeting.
Proof.
  unfold setDefault_body.
  destruct (id_strict_eqb _ _); [reflexivity|].
  now destruct (value && prefer meeting).
Qed.

Lemma setDefault_body_active id_ value meeting :
  active (setDefault_body id_ value meeting) = active meeting.
Proof.
  unfold setDefault_body.
  destruct (id_strict_eqb _ _); [reflexivity|].
  now destruct (value && prefer meeting).
Qed.

Lemma setDefault_body_prefer id_ value meeting :
  prefer (setDefault_body id_ value meeting)
  = if id_strict_eqb (id meeting) id_ then value
    else prefer meeting && negb value.
Proof.
  unfold setDefault_body.
  destruct (id_strict_eqb _ _); [reflexivity|].
  destruct value, (prefer meeting) eqn:E; simpl; congruence.
Qed.

Lemma Meetings_setDefault_safe id_ value (w : World) :
  safe_at (Meetings_setDefault id_ value) w.
Proof.
  unfold Meetings_setDefault. apply safe_then.
  - apply safe_modify_meetings. intros Hok.
    set (v := match value with Some v => v | None => true end).
    apply (rewrite_values_ok (fun _ m => setDefault_body id_ v m)); [exact Hok|..].
    + intros e _. apply setDefault_body_id.
    + intros e _. now rewrite setDefault_body_active.
    + destruct v.
      * right. exists (match id_ with Some k0 => k0 | None => 0 end).
        intros e He. rewrite setDefault_body_prefer.
        pose proof (ok_id _ Hok) as Hi. rewrite Forall_forall in Hi.
        rewrite (Hi e He). destruct id_ as [k0|]; simpl.
        -- destruct (Z.eqb_spec (fst e) k0); [auto|].
           rewrite andb_false_r. discriminate.
        -- rewrite andb_false_r. discriminate.
      * left. intros e He. rewrite setDefault_body_prefer.
        destruct (id_strict_eqb _ _); [discriminate|].
        now rewrite andb_true_r.
  - intros. apply unchanged_safe, Badge_update_unchanged.
Qed.

Lemma held_id (w : World) (k : Z) (this : Meeting) :
  ok w -> Meetings_get (g_meetings w) k = Some this -> id this = Some k.
Proof.
  intros Hok Hget. pose proof (ok_id _ Hok) as Hi.
  rewrite Forall_forall in Hi. exact (Hi (k, this) (get_In _ _ _ Hget)).
Qed.

(** A write to a session the registry holds: it must leave the id alone,
    not set [prefer], and not clear [active]. *)
Lemma store_safe (this' old : Meeting) (k : Z) (w : World) :
  Meetings_get (g_meetings w) k = Some old ->
  id this' = id old ->
  (prefer this' = true -> prefer old = true) ->
  (active old = true -> active this' = true) ->
  safe_at (store this') w.
Proof.
  intros Hget Hid Hp Ha Hok.
  pose proof (held_id w k old Hok Hget) as Hk.
  unfold store. rewrite Hid, Hk.
  apply safe_modify_meetings; [|exact Hok]. intros _.
  assert (Hin : forall e, In e (meetings (g_meetings w)) -> fst e = k -> snd e = old).
  { intros [k' m] He E. simpl in *. subst k'.
    apply In_get in He; [|apply sorted_NoDup, (ok_sorted _ Hok)].
    unfold Meetings_get in Hget. congruence. }
  replace (with_map (JsMap.update k (fun _ => this')) (g_meetings w))
    with (with_map (JsMap.rewrite_values
                      (fun k' v => if k' =? k then this' else v)) (g_meetings w))
    by (unfold with_map; now rewrite update_as_rewrite).
  apply rewrite_values_ok; [exact Hok|..].
  - intros e He. destruct (Z.eqb_spec (fst e) k) as [E|]; [|reflexivity].
    now rewrite (Hin e He E).
  - intros e He. destruct (Z.eqb_spec (fst e) k) as [E|]; [|auto].
    now rewrite (Hin e He E).
  - left. intros e He. destruct (Z.eqb_spec (fst e) k) as [E|]; [|auto].
    now rewrite (Hin e He E).
Qed.

Lemma Meeting_message_joined_safe (this : Meeting) (k : Z) (w : World) :
  Meetings_get (g_meetings w) k = Some this ->
  safe_at (Meeting_message_joined this) w.
Proof.
  intros Hget. unfold Meeting_message_joined. apply safe_then.
  - now apply (store_safe _ this k).
  - intros. apply unchanged_safe, Badge_update_unchanged.
Qed.

Lemma Meeting_message_update_safe (this : Meeting) message (k : Z) (w : World) :
  Meetings_get (g_meetings w) k = Some this ->
  safe_at (Meeting_message_update this message) w.
Proof.
  intros Hget. unfold Meeting_message_update. apply safe_then.
  - now apply (store_safe _ this k).
  - intros _ w1. apply unchanged_safe. read_only.
Qed.

Lemma Meeting_recv_safe (this : Meeting) message (k : Z) (w : World) :
  Meetings_get (g_meetings w) k = Some this ->
  safe_at (Meeting_recv this message) w.
Proof.
  intros Hget. unfold Meeting_recv.
  destruct (String.eqb _ "log"); [apply unchanged_safe, unchanged_emit|].
  destruct (String.eqb _ "joined"); [now apply (Meeting_message_joined_safe _ k)|].
  destruct (String.eqb _ "update"); [now apply (Meeting_message_update_safe _ _ k)|].
  apply unchanged_safe, unchanged_emit.
Qed.

Lemma on_meeting_safe (k : Z) (method : Meeting -> M unit) (w : World) :
  (forall this, Meetings_get (g_meetings w) k = Some this -> safe_at (method this) w) ->
  safe_at (on_meeting k method) w.
Proof.
  intros H. unfold on_meeting. apply safe_gets_bind.
  destruct (Meetings_get (g_meetings w) k) as [this|] eqn:E; simpl.
  - now apply H.
  - apply unchanged_safe, unchanged_ret.
Qed.

Lemma onInternalPageMessage_safe port_ message (w : World) :
  safe_at (onInternalPageMessage port_ message) w.
Proof.
  unfold onInternalPageMessage.
  destruct (String.eqb _ "list");
    [apply unchanged_safe; unfold onInternalPageMessage_list; read_only|].
  destruct (String.eqb _ "default"); [apply Meetings_setDefault_safe|].
  apply unchanged_safe. unfold Meeting_toggle. read_only.
Qed.

Lemma onConnect_safe port_ (w : World) : safe_at (onConnect port_) w.
Proof.
  unfold onConnect.
  destruct (String.eqb _ "control").
  - apply safe_then.
    + apply unchanged_safe. read_only.
    + intros. now apply safe_modify_globals.
  - destruct (String.eqb _ "options"); [apply unchanged_safe, unchanged_ret|].
    apply safe_then.
    + now apply Meetings_add_safe.
    + intros. apply unchanged_safe, Badge_update_unchanged.
Qed.

Lemma onActionClicked_unchanged tab : unchanged (onActionClicked tab).
Proof.
  unfold onActionClicked, Meetings_find, one_or_all, Meeting_toggle, Meeting_mute.
  read_only.
Qed.

Lemma onCommand_unchanged command : unchanged (onCommand command).
Proof.
  unfold onCommand. read_only.
Qed.

Lemma onStorageChanged_safe changes (w : World) :
  safe_at (onStorageChanged changes) w.
Proof.
  unfold onStorageChanged. apply safe_then.
  - apply safe_forEach. intros [] [key v] w'. unfold onStorageChanged_body. simpl.
    destruct (String.eqb key "debug"); [apply unchanged_safe; read_only|].
    destruct (String.eqb key "autofocus"); [now apply safe_modify_globals|].
    destruct (String.eqb key "action-behavior"); [now apply safe_modify_globals|].
    apply unchanged_safe, unchanged_ret.
  - intros. apply unchanged_safe, Badge_update_unchanged.
Qed.

Lemma default_In (this : Meetings) (meeting : Meeting) :
  Meetings_default this = Some meeting ->
  exists k, In (k, meeting) (meetings this).
Proof.
  unfold Meetings_default.
  assert (G : forall (l : list (Z * Meeting)) acc,
             fold_left (fun ret entry =>
                          if prefer (snd entry) then Some (snd entry) else ret) l acc
             = Some meeting ->
             acc = Some meeting \/ exists k, In (k, meeting) l).
  { induction l as [|[k m] l IH]; simpl; intros acc H; [now left|].
    destruct (IH _ H) as [E|(k0 & HIn)].
    - destruct (prefer m); [|now left].
      injection E as <-. right. exists k. now left.
    - right. exists k0. now right. }
  intros H. destruct (G _ _ H) as [E|E]; [discriminate|exact E].
Qed.

Lemma onContextMenu_safe runtime_id menuItemId (w : World) :
  safe_at (onContextMenu runtime_id menuItemId) w.
Proof.
  unfold onContextMenu.
  destruct (String.eqb _ "focus"); [apply unchanged_safe, Meetings_focus_unchanged|].
  destruct (String.eqb _ "clear-default").
  - apply safe_gets_bind.
    destruct (Meetings_default (g_meetings w)) as [m|] eqn:E; simpl;
      [|apply unchanged_safe, unchanged_ret].
    intros Hok. revert Hok. apply safe_then.
    + intros Hok. destruct (default_In _ _ E) as (k & HIn).
      apply In_get in HIn; [|apply sorted_NoDup, (ok_sorted _ Hok)].
      now apply (store_safe _ m k).
    + intros. apply unchanged_safe, Badge_update_unchanged.
  - apply unchanged_safe. read_only.
Qed.

Lemma handle_safe (ev : Event) (w : World) : safe_at (handle ev) w.
Proof.
  destruct ev; simpl.
  - apply onConnect_safe.
  - apply on_meeting_safe. intros. apply Meetings_remove_safe.
  - apply on_meeting_safe. intros this Hget. now apply (Meeting_recv_safe _ _ k).
  - apply onInternalPageMessage_safe.
  - now apply safe_modify_globals.
  - apply unchanged_safe, onActionClicked_unchanged.
  - apply unchanged_safe, onCommand_unchanged.
  - apply onStorageChanged_safe.
  - apply onContextMenu_safe.
Qed.

Lemma step_world (w : World) (ev : Event) :
  fst (step w ev) = world_after (handle ev) w.
Proof.
  unfold step, world_after. now destruct (handle ev w) as [[[a|] w1] e1].
Qed.

Lemma run_safe (evs : list Event) (w : World) :
  ok w -> ok (run evs w) /\ continues (g_meetings w) (g_meetings (run evs w)).
Proof.
  revert w. induction evs as [|ev evs IH]; intros w Hok; simpl.
  - split; [exact Hok|apply continues_refl].
  - rewrite step_world.
    destruct (handle_safe ev w Hok) as [Hok1 Hc1].
    destruct (IH _ Hok1) as [Hok2 Hc2].
    split; [exact Hok2|]. eapply continues_trans; eassumption.
Qed.

Lemma initial_world_ok (a b : JsValue) : ok (initial_world a b).
Proof. exact Meetings_new_ok. Qed.

(** Every state the coordinator reaches has a well-formed registry. *)
Lemma reachable_ok (evs : list Event) (a b : JsValue) :
  registry_ok (g_meetings (run evs (initial_world a b))).
Proof.
  exact (proj1 (run_safe evs _ (initial_world_ok a b))).
Qed.

(** ** What the registry operations leave behind *)

Lemma not_display_not_icon (e : list Effect) :
  Forall (fun x => is_display x = false) e -> recomputations e = 0%nat.
Proof.
  unfold recomputations. induction 1 as [|x e Hx _ IH]; [reflexivity|].
  simpl. destruct x; simpl in *; try discriminate; exact IH.
Qed.

Lemma recomputations_app (e1 e2 : list Effect) :
  recomputations (e1 ++ e2) = (recomputations e1 + recomputations e2)%nat.
Proof.
  unfold recomputations. now rewrite filter_app, length_app.
Qed.

(** [Badge.update] returns, changes no global, and sets the icon once. *)
Lemma Badge_update_runs (w : World) :
  exists e, Badge_update w = (Returned tt, w, e) /\ recomputations e = 1%nat.
Proof.
  destruct (popup_refresh_returns (popup (g_badge w)) w) as (e0 & E0 & F0).
  destruct (popupAction_returns w) as (target & e1 & E1 & F1).
  apply not_display_not_icon in F0, F1.
  unfold Badge_update.
  rewrite bind_gets, (bind_returned _ _ _ _ _ _ E0), bind_gets.
  destruct (Meetings_state (g_meetings w)).
  - eexists. split; [reflexivity|].
    simpl. rewrite recomputations_app, F0. reflexivity.
  - rewrite (bind_returned _ _ _ _ _ _ E1). eexists. split; [reflexivity|].
    simpl. rewrite !recomputations_app, F0, F1. reflexivity.
  - rewrite (bind_returned _ _ _ _ _ _ E1). eexists. split; [reflexivity|].
    simpl. rewrite !recomputations_app, F0, F1. reflexivity.
Qed.

Lemma bind_modify {B} (f : World -> World) (k : unit -> M B) (w : World) :
  bind (modify f) k w = k tt (f w).
Proof.
  unfold bind, modify. now destruct (k tt (f w)) as [[r w2] e2].
Qed.

(** A registry write followed by [badge.update()]. *)
Lemma modify_then_update (f : World -> World) (w : World) :
  exists e,
    bind (modify f) (fun _ => Badge_update) w = (Returned tt, f w, e)
    /\ recomputations e = 1%nat.
Proof.
  rewrite bind_modify. apply Badge_update_runs.
Qed.

Lemma with_map_same (this : Meetings) : with_map (fun m => m) this = this.
Proof. now destruct this. Qed.

Lemma with_map_ext (f g : JsMap.t Meeting -> JsMap.t Meeting) (this : Meetings) :
  f (meetings this) = g (meetings this) -> with_map f this = with_map g this.
Proof. unfold with_map. now intros ->. Qed.

Lemma Meetings_remove_runs (meeting : Meeting) (w : World) :
  exists e,
    Meetings_remove meeting w
    = (Returned tt,
       with_meetings (with_map (fun m => match id meeting with
                                         | Some k => JsMap.delete k m
                                         | None => m
                                         end)) w, e)
    /\ recomputations e = 1%nat.
Proof. apply modify_then_update. Qed.

Lemma Meetings_setDefault_runs (id_ : option Z) (value : option bool) (w : World) :
  exists e,
    Meetings_setDefault id_ value w
    = (Returned tt,
       with_meetings (with_map (JsMap.rewrite_values (fun _ m =>
         setDefault_body id_ (match value with Some v => v | None => true end) m))) w,
       e)
    /\ recomputations e = 1%nat.
Proof. apply modify_then_update. Qed.

Lemma Meetings_add_runs (meeting : Meeting) (w : World) :
  exists e,
    Meetings_add meeting w
    = (Returned (set_id meeting (Some (nextId (g_meetings w)))),
       with_meetings (fun this =>
         {| nextId := nextId this + 1;
            meetings := JsMap.set (nextId this)
                          (set_id meeting (Some (nextId (g_meetings w))))
                          (meetings this) |}) w, e)
    /\ recomputations e = 1%nat.
Proof.
  unfold Meetings_add. rewrite bind_gets, bind_modify.
  match goal with |- context [Badge_update] =>
    match goal with |- exists e, bind _ _ ?w' = _ /\ _ =>
      destruct (Badge_update_runs w') as (e & E & R) end end.
  exists e. split; [|exact R].
  rewrite (bind_returned _ _ _ _ _ _ E). simpl. now rewrite app_nil_r.
Qed.

(** ** Removing a session *)

Lemma remove_absent_registry (this : Meetings) (meeting : Meeting) :
  held this meeting = false ->
  with_map (fun m => match id meeting with
                     | Some k => JsMap.delete k m
                     | None => m
                     end) this = this.
Proof.
  unfold held. intros H. rewrite <- (with_map_same this) at 2.
  apply with_map_ext. destruct (id meeting) as [k|]; [|reflexivity].
  apply delete_absent. unfold JsMap.has in H.
  now destruct (JsMap.get k (meetings this)).
Qed.

Lemma with_meetings_ext (f : Meetings -> Meetings) (w : World) :
  f (g_meetings w) = g_meetings w -> with_meetings f w = w.
Proof.
  intros E. unfold with_meetings. rewrite E. now destruct w.
Qed.

Lemma with_meetings_cong (f g : Meetings -> Meetings) (w : World) :
  f (g_meetings w) = g (g_meetings w) -> with_meetings f w = with_meetings g w.
Proof.
  intros E. unfold with_meetings. now rewrite E.
Qed.

(** C7.  [remove] never throws.  Removing a session whose id the registry
    does not hold leaves every global as it was, so the size and every
    session are unchanged; and removing the same session twice leaves the
    globals exactly as removing it once does. *)
Theorem remove_idempotent (meeting : Meeting) (w : World) :
  outcome_of (Meetings_remove meeting) w = Returned tt
  /\ (held (g_meetings w) meeting = false ->
      world_after (Meetings_remove meeting) w = w
      /\ Meetings_size (g_meetings (world_after (Meetings_remove meeting) w))
         = Meetings_size (g_meetings w))
  /\ outcome_of (Meetings_remove meeting ;; Meetings_remove meeting) w = Returned tt
  /\ world_after (Meetings_remove meeting ;; Meetings_remove meeting) w
     = world_after (Meetings_remove meeting) w.
Proof.
  destruct (Meetings_remove_runs meeting w) as (e1 & E1 & _).
  set (w1 := with_meetings _ w) in E1.
  destruct (Meetings_remove_runs meeting w1) as (e2 & E2 & _).
  assert (Hsame : with_meetings
                    (with_map (fun m => match id meeting with
                                        | Some k => JsMap.delete k m
                                        | None => m
                                        end)) w1 = w1).
  { apply with_meetings_ext. unfold w1. simpl.
    destruct (g_meetings w) as [n l]. unfold with_map. simpl. f_equal.
    destruct (id meeting); [apply delete_twice|reflexivity]. }
  rewrite Hsame in E2.
  assert (E12 : bind (Meetings_remove meeting) (fun _ => Meetings_remove meeting) w
                = (Returned tt, w1, e1 ++ e2)).
  { rewrite (bind_returned _ _ _ _ _ _ E1). now rewrite E2. }
  unfold outcome_of, world_after. rewrite E12, E1. simpl.
  split; [reflexivity|]. split; [|now split].
  intros Habs.
  assert (Hw : w1 = w).
  { unfold w1. apply with_meetings_ext. now apply remove_absent_registry. }
  split; [exact Hw|]. now rewrite remove_absent_registry.
Qed.

(** C7 on a registry of two sessions: removing a meeting that was never
    bound, and removing the first session twice. *)
Lemma remove_idempotent_witness :
  world_after (Meetings_remove (Meeting_new (meeting_page 7))) two_waiting
  = two_waiting
  /\ Meetings_size
       (g_meetings
          (world_after (Meetings_remove (Meeting_new (meeting_page 7))) two_waiting))
     = 2%nat.
Proof.
  exact (proj1 (proj2 (remove_idempotent (Meeting_new (meeting_page 7)) two_waiting))
           eq_refl).
Defined.

(** ** Marking a session that is not there *)

Lemma rewrite_values_ext_in (g h : Z -> Meeting -> Meeting) (l : JsMap.t Meeting) :
  (forall e, In e l -> g (fst e) (snd e) = h (fst e) (snd e)) ->
  JsMap.rewrite_values g l = JsMap.rewrite_values h l.
Proof.
  intros H. unfold JsMap.rewrite_values. apply map_ext_in.
  intros e He. now rewrite H.
Qed.

Lemma rewrite_values_same (l : JsMap.t Meeting) :
  JsMap.rewrite_values (fun _ m => m) l = l.
Proof.
  unfold JsMap.rewrite_values. rewrite <- (map_id l) at 2.
  apply map_ext. now intros [k m].
Qed.

Lemma set_prefer_same (meeting : Meeting) :
  set_prefer meeting (prefer meeting) = meeting.
Proof. now destruct meeting. Qed.

Lemma absent_id_matches_nothing (this : Meetings) (id_ : option Z) :
  registry_ok this ->
  get_by_message_id this id_ = None ->
  forall e, In e (meetings this) -> id_strict_eqb (id (snd e)) id_ = false.
Proof.
  intros Hok Habs e He.
  pose proof (ok_id _ Hok) as Hi. rewrite Forall_forall in Hi.
  rewrite (Hi e He). destruct id_ as [k|]; [|reflexivity]. simpl.
  destruct (Z.eqb_spec (fst e) k) as [E|]; [|reflexivity].
  exfalso. apply (get_None_keys _ _ Habs).
  rewrite <- E. now apply in_map.
Qed.

(** C2, as the code has it.  For an id the registry does not hold,
    [setDefault] never throws; with value false it leaves every global as it
    was; with value true, or with the value left out, it clears [prefer] on
    every session and changes nothing else. *)
Theorem setDefault_absent_id (w : World) (id_ : option Z) :
  registry_ok (g_meetings w) ->
  get_by_message_id (g_meetings w) id_ = None ->
  (forall value, outcome_of (Meetings_setDefault id_ value) w = Returned tt)
  /\ world_after (Meetings_setDefault id_ (Some false)) w = w
  /\ (forall value, value = Some true \/ value = None ->
      world_after (Meetings_setDefault id_ value) w
      = with_meetings
          (with_map (JsMap.rewrite_values (fun _ m => set_prefer m false))) w).
Proof.
  intros Hok Habs.
  pose proof (absent_id_matches_nothing _ _ Hok Habs) as Hno.
  split; [|split].
  - intros value. destruct (Meetings_setDefault_runs id_ value w) as (t & E & _).
    unfold outcome_of. now rewrite E.
  - destruct (Meetings_setDefault_runs id_ (Some false) w) as (t & E & _).
    unfold world_after. rewrite E. simpl.
    apply with_meetings_ext. rewrite <- (with_map_same (g_meetings w)) at 2.
    apply with_map_ext.
    rewrite <- (rewrite_values_same (meetings (g_meetings w))) at 2.
    apply rewrite_values_ext_in. intros e He.
    unfold setDefault_body. now rewrite (Hno e He).
  - intros value Hv.
    destruct (Meetings_setDefault_runs id_ value w) as (t & E & _).
    unfold world_after. rewrite E. simpl.
    apply with_meetings_cong, with_map_ext.
    apply rewrite_values_ext_in. intros e He.
    unfold setDefault_body. rewrite (Hno e He).
    replace (match value with Some v => v | None => true end) with true
      by (destruct Hv; now subst).
    simpl. destruct (prefer (snd e)) eqn:Ep; [reflexivity|].
    now rewrite <- Ep, set_prefer_same.
Qed.

(** C2 as stated fails: session 0 of three is preferred, no session has id
    7, and marking 7 as preferred takes the mark from session 0. *)
Lemma setDefault_absent_id_clears :
  map prefer (sessions (g_meetings three_one_preferred)) = [true; false; false]
  /\ Meetings_get (g_meetings three_one_preferred) 7 = None
  /\ map prefer
       (sessions
          (g_meetings
             (world_after (Meetings_setDefault (Some 7) (Some true))
                three_one_preferred)))
     = [false; false; false].
Proof. repeat split. Qed.

(** The amended C2 on the same registry. *)
Lemma setDefault_absent_id_witness :
  world_after (Meetings_setDefault (Some 7) (Some false)) three_one_preferred
  = three_one_preferred
  /\ world_after (Meetings_setDefault (Some 7) (Some true)) three_one_preferred
     = with_meetings
         (with_map (JsMap.rewrite_values (fun _ m => set_prefer m false)))
         three_one_preferred.
Proof.
  destruct (setDefault_absent_id three_one_preferred (Some 7)) as (_ & H1 & H2).
  - apply reachable_ok.
  - reflexivity.
  - split; [exact H1|]. apply H2. now left.
Defined.

(** ** Debounced updates *)

Lemma strict_eqb_refl (v : option bool) : strict_eqb v v = true.
Proof. now destruct v as [[|]|]. Qed.

Lemma after_update_settled (this : Meeting) (message : PeerMessage) :
  mute_state_differs (after_update this message) message = false.
Proof.
  unfold mute_state_differs, after_update. simpl.
  now rewrite !strict_eqb_refl.
Qed.

Lemma get_update (l : JsMap.t Meeting) (k : Z) (f : Meeting -> Meeting) (m : Meeting) :
  JsMap.get k l = Some m -> JsMap.get k (JsMap.update k f l) = Some (f m).
Proof.
  intros H. rewrite update_as_rewrite, get_rewrite_values, H. simpl.
  now rewrite Z.eqb_refl.
Qed.

Lemma Meeting_message_update_runs (this : Meeting) (message : PeerMessage) (w : World) :
  exists e,
    Meeting_message_update this message w
    = (Returned tt, world_after (store (after_update this message)) w, e)
    /\ recomputations e = (if mute_state_differs this message then 1 else 0)%nat.
Proof.
  unfold Meeting_message_update. fold (after_update this message).
  change (negb (strict_eqb (audioMuted (set_title this (new_title this (pm_title message))))
                  (pm_audioMuted message))
          || negb (strict_eqb (videoMuted (set_title this (new_title this (pm_title message))))
                     (pm_videoMuted message)))
    with (mute_state_differs this message).
  assert (Es : store (after_update this message) w
               = (Returned tt, world_after (store (after_update this message)) w, [])).
  { unfold store, world_after. now destruct (id (after_update this message)). }
  rewrite (bind_returned _ _ _ _ _ _ Es).
  destruct (mute_state_differs this message).
  - destruct (Badge_update_runs (world_after (store (after_update this message)) w))
      as (e & E & R).
    exists e. rewrite E. now split.
  - exists []. now split.
Qed.

Lemma step_update (this : Meeting) (message : PeerMessage) (k : Z) (w : World) :
  ok w ->
  Meetings_get (g_meetings w) k = Some this ->
  pm_command message = "update"%string ->
  exists e,
    step w (EvPortMessage k message)
    = (with_meetings (with_map (JsMap.update k (fun _ => after_update this message))) w, e)
    /\ recomputations e = (if mute_state_differs this message then 1 else 0)%nat.
Proof.
  intros Hok Hget Hcmd.
  destruct (Meeting_message_update_runs this message w) as (e & E & R).
  exists e. split; [|exact R].
  unfold step, handle, on_meeting. rewrite bind_gets, Hget. simpl.
  unfold Meeting_recv. rewrite Hcmd. simpl. rewrite E.
  unfold world_after, store.
  replace (id (after_update this message)) with (Some k)
    by (symmetry; apply (held_id w k this Hok Hget)).
  reflexivity.
Qed.

(** C6, as the code has it.  An [update] recomputes the display exactly when
    its audioMuted or videoMuted differs from what the session has stored.
    An update that changes only the title recomputes nothing.  Of two
    identical updates in a row the second never recomputes, so the pair
    recomputes once when the first differs from the stored values and not
    at all when it does not. *)
Theorem update_debounce (this : Meeting) (message : PeerMessage) (w : World) :
  recomputations (effects_of (Meeting_message_update this message) w)
  = (if mute_state_differs this message then 1 else 0)%nat
  /\ (forall t,
        recomputations
          (effects_of
             (Meeting_message_update this
                (title_message t (audioMuted this) (videoMuted this))) w)
        = 0%nat)
  /\ (forall k,
        ok w ->
        Meetings_get (g_meetings w) k = Some this ->
        pm_command message = "update"%string ->
        let first := step w (EvPortMessage k message) in
        let second := step (fst first) (EvPortMessage k message) in
        recomputations (snd first)
        = (if mute_state_differs this message then 1 else 0)%nat
        /\ recomputations (snd second) = 0%nat
        /\ recomputations
             (trace [EvPortMessage k message; EvPortMessage k message] w)
           = (if mute_state_differs this message then 1 else 0)%nat).
Proof.
  split; [|split].
  - destruct (Meeting_message_update_runs this message w) as (e & E & R).
    unfold effects_of. now rewrite E.
  - intros t.
    destruct (Meeting_message_update_runs this
                (title_message t (audioMuted this) (videoMuted this)) w)
      as (e & E & R).
    unfold effects_of. rewrite E. simpl. rewrite R.
    unfold mute_state_differs. simpl. now rewrite !strict_eqb_refl.
  - intros k Hok Hget Hcmd first second.
    destruct (step_update this message k w Hok Hget Hcmd) as (e1 & E1 & R1).
    assert (Hok1 : ok (fst first)).
    { unfold first. rewrite step_world. now apply handle_safe. }
    assert (Hget1 : Meetings_get (g_meetings (fst first)) k
                    = Some (after_update this message)).
    { unfold first. rewrite E1. simpl. unfold Meetings_get. simpl.
      exact (get_update _ k (fun _ => after_update this message) this Hget). }
    destruct (step_update _ message k _ Hok1 Hget1 Hcmd) as (e2 & E2 & R2).
    rewrite after_update_settled in R2.
    assert (Hfirst : recomputations (snd first)
                     = (if mute_state_differs this message then 1 else 0)%nat).
    { unfold first. now rewrite E1. }
    assert (Hsecond : recomputations (snd second) = 0%nat).
    { unfold second. now rewrite E2. }
    split; [exact Hfirst|]. split; [exact Hsecond|].
    simpl. fold first. fold second.
    rewrite app_nil_r, recomputations_app, Hfirst, Hsecond. lia.
Qed.

(** C6 as stated fails: the session has stored microphone muted, camera on;
    two updates that report just that recompute nothing, not once. *)
Lemma two_identical_updates_recompute_nothing :
  Meetings_get (g_meetings one_reported) 0
  = Some {| id := Some 0; title := None; port := meeting_page 0;
            active := false; prefer := false;
            audioMuted := Some true; videoMuted := Some false |}
  /\ recomputations
       (trace [EvPortMessage 0 (update_message (Some true) (Some false));
               EvPortMessage 0 (update_message (Some true) (Some false))]
          one_reported)
     = 0%nat.
Proof. split; reflexivity. Qed.

(** The amended C6 on two connected meetings: the first of two identical
    updates to session 1 differs from the unknown stored state and
    recomputes, the second does not. *)
Lemma update_debounce_witness :
  recomputations
    (trace [EvPortMessage 1 (update_message (Some true) (Some false));
            EvPortMessage 1 (update_message (Some true) (Some false))]
       two_waiting)
  = 1%nat.
Proof.
  refine (proj2 (proj2 (proj2 (proj2
            (update_debounce
               {| id := Some 1; title := None; port := meeting_page 1;
                  active := false; prefer := false;
                  audioMuted := None; videoMuted := None |}
               (update_message (Some true) (Some false)) two_waiting))
            1 _ eq_refl eq_refl))).
  apply reachable_ok.
Defined.

(** ** Joined sessions stay active *)

Lemma step_joined (this : Meeting) (message : PeerMessage) (k : Z) (w : World) :
  ok w ->
  Meetings_get (g_meetings w) k = Some this ->
  pm_command message = "joined"%string ->
  Meetings_get (g_meetings (fst (step w (EvPortMessage k message)))) k
  = Some (set_active this true).
Proof.
  intros Hok Hget Hcmd. rewrite step_world.
  unfold handle, on_meeting, world_after. rewrite bind_gets, Hget. simpl.
  unfold Meeting_recv. rewrite Hcmd. simpl.
  unfold Meeting_message_joined, store. simpl.
  rewrite (held_id w k this Hok Hget).
  destruct (modify_then_update
              (with_meetings (with_map (JsMap.update k (fun _ => set_active this true))))
              w) as (e & E & _).
  rewrite E. simpl. unfold Meetings_get. simpl.
  exact (get_update _ k (fun _ => set_active this true) this Hget).
Qed.

(** C9.  In every state the coordinator reaches, a [joined] message makes
    its session active; and a session that is active stays active, for as
    long as the registry holds it, over every further sequence of events
    (connections, disconnections, peer messages, page messages, clicks,
    shortcuts, setting changes and menu items). *)
Theorem active_never_reverts (before after : list Event) (a b : JsValue)
    (k : Z) (this : Meeting) :
  let w := run before (initial_world a b) in
  Meetings_get (g_meetings w) k = Some this ->
  (forall message, pm_command message = "joined"%string ->
     exists joined,
       Meetings_get (g_meetings (fst (step w (EvPortMessage k message)))) k
       = Some joined
       /\ active joined = true)
  /\ (active this = true ->
      forall later, Meetings_get (g_meetings (run after w)) k = Some later ->
                    active later = true).
Proof.
  intros w Hget.
  assert (Hok : ok w) by apply reachable_ok.
  split.
  - intros message Hcmd. exists (set_active this true).
    split; [now apply step_joined|reflexivity].
  - intros Hactive later Hlater.
    destruct (run_safe after w Hok) as [_ [_ Hcont]].
    destruct (Hcont k later Hlater) as (m & Hm & Hkeep).
    + pose proof (ok_below _ Hok) as Hb. rewrite Forall_forall in Hb.
      apply Hb. apply get_In in Hget.
      change k with (fst (k, this)). unfold JsMap.keys. now apply in_map.
    + unfold w in Hm. fold w in Hm. rewrite Hget in Hm.
      injection Hm as <-. now apply Hkeep.
Qed.

(** C9 on a run: session 0 joins, then reports, another page connects and
    leaves, the popup marks and unmarks it, the user toggles; session 0 is
    still active. *)
Lemma active_never_reverts_witness :
  Meetings_get (g_meetings (run busy_afterwards (run first_joins fresh))) 0
  = Some session_0_later
  /\ active session_0_later = true.
Proof.
  split; [vm_compute; reflexivity|].
  refine (proj2 (active_never_reverts first_joins busy_afterwards
                   JsUndefined JsUndefined 0
                   {| id := Some 0; title := None; port := meeting_page 0;
                      active := true; prefer := false;
                      audioMuted := None; videoMuted := None |} _)
            _ session_0_later _).
  - vm_compute; reflexivity.
  - reflexivity.
  - vm_compute; reflexivity.
Defined.

(** ** Sequences of registry operations *)

Lemma apply_op_safe (op : RegistryOp) (w : World) : safe_at (apply_op op) w.
Proof.
  destruct op; simpl.
  - apply safe_then; [now apply Meetings_add_safe|].
    intros. apply unchanged_safe, unchanged_ret.
  - apply safe_then; [apply Meetings_remove_safe|].
    intros. apply unchanged_safe, unchanged_ret.
  - apply safe_then; [apply Meetings_setDefault_safe|].
    intros. apply unchanged_safe, unchanged_ret.
Qed.

(** An operation always returns; [OpAdd] binds one meeting, under the id the
    counter showed, and advances the counter by one; the others bind none
    and leave the counter. *)
Lemma apply_op_runs (op : RegistryOp) (w : World) :
  exists more e,
    apply_op op w = (Returned more, world_after (apply_op op) w, e)
    /\ map id more
       = (if is_add op then [Some (nextId (g_meetings w))] else [])
    /\ nextId (g_meetings (world_after (apply_op op) w))
       = nextId (g_meetings w) + (if is_add op then 1 else 0).
Proof.
  unfold world_after. destruct op as [p|m|i v]; simpl.
  - destruct (Meetings_add_runs (Meeting_new p) w) as (e & E & _).
    unfold Meeting_bind. rewrite (bind_returned _ _ _ _ _ _ E). simpl.
    do 2 eexists. split; [reflexivity|]. now split.
  - destruct (Meetings_remove_runs m w) as (e & E & _).
    rewrite (bind_returned _ _ _ _ _ _ E). simpl.
    do 2 eexists. split; [reflexivity|]. split; [reflexivity|]. lia.
  - destruct (Meetings_setDefault_runs i v w) as (e & E & _).
    rewrite (bind_returned _ _ _ _ _ _ E). simpl.
    do 2 eexists. split; [reflexivity|]. split; [reflexivity|]. lia.
Qed.

Lemma first_ids_succ (n : nat) :
  first_ids (S n) = first_ids n ++ [Some (Z.of_nat n)].
Proof.
  unfold first_ids. now rewrite seq_S, map_app.
Qed.

Lemma first_ids_In (n : nat) (k : Z) :
  0 <= k < Z.of_nat n -> In (Some k) (first_ids n).
Proof.
  intros H. unfold first_ids. apply in_map_iff.
  exists (Z.to_nat k). split; [f_equal; lia|].
  apply in_seq. lia.
Qed.

Lemma first_ids_NoDup (n : nat) : NoDup (first_ids n).
Proof.
  unfold first_ids. apply Injective_map_NoDup; [|apply seq_NoDup].
  intros x y E. injection E. lia.
Qed.

Lemma apply_ops_from (ops : list RegistryOp) :
  forall (w : World) (bound0 : list Meeting),
    ok w ->
    nextId (g_meetings w) = Z.of_nat (List.length bound0) ->
    map id bound0 = first_ids (List.length bound0) ->
    exists bound w' e,
      forEach (fun bound op => more <- apply_op op ;; ret (bound ++ more))
        ops bound0 w
      = (Returned bound, w', e)
      /\ ok w'
      /\ nextId (g_meetings w') = Z.of_nat (List.length bound)
      /\ map id bound = first_ids (List.length bound)
      /\ List.length bound
         = (List.length bound0 + List.length (filter is_add ops))%nat.
Proof.
  induction ops as [|op ops IH]; intros w bound0 Hok Hn Hids; simpl.
  - exists bound0, w, [].
    split; [reflexivity|]. split; [exact Hok|]. split; [exact Hn|].
    split; [exact Hids|]. simpl. lia.
  - destruct (apply_op_runs op w) as (more & e1 & E1 & Hmore & Hnext).
    pose proof (proj1 (apply_op_safe op w Hok)) as Hok1.
    set (w1 := world_after (apply_op op) w) in *.
    assert (Hlen : List.length (bound0 ++ more)
                   = (List.length bound0 + if is_add op then 1 else 0)%nat).
    { rewrite length_app. f_equal.
      rewrite <- (length_map id more), Hmore. now destruct (is_add op). }
    destruct (IH w1 (bound0 ++ more) Hok1) as (bound & w' & e2 & E2 & H2).
    + rewrite Hnext, Hn, Hlen. destruct (is_add op); lia.
    + rewrite map_app, Hmore, Hids, Hlen, Hn.
      destruct (is_add op).
      * replace (List.length bound0 + 1)%nat with (S (List.length bound0)) by lia.
        now rewrite first_ids_succ.
      * now rewrite Nat.add_0_r, app_nil_r.
    + exists bound, w', (e1 ++ e2).
      split.
      * rewrite bind_assoc, (bind_returned _ _ _ _ _ _ E1).
        rewrite bind_ret_l, E2. reflexivity.
      * destruct H2 as (Hok' & Hn' & Hids' & Hlen').
        split; [exact Hok'|]. split; [exact Hn'|]. split; [exact Hids'|].
        rewrite Hlen', Hlen.
        destruct (is_add op); simpl; lia.
Qed.

(** C4.  For every sequence of registry operations from a fresh registry:
    the operations all return; the ids given to the meetings bound are 0, 1,
    2, ... in the order of the adds, so they increase, are pairwise distinct
    for the whole lifetime, and an id once given is never given again,
    removed or not; the counter equals the number of adds; [size] is the
    number of sessions held; the ids held are strictly increasing in
    insertion order, each was given by an add, and each session carries the
    id it is held under. *)
Theorem ids_unique_and_increasing (ops : list RegistryOp) (a b : JsValue) :
  exists bound,
    outcome_of (apply_ops ops) (initial_world a b) = Returned bound
    /\ let this := g_meetings (world_after (apply_ops ops) (initial_world a b)) in
       map id bound = first_ids (List.length bound)
       /\ NoDup (map id bound)
       /\ List.length bound = List.length (filter is_add ops)
       /\ nextId this = Z.of_nat (List.length bound)
       /\ Meetings_size this = List.length (sessions this)
       /\ StronglySorted Z.lt (JsMap.keys (meetings this))
       /\ Forall (fun k => In (Some k) (map id bound)) (JsMap.keys (meetings this))
       /\ Forall (fun e => id (snd e) = Some (fst e)) (meetings this).
Proof.
  destruct (apply_ops_from ops (initial_world a b) [])
    as (bound & w' & e & E & Hok & Hn & Hids & Hlen);
    [apply initial_world_ok|reflexivity|reflexivity|].
  exists bound. unfold outcome_of, world_after, apply_ops. rewrite E. simpl.
  split; [reflexivity|].
  split; [exact Hids|].
  split; [rewrite Hids; apply first_ids_NoDup|].
  split; [exact Hlen|].
  split; [exact Hn|].
  split; [apply size_spec|].
  split; [exact (ok_sorted _ Hok)|].
  split; [|exact (ok_id _ Hok)].
  rewrite Hids. eapply Forall_impl; [|exact (ok_below _ Hok)].
  simpl. intros k Hk. apply first_ids_In. lia.
Qed.

(** ** At most one preferred session *)

Lemma apply_ops_ok (ops : list RegistryOp) (a b : JsValue) :
  ok (world_after (apply_ops ops) (initial_world a b)).
Proof.
  destruct (apply_ops_from ops (initial_world a b) [])
    as (bound & w' & e & E & Hok & _);
    [apply initial_world_ok|reflexivity|reflexivity|].
  unfold world_after, apply_ops. now rewrite E.
Qed.

Lemma setDefault_twice_world (i j : option Z) (w : World) :
  world_after (Meetings_setDefault i (Some true) ;; Meetings_setDefault j (Some true)) w
  = with_meetings
      (with_map (JsMap.rewrite_values (fun _ m =>
         setDefault_body j true (setDefault_body i true m)))) w.
Proof.
  destruct (Meetings_setDefault_runs i (Some true) w) as (e1 & E1 & _).
  set (w1 := with_meetings _ w) in E1.
  destruct (Meetings_setDefault_runs j (Some true) w1) as (e2 & E2 & _).
  unfold world_after. rewrite (bind_returned _ _ _ _ _ _ E1), E2. simpl.
  unfold w1, with_meetings, with_map, JsMap.rewrite_values. simpl.
  now rewrite map_map.
Qed.

(** C3.  After any sequence of add, remove and setDefault from a fresh
    registry, and after any sequence of events of the coordinator, at most
    one session is preferred.  Marking [id_] and then [otherId] as preferred
    keeps the same sessions, leaves a session preferred exactly when it is
    the one held under [otherId], and that one is preferred if it is held. *)
Theorem at_most_one_preferred_always (ops : list RegistryOp) (a b : JsValue) :
  let w := world_after (apply_ops ops) (initial_world a b) in
  at_most_one_preferred (g_meetings w)
  /\ (forall evs, at_most_one_preferred (g_meetings (run evs (initial_world a b))))
  /\ forall id_ otherId,
       let w' :=
         world_after (Meetings_setDefault (Some id_) (Some true) ;;
                      Meetings_setDefault (Some otherId) (Some true)) w in
       at_most_one_preferred (g_meetings w')
       /\ JsMap.keys (meetings (g_meetings w')) = JsMap.keys (meetings (g_meetings w))
       /\ (forall k m, Meetings_get (g_meetings w') k = Some m ->
                       (prefer m = true <-> k = otherId))
       /\ (forall m0, Meetings_get (g_meetings w) otherId = Some m0 ->
                      exists m, Meetings_get (g_meetings w') otherId = Some m
                                /\ prefer m = true).
Proof.
  intros w.
  assert (Hok : ok w) by apply apply_ops_ok.
  split; [exact (ok_prefer _ Hok)|].
  split; [intros evs; exact (ok_prefer _ (reachable_ok evs a b))|].
  intros id_ otherId w'.
  assert (Hget : forall k m,
             Meetings_get (g_meetings w') k = Some m ->
             exists m0, Meetings_get (g_meetings w) k = Some m0
                        /\ m = setDefault_body (Some otherId) true
                                 (setDefault_body (Some id_) true m0)).
  { intros k m H. unfold w' in H. rewrite setDefault_twice_world in H.
    unfold Meetings_get in *. simpl in H. rewrite get_rewrite_values in H.
    destruct (JsMap.get k (meetings (g_meetings w))) as [m0|]; [|discriminate].
    injection H as <-. now exists m0. }
  split; [|split; [|split]].
  - assert (Hok' : ok w').
    { unfold w'. apply safe_then; [apply Meetings_setDefault_safe| |exact Hok].
      intros. apply Meetings_setDefault_safe. }
    exact (ok_prefer _ Hok').
  - unfold w'. rewrite setDefault_twice_world. simpl.
    apply keys_rewrite_values.
  - intros k m H. destruct (Hget k m H) as (m0 & H0 & ->).
    rewrite setDefault_body_prefer, setDefault_body_id.
    rewrite (held_id w k m0 Hok H0). simpl.
    destruct (Z.eqb_spec k otherId) as [->|Hne].
    + now split.
    + rewrite andb_false_r. split; [discriminate|congruence].
  - intros m0 H0. unfold w'. rewrite setDefault_twice_world.
    unfold Meetings_get in *. simpl. rewrite get_rewrite_values, H0. simpl.
    eexists. split; [reflexivity|].
    rewrite setDefault_body_prefer, setDefault_body_id.
    rewrite (held_id w otherId m0 Hok H0). simpl. now rewrite Z.eqb_refl.
Qed.

(** C3 on three meetings of which the second, once preferred, was removed:
    marking session 0 and then session 2 leaves only session 2 preferred. *)
Lemma at_most_one_preferred_always_witness :
  exists m,
    Meetings_get
      (g_meetings
         (world_after (Meetings_setDefault (Some 0) (Some true) ;;
                       Meetings_setDefault (Some 2) (Some true))
            (world_after (apply_ops three_added_one_removed) fresh))) 2
    = Some m
    /\ prefer m = true.
Proof.
  refine (proj2 (proj2 (proj2
            (proj2 (proj2 (at_most_one_preferred_always three_added_one_removed
                             JsUndefined JsUndefined)) 0 2)))
            (set_id (Meeting_new (meeting_page 2)) (Some 2)) _).
  vm_compute. reflexivity.
Defined.

(** ** The selection algorithm *)

Lemma bind_cong_l {A B} (c c' : M A) (k : A -> M B) (w : World) :
  c w = c' w -> bind c k w = bind c' k w.
Proof.
  intros E. unfold bind. now rewrite E.
Qed.

Lemma last_cons {X} (x d : X) (l : list X) : last (x :: l) d = last l x.
Proof.
  revert x d. induction l as [|y l IH]; intros x d; [reflexivity|].
  change (last (x :: y :: l) d) with (last (y :: l) d).
  now rewrite !IH.
Qed.

(** [default] is the last preferred session in insertion order. *)
Lemma default_spec (this : Meetings) :
  Meetings_default this = last (map Some (filter prefer (sessions this))) None.
Proof.
  unfold Meetings_default, sessions, JsMap.values.
  generalize (@None Meeting).
  induction (meetings this) as [|[k m] l IH]; intros acc; simpl; [reflexivity|].
  rewrite IH. destruct (prefer m); [|reflexivity].
  simpl map. now rewrite last_cons.
Qed.

(** The loop of [processMeetings_] once a target was met ... *)
Lemma processMeetings_loop_focused {S} (callback : S -> Meeting -> M S)
    (numActive : nat) (l : list (Z * Meeting)) :
  forall (s : S) (w : World),
    forEach (processMeetings_body callback numActive) l (true, s) w
    = bind (forEach callback
              (filter (fun m => (numActive =? 0)%nat || active m) (map snd l)) s)
        (fun s' => ret (true, s')) w.
Proof.
  induction l as [|[k m] l IH]; intros s w; simpl.
  - now rewrite bind_ret_l.
  - unfold processMeetings_body at 1. simpl.
    destruct ((numActive =? 0)%nat || active m); simpl.
    + rewrite !bind_assoc, bind_ret_l, !bind_assoc. apply bind_ext.
      intros s' w1. rewrite bind_ret_l. apply IH.
    + rewrite bind_ret_l. apply IH.
Qed.

(** ... and before: the first target gets the autofocus signal. *)
Lemma processMeetings_loop {S} (callback : S -> Meeting -> M S)
    (numActive : nat) (l : list (Z * Meeting)) :
  forall (s : S) (w : World),
    forEach (processMeetings_body callback numActive) l (false, s) w
    = match filter (fun m => (numActive =? 0)%nat || active m) (map snd l) with
      | [] => ret (false, s)
      | first :: rest =>
          bind (Meeting_autofocus first)
            (fun _ => bind (forEach callback (first :: rest) s)
                        (fun s' => ret (true, s')))
      end w.
Proof.
  induction l as [|[k m] l IH]; intros s w; simpl; [reflexivity|].
  unfold processMeetings_body at 1. simpl.
  destruct ((numActive =? 0)%nat || active m); simpl.
  - rewrite !bind_assoc. apply bind_ext. intros _ w1.
    rewrite bind_ret_l, !bind_assoc. apply bind_ext. intros s' w2.
    rewrite bind_ret_l. apply processMeetings_loop_focused.
  - rewrite bind_ret_l. apply IH.
Qed.

Lemma targets_without_preferred (this : Meetings) :
  filter prefer (sessions this) = [] ->
  filter (fun m => (Meetings_numActive this =? 0)%nat || active m) (sessions this)
  = selectTargets this.
Proof.
  intros Hnone. unfold selectTargets. rewrite Hnone, numActive_spec.
  destruct (List.length (filter active (sessions this)) =? 0)%nat; simpl.
  - clear. induction (sessions this) as [|m l IH]; simpl; [reflexivity|].
    now rewrite IH.
  - reflexivity.
Qed.

Lemma processMeetings_as_specified {S} (callback : S -> Meeting -> M S)
    (s : S) (w : World) :
  at_most_one_preferred (g_meetings w) ->
  Meetings_processMeetings_ callback s w = deliver_as_specified callback s w.
Proof.
  intros Hone. unfold Meetings_processMeetings_, deliver_as_specified.
  rewrite !bind_gets. set (this := g_meetings w) in *.
  rewrite default_spec. unfold at_most_one_preferred in Hone.
  destruct (filter prefer (sessions this)) as [|p [|q ps]] eqn:Hp.
  - cbn [last map]. rewrite <- (targets_without_preferred this Hp).
    erewrite bind_cong_l by apply processMeetings_loop.
    unfold sessions, JsMap.values.
    destruct (filter _ (map snd (meetings this))) as [|first rest].
    + now rewrite bind_ret_l.
    + rewrite bind_assoc. apply bind_ext. intros _ w1.
      rewrite bind_assoc.
      etransitivity; [|apply bind_ret_r].
      apply bind_ext. intros s' w2. now rewrite bind_ret_l.
  - unfold selectTargets. rewrite Hp. cbn [last map forEach].
    apply bind_ext. intros _ w1. now rewrite bind_ret_r.
  - simpl in Hone. lia.
Qed.

Lemma bind_ret_tt (c : M unit) (w : World) :
  bind c (fun _ => ret tt) w = c w.
Proof.
  unfold bind, ret. destruct (c w) as [[[[]|] w1] e1]; [|reflexivity].
  now rewrite app_nil_r.
Qed.

Lemma focus_callback_done (l : list Meeting) (w : World) :
  forEach focus_callback l true w = ret true w.
Proof.
  induction l as [|m l IH]; simpl; [reflexivity|].
  unfold focus_callback at 1. simpl. now rewrite bind_ret_l.
Qed.

Lemma Meetings_focus_first (w : World) :
  at_most_one_preferred (g_meetings w) ->
  Meetings_focus w = focus_first_target w.
Proof.
  intros Hone. unfold Meetings_focus, focus_first_target.
  erewrite bind_cong_l by now apply processMeetings_as_specified.
  unfold deliver_as_specified. rewrite bind_assoc, !bind_gets.
  destruct (selectTargets (g_meetings w)) as [|first rest].
  - now rewrite bind_ret_l.
  - rewrite bind_assoc. apply bind_ext. intros _ w1.
    cbn [forEach]. unfold focus_callback at 1. cbn [negb].
    rewrite !bind_assoc. etransitivity; [|apply bind_ret_tt].
    apply bind_ext. intros _ w2.
    rewrite bind_ret_l.
    erewrite bind_cong_l by apply focus_callback_done.
    now rewrite bind_ret_l.
Qed.

Lemma only_preferred (this : Meetings) (p : Meeting) :
  at_most_one_preferred this ->
  In p (sessions this) -> prefer p = true ->
  filter prefer (sessions this) = [p].
Proof.
  unfold at_most_one_preferred. intros Hone HIn Hp.
  assert (H : In p (filter prefer (sessions this))) by now apply filter_In.
  destruct (filter prefer (sessions this)) as [|q [|r l]]; simpl in *.
  - tauto.
  - destruct H as [->|[]]. reflexivity.
  - lia.
Qed.

(** C1, as the code has it.  In a registry with at most one preferred
    session: the targets are the preferred session alone if there is one,
    else every session when none is active, else exactly the active ones;
    [processMeetings_] gives the autofocus signal to the first target only,
    before its callback, and runs the callback on every target in insertion
    order.  So toggle, mute and unmute reach every target.  The callback of
    a broadcast focus acts on its first call only: focus reaches the first
    target and no other. *)
Theorem broadcast_targets (w : World) :
  at_most_one_preferred (g_meetings w) ->
  let this := g_meetings w in
  (forall p, In p (sessions this) -> prefer p = true -> selectTargets this = [p])
  /\ (Forall (fun m => prefer m = false) (sessions this) ->
      Meetings_numActive this = 0%nat ->
      selectTargets this = sessions this)
  /\ (Forall (fun m => prefer m = false) (sessions this) ->
      Meetings_numActive this <> 0%nat ->
      selectTargets this = filter active (sessions this))
  /\ (forall S (callback : S -> Meeting -> M S) (s : S),
        Meetings_processMeetings_ callback s w = deliver_as_specified callback s w)
  /\ (forall data,
        Meetings_toggle data w
        = broadcast_as_specified (Meeting_toggle (Some (or_default data))) w)
  /\ (forall data,
        Meetings_mute data w
        = broadcast_as_specified (Meeting_mute (Some (or_default data))) w)
  /\ (forall data,
        Meetings_unmute data w
        = broadcast_as_specified (Meeting_unmute (Some (or_default data))) w)
  /\ Meetings_focus w = focus_first_target w.
Proof.
  intros Hone this.
  assert (Hnone : Forall (fun m => prefer m = false) (sessions this) ->
                  filter prefer (sessions this) = []).
  { intros H. apply filter_none. now apply Forall_forall. }
  split; [|split; [|split; [|split; [|split; [|split; [|split]]]]]].
  - intros p HIn Hp. unfold selectTargets.
    now rewrite (only_preferred this p Hone HIn Hp).
  - intros Hno Hzero. unfold selectTargets.
    now rewrite (Hnone Hno), <- numActive_spec, Hzero.
  - intros Hno Hactive. unfold selectTargets.
    rewrite (Hnone Hno), <- numActive_spec.
    now destruct (Nat.eqb_spec (Meetings_numActive this) 0).
  - intros S callback s. now apply processMeetings_as_specified.
  - intros data. now apply processMeetings_as_specified.
  - intros data. now apply processMeetings_as_specified.
  - intros data. now apply processMeetings_as_specified.
  - now apply Meetings_focus_first.
Qed.

(** C1 as stated fails for focus: of two waiting meetings, both targets, a
    broadcast focus reaches only the first, where the rule as specified
    would focus both. *)
Lemma broadcast_focus_reaches_first_only :
  map id (selectTargets (g_meetings two_waiting)) = [Some 0; Some 1]
  /\ effects_of Meetings_focus two_waiting = [TabsGet 10]
  /\ effects_of (broadcast_as_specified Meeting_focus) two_waiting
     = [TabsGet 10; TabsGet 11].
Proof. repeat split. Qed.

(** The amended C1 on three meetings, two of them joined and the other one
    preferred: a toggle reaches the preferred one alone; and on two waiting
    meetings: a mute reaches both, a focus the first. *)
Lemma broadcast_targets_witness :
  effects_of (Meetings_toggle None) three_one_preferred
  = [PostMessage (meeting_page 0) (MsgCommand "toggle" audio_only)]
  /\ effects_of (Meetings_mute None) two_waiting
     = [PostMessage (meeting_page 0) (MsgCommand "mute" audio_only);
        PostMessage (meeting_page 1) (MsgCommand "mute" audio_only)]
  /\ effects_of Meetings_focus two_waiting = [TabsGet 10].
Proof.
  assert (H3 : at_most_one_preferred (g_meetings three_one_preferred))
    by (vm_compute; lia).
  assert (H2 : at_most_one_preferred (g_meetings two_waiting))
    by (vm_compute; lia).
  destruct (broadcast_targets three_one_preferred H3)
    as (_ & _ & _ & _ & Htoggle & _).
  destruct (broadcast_targets two_waiting H2)
    as (_ & _ & _ & _ & _ & Hmute & _ & Hfocus).
  unfold effects_of. rewrite Htoggle, Hmute, Hfocus.
  repeat split.
Defined.

(** * Further properties of the coordinator *)

(** ** Adding, looking up, removing *)

Lemma get_app_new {V} (l : JsMap.t V) (k : Z) (v : V) :
  JsMap.get k l = None -> JsMap.get k (l ++ [(k, v)]) = Some v.
Proof.
  induction l as [|[k' v'] l IH]; simpl.
  - now rewrite Z.eqb_refl.
  - destruct (k' =? k); [discriminate|exact IH].
Qed.

Lemma fresh_key_absent (this : Meetings) :
  registry_ok this -> JsMap.get (nextId this) (meetings this) = None.
Proof.
  intros Hok. destruct (JsMap.get (nextId this) (meetings this)) as [m|] eqn:E;
    [|reflexivity].
  apply get_In in E. pose proof (ok_below _ Hok) as Hb.
  rewrite Forall_forall in Hb.
  assert (H : In (nextId this) (JsMap.keys (meetings this))).
  { change (nextId this) with (fst (nextId this, m)). unfold JsMap.keys.
    now apply in_map. }
  specialize (Hb _ H). simpl in Hb. lia.
Qed.

(** X1.  In a well-formed registry [add] gives the meeting the id the counter
    shows, whatever id it carried, and holds it under that id at the end of
    the insertion order: [get] of the new id returns it, [get] of every
    other id returns what it returned before, the size grows by one and the
    counter by one. *)
Theorem add_then_get (meeting : Meeting) (w : World) :
  ok w ->
  let k := nextId (g_meetings w) in
  let added := set_id meeting (Some k) in
  let w' := world_after (Meetings_add meeting) w in
  outcome_of (Meetings_add meeting) w = Returned added
  /\ meetings (g_meetings w') = meetings (g_meetings w) ++ [(k, added)]
  /\ Meetings_get (g_meetings w') k = Some added
  /\ (forall k0, k0 <> k ->
        Meetings_get (g_meetings w') k0 = Meetings_get (g_meetings w) k0)
  /\ Meetings_size (g_meetings w') = S (Meetings_size (g_meetings w))
  /\ nextId (g_meetings w') = k + 1.
Proof.
  intros Hok k added w'.
  destruct (Meetings_add_runs meeting w) as (e & E & _).
  assert (Hl : meetings (g_meetings w') = meetings (g_meetings w) ++ [(k, added)]).
  { unfold w', world_after. rewrite E. simpl. apply set_fresh.
    eapply Forall_impl; [|exact (ok_below _ Hok)]. simpl. intros; lia. }
  split; [unfold outcome_of; now rewrite E|].
  split; [exact Hl|].
  split; [|split; [|split]].
  - unfold Meetings_get. rewrite Hl. apply get_app_new.
    now apply fresh_key_absent.
  - intros k0 Hne. unfold Meetings_get. rewrite Hl. now apply get_app_old.
  - unfold Meetings_size, JsMap.size. rewrite Hl, length_app. simpl. lia.
  - unfold w', world_after. rewrite E. reflexivity.
Qed.

(** X1 on two waiting meetings: a third one gets id 2. *)
Lemma add_then_get_witness :
  Meetings_get
    (g_meetings (world_after (Meetings_add (Meeting_new (meeting_page 2))) two_waiting))
    2
  = Some (set_id (Meeting_new (meeting_page 2)) (Some 2)).
Proof.
  refine (proj1 (proj2 (proj2
            (add_then_get (Meeting_new (meeting_page 2)) two_waiting _)))).
  apply reachable_ok.
Defined.

Lemma delete_held_length {V} (l : JsMap.t V) (k : Z) (v : V) :
  NoDup (JsMap.keys l) -> JsMap.get k l = Some v ->
  S (List.length (JsMap.delete k l)) = List.length l.
Proof.
  unfold JsMap.delete.
  induction l as [|[k' v'] l IH]; simpl; [discriminate|].
  intros Hnd Hget. inversion Hnd as [|? ? Hnotin Hnd']; subst.
  destruct (Z.eqb_spec k' k) as [->|Hne]; simpl.
  - f_equal. f_equal. fold (JsMap.delete k l). apply delete_absent.
    destruct (JsMap.get k l) as [x|] eqn:E; [|reflexivity].
    exfalso. apply Hnotin. apply get_In in E.
    change k with (fst (k, x)). now apply in_map.
  - f_equal. now apply IH.
Qed.

(** X2.  Removing a session the registry holds makes [get] of its id find
    nothing, leaves [get] of every other id as it was, makes the size one
    less, and does not touch the counter: the id is not handed out again. *)
Theorem remove_held (meeting this : Meeting) (k : Z) (w : World) :
  ok w ->
  id meeting = Some k ->
  Meetings_get (g_meetings w) k = Some this ->
  let w' := world_after (Meetings_remove meeting) w in
  Meetings_get (g_meetings w') k = None
  /\ (forall k0, k0 <> k ->
        Meetings_get (g_meetings w') k0 = Meetings_get (g_meetings w) k0)
  /\ S (Meetings_size (g_meetings w')) = Meetings_size (g_meetings w)
  /\ nextId (g_meetings w') = nextId (g_meetings w).
Proof.
  intros Hok Hid Hget w'.
  destruct (Meetings_remove_runs meeting w) as (e & E & _).
  assert (Hl : g_meetings w' = with_map (JsMap.delete k) (g_meetings w)).
  { unfold w', world_after. rewrite E. simpl. now rewrite Hid. }
  rewrite Hl. unfold Meetings_get, Meetings_size, JsMap.size. simpl.
  split; [|split; [|split]].
  - rewrite get_delete. now rewrite Z.eqb_refl.
  - intros k0 Hne. rewrite get_delete.
    now destruct (Z.eqb_spec k0 k).
  - apply (delete_held_length _ k this); [|exact Hget].
    apply sorted_NoDup, (ok_sorted _ Hok).
  - reflexivity.
Qed.

(** X2 on two waiting meetings: the first one leaves. *)
Lemma remove_held_witness :
  Meetings_get
    (g_meetings
       (world_after (Meetings_remove (set_id (Meeting_new (meeting_page 0)) (Some 0)))
          two_waiting)) 0
  = None.
Proof.
  refine (proj1 (remove_held (set_id (Meeting_new (meeting_page 0)) (Some 0))
                   (set_id (Meeting_new (meeting_page 0)) (Some 0))
                   0 two_waiting _ eq_refl eq_refl)).
  apply reachable_ok.
Defined.

(** ** Connecting and disconnecting *)

Lemma delete_app_new {V} (l : JsMap.t V) (k : Z) (v : V) :
  JsMap.get k l = None -> JsMap.delete k (l ++ [(k, v)]) = l.
Proof.
  intros H. unfold JsMap.delete. rewrite filter_app. simpl.
  rewrite Z.eqb_refl. simpl. rewrite app_nil_r.
  now apply delete_absent.
Qed.

(** What [onConnect] does for a meeting page. *)
Lemma onConnect_meeting_runs (port_ : Port) (w : World) :
  name port_ <> "control"%string ->
  name port_ <> "options"%string ->
  exists e,
    onConnect port_ w
    = (Returned tt, world_after (Meetings_add (Meeting_new port_)) w, e)
    /\ recomputations e = 2%nat.
Proof.
  intros Hc Ho. unfold onConnect.
  apply String.eqb_neq in Hc, Ho. rewrite Hc, Ho.
  destruct (Meetings_add_runs (Meeting_new port_) w) as (e1 & E1 & R1).
  unfold Meeting_bind, world_after. rewrite (bind_returned _ _ _ _ _ _ E1), E1.
  simpl.
  match goal with |- context [Badge_update ?w1] =>
    destruct (Badge_update_runs w1) as (e2 & E2 & R2) end.
  rewrite E2. simpl. eexists. split; [reflexivity|].
  rewrite recomputations_app. lia.
Qed.

(** X3.  A meeting page that connects and disconnects at once leaves the
    sessions and every other global as they were, except the counter, which
    has moved on by one: its id is spent.  The connection alone recomputes
    the display twice, once in [add] and once in [onConnect]. *)
Theorem connect_then_disconnect (port_ : Port) (w : World) :
  ok w ->
  name port_ <> "control"%string ->
  name port_ <> "options"%string ->
  let k := nextId (g_meetings w) in
  let w' := run [EvConnect port_; EvPortDisconnect k] w in
  recomputations (snd (step w (EvConnect port_))) = 2%nat
  /\ meetings (g_meetings w') = meetings (g_meetings w)
  /\ nextId (g_meetings w') = k + 1
  /\ g_badge w' = g_badge w
  /\ g_autofocus w' = g_autofocus w
  /\ g_actionButtonBehavior w' = g_actionButtonBehavior w.
Proof.
  intros Hok Hc Ho k w'.
  destruct (onConnect_meeting_runs port_ w Hc Ho) as (e1 & E1 & R1).
  destruct (add_then_get (Meeting_new port_) w Hok)
    as (_ & Hl & Hget & _ & _ & Hn).
  set (w1 := world_after (Meetings_add (Meeting_new port_)) w) in *.
  assert (S1 : step w (EvConnect port_) = (w1, e1)).
  { unfold step, handle. now rewrite E1. }
  destruct (Meetings_remove_runs
              (set_id (Meeting_new port_) (Some (nextId (g_meetings w)))) w1)
    as (e2 & E2 & _).
  assert (S2 : fst (step w1 (EvPortDisconnect k))
               = with_meetings (with_map (JsMap.delete k)) w1).
  { unfold step, handle, on_meeting. rewrite bind_gets. fold k in Hget.
    rewrite Hget. unfold when_defined, Meeting_disconnect.
    unfold k. now rewrite E2. }
  assert (Hw' : w' = with_meetings (with_map (JsMap.delete k)) w1).
  { unfold w', run. cbn [fold_left]. rewrite S1. cbn [fst]. exact S2. }
  split; [now rewrite S1|].
  rewrite Hw'. simpl. rewrite Hl.
  split; [apply delete_app_new, (fresh_key_absent _ Hok)|].
  split; [exact Hn|].
  unfold w1, world_after.
  destruct (Meetings_add_runs (Meeting_new port_) w) as (e & E & _).
  rewrite E. simpl. repeat split.
Qed.

(** X3 on two waiting meetings. *)
Lemma connect_then_disconnect_witness :
  meetings (g_meetings (run [EvConnect (meeting_page 2); EvPortDisconnect 2] two_waiting))
  = meetings (g_meetings two_waiting)
  /\ nextId (g_meetings (run [EvConnect (meeting_page 2); EvPortDisconnect 2] two_waiting))
     = 3.
Proof.
  destruct (connect_then_disconnect (meeting_page 2) two_waiting)
    as (_ & H1 & H2 & _).
  - apply reachable_ok.
  - discriminate.
  - discriminate.
  - split; [exact H1|exact H2].
Defined.

(** ** The aggregate state *)

Lemma filter_all_length {X} (p : X -> bool) (l : list X) :
  List.length (filter p l) = List.length l <-> Forall (fun x => p x = true) l.
Proof.
  induction l as [|x l IH]; simpl.
  - split; [constructor|reflexivity].
  - pose proof (filter_length_le p l) as Hle.
    destruct (p x) eqn:E; simpl.
    + split.
      * intros H. constructor; [exact E|]. apply IH. lia.
      * intros H. inversion H; subst. f_equal. now apply IH.
    + split; [lia|]. intros H. inversion H; subst. congruence.
Qed.

(** X4.  The state is INACTIVE exactly when no session is held, MUTED
    exactly when at least one is held and every session has reported its
    microphone muted, and UNMUTED exactly when some session has not. *)
Theorem state_characterised (this : Meetings) :
  (Meetings_state this = INACTIVE <-> sessions this = [])
  /\ (Meetings_state this = MUTED <->
      sessions this <> []
      /\ Forall (fun m => audioMuted m = Some true) (sessions this))
  /\ (Meetings_state this = UNMUTED <->
      exists m, In m (sessions this) /\ audioMuted m <> Some true).
Proof.
  unfold Meetings_state. rewrite numAudioMuted_spec, size_spec.
  pose proof (filter_all_length (fun m => truthy (audioMuted m)) (sessions this))
    as Hall.
  assert (Htruthy : forall m, truthy (audioMuted m) = true <-> audioMuted m = Some true).
  { intros m. destruct (audioMuted m) as [[|]|]; simpl; split; congruence. }
  assert (HF : Forall (fun m => truthy (audioMuted m) = true) (sessions this)
               <-> Forall (fun m => audioMuted m = Some true) (sessions this)).
  { rewrite !Forall_forall. split; intros H m Hm; apply Htruthy, H, Hm. }
  destruct (sessions this) as [|m0 l] eqn:Es.
  - simpl. split; [tauto|]. split.
    + split; [discriminate|]. intros [H _]. congruence.
    + split; [discriminate|]. intros (m & [] & _).
  - change (List.length (m0 :: l) =? 0)%nat with false. cbv iota.
    destruct (Nat.eqb_spec (List.length (filter (fun m => truthy (audioMuted m)) (m0 :: l)))
                (List.length (m0 :: l))) as [E|E].
    + apply Hall, HF in E.
      split; [split; discriminate|].
      split; [split; [intros _; split; [discriminate|exact E]|reflexivity]|].
      split; [discriminate|].
      intros (m & Hm & Hn). rewrite Forall_forall in E. elim Hn. now apply E.
    + split; [split; discriminate|].
      split.
      * split; [discriminate|]. intros [_ H]. elim E. now apply Hall, HF.
      * split; [|reflexivity]. intros _.
        assert (Hex : Exists (fun m => audioMuted m <> Some true) (m0 :: l)).
        { apply neg_Forall_Exists_neg.
          - intros m. destruct (audioMuted m) as [[|]|];
              [now left|right; discriminate|right; discriminate].
          - intros H. apply E. now apply Hall, HF. }
        apply Exists_exists in Hex. exact Hex.
Qed.

(** ** The default session *)

Lemma default_of_preferred (this : Meetings) (m : Meeting) :
  at_most_one_preferred this ->
  In m (sessions this) -> prefer m = true ->
  Meetings_default this = Some m.
Proof.
  intros Hone HIn Hp. rewrite default_spec.
  now rewrite (only_preferred this m Hone HIn Hp).
Qed.

Lemma default_preferred (this : Meetings) (m : Meeting) :
  Meetings_default this = Some m -> In m (sessions this) /\ prefer m = true.
Proof.
  rewrite default_spec.
  assert (G : forall (l : list Meeting) d,
             last (map Some (filter prefer l)) d = Some m ->
             d = Some m \/ (In m l /\ prefer m = true)).
  { induction l as [|x l IH]; simpl; intros d H; [now left|].
    destruct (prefer x) eqn:E.
    - cbn [map] in H. rewrite last_cons in H.
      destruct (IH _ H) as [[= ->]|[HIn Hp]]; right; auto.
    - destruct (IH _ H) as [Hd|[HIn Hp]]; [now left|right; auto]. }
  intros H. destruct (G _ _ H) as [Hd|Hr]; [discriminate|exact Hr].
Qed.

Lemma default_none (this : Meetings) :
  Meetings_default this = None <->
  Forall (fun m => prefer m = false) (sessions this).
Proof.
  split.
  - intros H. apply Forall_forall. intros m Hm.
    destruct (prefer m) eqn:E; [|reflexivity].
    rewrite default_spec in H.
    assert (HIn : In m (filter prefer (sessions this))) by now apply filter_In.
    destruct (filter prefer (sessions this)) as [|x l]; [destruct HIn|].
    cbn [map] in H. rewrite last_cons in H.
    exfalso. clear -H. revert x H.
    induction l as [|y l IH]; intros x H; [discriminate|].
    cbn [map] in H. rewrite last_cons in H. exact (IH _ H).
  - intros H. rewrite default_spec, filter_none; [reflexivity|].
    now apply Forall_forall.
Qed.

(** X5.  [default] finds a preferred session whenever there is one: with at
    most one session preferred it returns a session exactly when that
    session is held and preferred, and returns nothing exactly when no
    session is preferred. *)
Theorem default_characterised (this : Meetings) :
  at_most_one_preferred this ->
  (forall m, Meetings_default this = Some m <->
             In m (sessions this) /\ prefer m = true)
  /\ (Meetings_default this = None <->
      Forall (fun m => prefer m = false) (sessions this)).
Proof.
  intros Hone. split; [|apply default_none].
  intros m. split; [apply default_preferred|].
  intros [HIn Hp]. now apply default_of_preferred.
Qed.

(** X5 on three meetings with session 0 preferred. *)
Lemma default_characterised_witness :
  Meetings_default (g_meetings three_one_preferred)
  = Some {| id := Some 0; title := None; port := meeting_page 0;
            active := false; prefer := true;
            audioMuted := None; videoMuted := None |}.
Proof.
  apply (proj1 (default_characterised (g_meetings three_one_preferred)
                  (ok_prefer _ (reachable_ok _ _ _)))).
  split; [vm_compute; tauto|reflexivity].
Defined.

Lemma get_sessions (this : Meetings) (k : Z) (m : Meeting) :
  Meetings_get this k = Some m -> In m (sessions this).
Proof.
  intros H. apply get_In in H. unfold sessions, JsMap.values.
  change m with (snd (k, m)). now apply in_map.
Qed.

Lemma setDefault_world (id_ : option Z) (value : option bool) (w : World) :
  world_after (Meetings_setDefault id_ value) w
  = with_meetings (with_map (JsMap.rewrite_values (fun _ m =>
      setDefault_body id_ (match value with Some v => v | None => true end) m))) w.
Proof.
  destruct (Meetings_setDefault_runs id_ value w) as (e & E & _).
  unfold world_after. now rewrite E.
Qed.

(** X6.  [setDefault] and [default] agree: marking a held session makes it
    the default, with no other field of it changed; unmarking the default
    leaves no default.  Marking with the value left out marks. *)
Theorem setDefault_then_default (k : Z) (this : Meeting) (w : World) :
  ok w ->
  Meetings_get (g_meetings w) k = Some this ->
  (forall value, value = Some true \/ value = None ->
     Meetings_default (g_meetings (world_after (Meetings_setDefault (Some k) value) w))
     = Some (set_prefer this true))
  /\ (Meetings_default (g_meetings w) = Some this ->
      Meetings_default
        (g_meetings (world_after (Meetings_setDefault (Some k) (Some false)) w))
      = None).
Proof.
  intros Hok Hget.
  pose proof (held_id w k this Hok Hget) as Hid.
  split.
  - intros value Hv.
    assert (Hok' : ok (world_after (Meetings_setDefault (Some k) value) w))
      by now apply Meetings_setDefault_safe.
    apply default_of_preferred; [exact (ok_prefer _ Hok')| |reflexivity].
    apply (get_sessions _ k). rewrite setDefault_world.
    unfold Meetings_get in *. simpl. rewrite get_rewrite_values, Hget. simpl.
    unfold setDefault_body. rewrite Hid. simpl. rewrite Z.eqb_refl.
    now destruct Hv as [->| ->].
  - intros Hdef. apply default_none. rewrite setDefault_world.
    unfold sessions. simpl. rewrite values_rewrite_values.
    apply Forall_map, Forall_forall. intros e He.
    rewrite setDefault_body_prefer. rewrite andb_true_r.
    pose proof (ok_id _ Hok) as Hi. rewrite Forall_forall in Hi.
    destruct (id_strict_eqb (id (snd e)) (Some k)) eqn:Ek; [reflexivity|].
    destruct (prefer (snd e)) eqn:Ep; [|reflexivity].
    exfalso.
    assert (Hin : In (snd e) (sessions (g_meetings w))).
    { unfold sessions, JsMap.values. now apply in_map. }
    pose proof (default_of_preferred _ _ (ok_prefer _ Hok) Hin Ep) as Hd.
    rewrite Hdef in Hd. injection Hd as Hd. rewrite <- Hd, Hid in Ek.
    simpl in Ek. now rewrite Z.eqb_refl in Ek.
Qed.

(** X6 on two waiting meetings: session 1 is marked. *)
Lemma setDefault_then_default_witness :
  Meetings_default
    (g_meetings (world_after (Meetings_setDefault (Some 1) (Some true)) two_waiting))
  = Some (set_prefer (set_id (Meeting_new (meeting_page 1)) (Some 1)) true).
Proof.
  refine (proj1 (setDefault_then_default 1
                   (set_id (Meeting_new (meeting_page 1)) (Some 1))
                   two_waiting _ eq_refl) (Some true) (or_introl eq_refl)).
  apply reachable_ok.
Defined.

(** ** Finding the session of a tab *)

Lemma find_loop_runs (t wi : Z) (l : list (Z * Meeting)) :
  forall (acc : option Meeting) (w : World),
    find_loop t wi l acc w
    = (if forallb has_tab (map snd l)
       then Returned (last (map Some (filter (on_tab t wi) (map snd l))) acc)
       else Threw, w, []).
Proof.
  induction l as [|[k m] l IH]; intros acc w; simpl; [reflexivity|].
  unfold has_tab at 1, on_tab at 1.
  destruct (sender_tab (port m)) as [tab|]; simpl; [|reflexivity].
  rewrite IH.
  destruct ((tabId tab =? t) && (windowId tab =? wi)); [|reflexivity].
  cbn [map]. now rewrite last_cons.
Qed.

(** X7.  [find] posts nothing and changes nothing.  When every session has
    a tab it returns the last session, in insertion order, that runs in the
    given tab of the given window, and nothing when there is none; one
    session without a tab makes it throw, whichever tab is asked for. *)
Theorem find_result (t wi : Z) (w : World) :
  let this := g_meetings w in
  Meetings_find t wi w
  = (if forallb has_tab (sessions this)
     then Returned (last (map Some (filter (on_tab t wi) (sessions this))) None)
     else Threw, w, [])
  /\ (forall m, outcome_of (Meetings_find t wi) w = Returned (Some m) ->
                In m (sessions this) /\ on_tab t wi m = true)
  /\ (Forall (fun m => has_tab m = true) (sessions this) ->
      Forall (fun m => on_tab t wi m = false) (sessions this) ->
      outcome_of (Meetings_find t wi) w = Returned None).
Proof.
  intros this.
  assert (E : Meetings_find t wi w
              = (if forallb has_tab (sessions this)
                 then Returned (last (map Some (filter (on_tab t wi) (sessions this))) None)
                 else Threw, w, [])).
  { unfold Meetings_find. rewrite bind_gets. apply find_loop_runs. }
  split; [exact E|]. unfold outcome_of. rewrite E. simpl. split.
  - intros m H. destruct (forallb has_tab (sessions this)); [|discriminate].
    injection H as H.
    assert (G : forall (l : list Meeting) d,
               last (map Some (filter (on_tab t wi) l)) d = Some m ->
               d = Some m \/ (In m l /\ on_tab t wi m = true)).
    { induction l as [|x l IH]; simpl; intros d Hl; [now left|].
      destruct (on_tab t wi x) eqn:Ex.
      - cbn [map] in Hl. rewrite last_cons in Hl.
        destruct (IH _ Hl) as [[= ->]|[HIn Hp]]; right; auto.
      - destruct (IH _ Hl) as [Hd|[HIn Hp]]; [now left|right; auto]. }
    destruct (G _ _ H) as [Hd|Hr]; [discriminate|exact Hr].
  - intros Htabs Hnone.
    replace (forallb has_tab (sessions this)) with true
      by (symmetry; apply forallb_forall; now apply Forall_forall).
    rewrite filter_none; [reflexivity|]. now apply Forall_forall.
Qed.

(** X7 on two waiting meetings: tab 11 of window 1 hosts session 1, tab 11
    of window 2 hosts none. *)
Lemma find_result_witness :
  outcome_of (Meetings_find 11 1) two_waiting
  = Returned (Some (set_id (Meeting_new (meeting_page 1)) (Some 1)))
  /\ outcome_of (Meetings_find 11 2) two_waiting = Returned None.
Proof.
  split.
  - unfold outcome_of. now rewrite (proj1 (find_result 11 1 two_waiting)).
  - apply (proj2 (proj2 (find_result 11 2 two_waiting))); vm_compute;
      repeat constructor.
Defined.

(** ** When the button opens the popup *)

Lemma popup_iff_many_targets (this : Meetings) :
  at_most_one_preferred this ->
  popupAction_with_popup this
  = if (1 <? List.length (selectTargets this))%nat
    then "html/control.html"%string else ""%string.
Proof.
  intros Hone. unfold popupAction_with_popup, selectTargets.
  rewrite default_spec, numActive_spec, size_spec.
  unfold at_most_one_preferred in Hone.
  destruct (filter prefer (sessions this)) as [|p [|q ps]]; simpl in Hone |- *.
  - destruct (List.length (filter active (sessions this))) as [|n] eqn:En.
    + reflexivity.
    + simpl. rewrite En. now rewrite orb_false_r.
  - reflexivity.
  - lia.
Qed.

(** X8.  With a [...+popup] behaviour the button opens the popup exactly
    when a broadcast would reach more than one session, so that the user
    can pick one; with the plain behaviours it never opens it, with
    [popup] always.  Any other setting, or none, counts as a [...+popup]
    behaviour and logs a warning. *)
Theorem popup_when_ambiguous (w : World) :
  at_most_one_preferred (g_meetings w) ->
  let choice :=
    if (1 <? List.length (selectTargets (g_meetings w)))%nat
    then "html/control.html"%string else ""%string in
  (g_actionButtonBehavior w = Some "popup"%string ->
   Badge_popupAction w = (Returned "html/control.html"%string, w, []))
  /\ (forall b, g_actionButtonBehavior w = Some b ->
        In b ["toggle-audio"; "focus"; "mute-audio"]%string ->
        Badge_popupAction w = (Returned ""%string, w, []))
  /\ (forall b, g_actionButtonBehavior w = Some b ->
        In b ["toggle-audio+popup"; "focus+popup"; "mute-audio+popup"]%string ->
        Badge_popupAction w = (Returned choice, w, []))
  /\ (behavior_in (g_actionButtonBehavior w)
        ["popup"; "toggle-audio+popup"; "focus+popup"; "mute-audio+popup";
         "toggle-audio"; "focus"; "mute-audio"]%string = false ->
      Badge_popupAction w = (Returned choice, w, [Log WARN])).
Proof.
  intros Hone choice. unfold choice.
  rewrite <- (popup_iff_many_targets _ Hone).
  unfold Badge_popupAction. rewrite !bind_gets.
  split; [|split; [|split]].
  - intros ->. reflexivity.
  - intros b -> Hb. simpl in Hb.
    destruct Hb as [<-|[<-|[<-|[]]]]; reflexivity.
  - intros b -> Hb. simpl in Hb.
    destruct Hb as [<-|[<-|[<-|[]]]]; reflexivity.
  - intros H. destruct (g_actionButtonBehavior w) as [b|]; [|reflexivity].
    unfold behavior_in, one_of in H. simpl in H.
    repeat (apply orb_false_elim in H; destruct H as [? H]).
    unfold one_of. simpl.
    repeat match goal with E : String.eqb b _ = false |- _ => rewrite E; clear E end.
    reflexivity.
Qed.

(** X8 on two waiting meetings (two targets) and on three meetings of which
    one is preferred (one target), both with [toggle-audio+popup]. *)
Lemma popup_when_ambiguous_witness :
  Badge_popupAction
    (with_actionButtonBehavior (Some "toggle-audio+popup"%string) two_waiting)
  = (Returned "html/control.html"%string,
     with_actionButtonBehavior (Some "toggle-audio+popup"%string) two_waiting, [])
  /\ Badge_popupAction
       (with_actionButtonBehavior (Some "toggle-audio+popup"%string) three_one_preferred)
     = (Returned ""%string,
        with_actionButtonBehavior (Some "toggle-audio+popup"%string) three_one_preferred,
        []).
Proof.
  split.
  - refine (proj1 (proj2 (proj2
              (popup_when_ambiguous
                 (with_actionButtonBehavior (Some "toggle-audio+popup"%string) two_waiting)
                 _))) _ eq_refl _).
    + vm_compute. lia.
    + now left.
  - refine (proj1 (proj2 (proj2
              (popup_when_ambiguous
                 (with_actionButtonBehavior (Some "toggle-audio+popup"%string)
                    three_one_preferred) _))) _ eq_refl _).
    + vm_compute. lia.
    + now left.
Defined.

(** ** The badge of an empty registry, and the snapshot for the popup *)

Lemma popupAction_logs (w : World) :
  exists target e,
    Badge_popupAction w = (Returned target, w, e)
    /\ (e = [] \/ e = [Log WARN]).
Proof.
  unfold Badge_popupAction. rewrite !bind_gets.
  destruct (g_actionButtonBehavior w) as [b|].
  - destruct (String.eqb b "popup"); [do 2 eexists; split; [reflexivity|now left]|].
    destruct (one_of b _); [do 2 eexists; split; [reflexivity|now left]|].
    destruct (one_of b _); [do 2 eexists; split; [reflexivity|now left]|].
    do 2 eexists; split; [reflexivity|now right].
  - do 2 eexists; split; [reflexivity|now right].
Qed.

(** X9.  With no session held, [Badge.update] shows the inactive icon, the
    "No meetings found" tooltip, the inactive page as popup and an empty
    badge text; it sets no badge colour and does not consult the action
    button behaviour, so it logs no warning even when that is unset.  A
    connected popup is first sent an empty list. *)
Theorem badge_inactive (w : World) :
  sessions (g_meetings w) = [] ->
  Badge_update w
  = (Returned tt, w,
     match popup (g_badge w) with
     | Some p => [PostMessage p (MsgList [])]
     | None => []
     end
     ++ [SetIcon "../images/inactive-96.png";
         SetTitle "No meetings found. Please reload Google Meet pages to connect.";
         SetPopup "html/inactive.html";
         SetBadgeText ""]).
Proof.
  intros Hempty.
  assert (Hl : meetings (g_meetings w) = []).
  { unfold sessions, JsMap.values in Hempty. now apply map_eq_nil in Hempty. }
  assert (E0 : when_defined (popup (g_badge w)) onInternalPageMessage_list w
               = (Returned tt, w,
                  match popup (g_badge w) with
                  | Some p => [PostMessage p (MsgList [])]
                  | None => []
                  end)).
  { destruct (popup (g_badge w)); simpl; [|reflexivity].
    unfold onInternalPageMessage_list. rewrite bind_gets.
    unfold JsMap.values. now rewrite Hl. }
  assert (Hstate : Meetings_state (g_meetings w) = INACTIVE).
  { unfold Meetings_state, Meetings_size, JsMap.size. now rewrite Hl. }
  assert (Hsummary : Meetings_summary (g_meetings w)
                     = "No meetings found. Please reload Google Meet pages to connect."%string).
  { unfold Meetings_summary, Meetings_size, JsMap.size. now rewrite Hl. }
  unfold Badge_update.
  rewrite bind_gets, (bind_returned _ _ _ _ _ _ E0), bind_gets.
  rewrite Hstate, Hsummary. reflexivity.
Qed.

(** X9 on the background page as it starts. *)
Lemma badge_inactive_witness :
  effects_of Badge_update fresh
  = [SetIcon "../images/inactive-96.png";
     SetTitle "No meetings found. Please reload Google Meet pages to connect.";
     SetPopup "html/inactive.html";
     SetBadgeText ""].
Proof.
  unfold effects_of. now rewrite (badge_inactive fresh eq_refl).
Defined.

Lemma Badge_set_posts_nothing (s : Settings) (w : World) :
  exists e, Badge_set s w = (Returned tt, w, e)
            /\ Forall (fun x => is_post x = false) e.
Proof.
  unfold Badge_set.
  destruct s as [[i|] [t|] [p|] [x|] [c|]]; simpl;
    eexists; (split; [reflexivity|repeat constructor]).
Qed.

Lemma Badge_update_posts (w : World) :
  exists rest,
    effects_of Badge_update w
    = match popup (g_badge w) with
      | Some p => [PostMessage p (snapshot (g_meetings w))]
      | None => []
      end ++ rest
    /\ Forall (fun x => is_post x = false) rest.
Proof.
  set (this := g_meetings w).
  destruct (popupAction_logs w) as (target & e1 & E1 & He1).
  assert (F1 : Forall (fun x => is_post x = false) e1)
    by (destruct He1 as [->| ->]; repeat constructor).
  assert (E0 : when_defined (popup (g_badge w)) onInternalPageMessage_list w
               = (Returned tt, w,
                  match popup (g_badge w) with
                  | Some p => [PostMessage p (snapshot this)]
                  | None => []
                  end)).
  { destruct (popup (g_badge w)); simpl; [|reflexivity].
    unfold onInternalPageMessage_list. now rewrite bind_gets. }
  unfold effects_of, Badge_update.
  rewrite bind_gets, (bind_returned _ _ _ _ _ _ E0), bind_gets.
  cbn [snd]. fold this.
  destruct (Meetings_state this).
  + match goal with |- context [Badge_set ?s w] =>
      destruct (Badge_set_posts_nothing s w) as (e2 & E2 & F2) end.
    rewrite E2. exists e2. now split.
  + rewrite (bind_returned _ _ _ _ _ _ E1). cbn [snd].
    match goal with |- context [Badge_set ?s w] =>
      destruct (Badge_set_posts_nothing s w) as (e2 & E2 & F2) end.
    rewrite E2. exists (e1 ++ e2). split; [reflexivity|].
    apply Forall_app. now split.
  + rewrite (bind_returned _ _ _ _ _ _ E1). cbn [snd].
    match goal with |- context [Badge_set ?s w] =>
      destruct (Badge_set_posts_nothing s w) as (e2 & E2 & F2) end.
    rewrite E2. exists (e1 ++ e2). split; [reflexivity|].
    apply Forall_app. now split.
Qed.

(** X10.  The reply to [list] has one row per session, in insertion order;
    in a well-formed registry the rows carry the ids the sessions are held
    under.  Every display recomputation sends this snapshot to the popup if
    one is connected, before anything else, and posts no other message;
    with no popup connected it posts nothing. *)
Theorem list_snapshot (port_ : Port) (message : PageMessage) (w : World) :
  let this := g_meetings w in
  (im_command message = "list"%string ->
   onInternalPageMessage port_ message w
   = (Returned tt, w, [PostMessage port_ (snapshot this)]))
  /\ (registry_ok this ->
      map le_id (map list_row (sessions this))
      = map Some (JsMap.keys (meetings this)))
  /\ map le_active (map list_row (sessions this)) = map active (sessions this)
  /\ map le_prefer (map list_row (sessions this)) = map prefer (sessions this)
  /\ exists rest,
       effects_of Badge_update w
       = match popup (g_badge w) with
         | Some p => [PostMessage p (snapshot this)]
         | None => []
         end ++ rest
       /\ Forall (fun x => is_post x = false) rest.
Proof.
  intros this. split; [|split; [|split; [|split]]].
  - intros Hcmd. unfold onInternalPageMessage. rewrite Hcmd. simpl.
    unfold onInternalPageMessage_list. now rewrite bind_gets.
  - intros Hok. pose proof (ok_id _ Hok) as Hi.
    unfold sessions, JsMap.values, JsMap.keys. rewrite !map_map.
    apply map_ext_in. intros e He. rewrite Forall_forall in Hi.
    exact (Hi e He).
  - rewrite map_map. now apply map_ext.
  - rewrite map_map. now apply map_ext.
  - apply Badge_update_posts.
Qed.

(** X10 on three meetings while the popup is connected. *)
Lemma list_snapshot_witness :
  map le_id (map list_row (sessions (g_meetings three_one_muted)))
  = [Some 0; Some 1; Some 2].
Proof.
  refine (proj1 (proj2 (list_snapshot control_page
                          (default_message None None) three_one_muted)) _).
  apply reachable_ok.
Defined.

(** ** What a broadcast puts on the wire *)

Lemma forEach_send (command : string) (data : Data) (l : list Meeting) (w : World) :
  forEach (stateless (fun m => Meeting_send m command data)) l tt w
  = (Returned tt, w, command_posts command data l).
Proof.
  induction l as [|m l IH]; simpl; [reflexivity|].
  unfold stateless at 1, Meeting_send at 1.
  unfold bind, emit. now rewrite IH.
Qed.

Lemma send_to_targets (command : string) (data : Data) (w : World) :
  at_most_one_preferred (g_meetings w) ->
  let targets := selectTargets (g_meetings w) in
  let send := Meetings_processMeetings_
                (stateless (fun m => Meeting_send m command data)) tt in
  (g_autofocus w = false ->
   send w = (Returned tt, w, command_posts command data targets))
  /\ (g_autofocus w = true ->
      forall first rest tab,
        targets = first :: rest ->
        sender_tab (port first) = Some tab ->
        send w = (Returned tt, w,
                  TabsGet (tabId tab) :: command_posts command data targets))
  /\ (g_autofocus w = true ->
      forall first rest,
        targets = first :: rest ->
        sender_tab (port first) = None ->
        send w = (Threw, w, [])).
Proof.
  intros Hone targets send. unfold send.
  assert (E : forall c, c = Meetings_processMeetings_
                              (stateless (fun m => Meeting_send m command data)) tt ->
                        c w = match targets with
                              | [] => ret tt w
                              | first :: rest =>
                                  bind (Meeting_autofocus first)
                                    (fun _ => forEach
                                       (stateless (fun m => Meeting_send m command data))
                                       (first :: rest) tt) w
                              end).
  { intros c ->. rewrite (processMeetings_as_specified _ _ _ Hone).
    unfold deliver_as_specified. rewrite bind_gets. fold targets.
    now destruct targets. }
  specialize (E _ eq_refl). rewrite E. clear E.
  split; [|split].
  - intros Haf. destruct targets as [|first rest]; [reflexivity|].
    unfold Meeting_autofocus. rewrite bind_assoc, bind_gets, Haf.
    now rewrite bind_ret_l, forEach_send.
  - intros Haf first rest tab -> Htab.
    unfold Meeting_autofocus, Meeting_focus.
    rewrite bind_assoc, bind_gets, Haf, Htab.
    unfold bind at 1, emit. now rewrite forEach_send.
  - intros Haf first rest -> Htab.
    unfold Meeting_autofocus, Meeting_focus.
    now rewrite bind_assoc, bind_gets, Haf, Htab.
Qed.

(** X11.  What toggle, mute and unmute put on the wire, in a registry with
    at most one preferred session.  With autofocus off: one command message
    to each target, in insertion order, carrying the data given (or
    [{audio: true}]), and nothing else.  With autofocus on: the same,
    preceded by one tab lookup for the first target; and if the port of the
    first target has no tab the broadcast throws before any command is
    sent.  No global changes in any case. *)
Theorem broadcast_on_the_wire (data : option Data) (w : World) :
  at_most_one_preferred (g_meetings w) ->
  let targets := selectTargets (g_meetings w) in
  let posts command := command_posts command (or_default data) targets in
  (g_autofocus w = false ->
   Meetings_toggle data w = (Returned tt, w, posts "toggle"%string)
   /\ Meetings_mute data w = (Returned tt, w, posts "mute"%string)
   /\ Meetings_unmute data w = (Returned tt, w, posts "unmute"%string))
  /\ (g_autofocus w = true ->
      forall first rest tab,
        targets = first :: rest ->
        sender_tab (port first) = Some tab ->
        Meetings_toggle data w
        = (Returned tt, w, TabsGet (tabId tab) :: posts "toggle"%string)
        /\ Meetings_mute data w
           = (Returned tt, w, TabsGet (tabId tab) :: posts "mute"%string)
        /\ Meetings_unmute data w
           = (Returned tt, w, TabsGet (tabId tab) :: posts "unmute"%string))
  /\ (g_autofocus w = true ->
      forall first rest,
        targets = first :: rest ->
        sender_tab (port first) = None ->
        Meetings_toggle data w = (Threw, w, [])
        /\ Meetings_mute data w = (Threw, w, [])
        /\ Meetings_unmute data w = (Threw, w, [])).
Proof.
  intros Hone targets posts.
  destruct (send_to_targets "toggle" (or_default data) w Hone) as (T1 & T2 & T3).
  destruct (send_to_targets "mute" (or_default data) w Hone) as (M1 & M2 & M3).
  destruct (send_to_targets "unmute" (or_default data) w Hone) as (U1 & U2 & U3).
  split; [|split].
  - intros Haf. repeat split; [exact (T1 Haf)|exact (M1 Haf)|exact (U1 Haf)].
  - intros Haf first rest tab Ht Htab. repeat split;
      [exact (T2 Haf _ _ _ Ht Htab)|exact (M2 Haf _ _ _ Ht Htab)
      |exact (U2 Haf _ _ _ Ht Htab)].
  - intros Haf first rest Ht Htab. repeat split;
      [exact (T3 Haf _ _ Ht Htab)|exact (M3 Haf _ _ Ht Htab)
      |exact (U3 Haf _ _ Ht Htab)].
Qed.

(** X11 on two waiting meetings: with autofocus off, and with it on. *)
Lemma broadcast_on_the_wire_witness :
  Meetings_unmute (Some video_only) two_waiting
  = (Returned tt, two_waiting,
     [PostMessage (meeting_page 0) (MsgCommand "unmute" video_only);
      PostMessage (meeting_page 1) (MsgCommand "unmute" video_only)])
  /\ Meetings_toggle None (with_autofocus true two_waiting)
     = (Returned tt, with_autofocus true two_waiting,
        [TabsGet 10;
         PostMessage (meeting_page 0) (MsgCommand "toggle" audio_only);
         PostMessage (meeting_page 1) (MsgCommand "toggle" audio_only)]).
Proof.
  split.
  - refine (proj2 (proj2 (proj1 (broadcast_on_the_wire (Some video_only) two_waiting _)
                            eq_refl))).
    vm_compute. lia.
  - refine (proj1 (proj1 (proj2 (broadcast_on_the_wire None
                                   (with_autofocus true two_waiting) _))
                     eq_refl _ _ {| tabId := 10; windowId := 1 |} eq_refl eq_refl)).
    vm_compute. lia.
Defined.

(** ** Commands for one session *)






(** ** Clearing the default from the menu *)

Lemma clear_one_session (l : JsMap.t Meeting) (k : Z) (m : Meeting) :
  NoDup (JsMap.keys l) ->
  Forall (fun e => id (snd e) = Some (fst e)) l ->
  JsMap.get k l = Some m ->
  filter prefer (JsMap.values l) = [m] ->
  JsMap.update k (fun _ => set_prefer m false) l
  = JsMap.rewrite_values (fun _ v => set_prefer v false) l.
Proof.
  intros Hnd Hid Hget Hp. rewrite update_as_rewrite.
  apply rewrite_values_ext_in. intros e He.
  rewrite Forall_forall in Hid.
  destruct (Z.eqb_spec (fst e) k) as [E|Hne].
  - destruct e as [k' v]. simpl in *. subst k'.
    apply In_get in He; [|exact Hnd]. congruence.
  - destruct (prefer (snd e)) eqn:Ep.
    + exfalso. apply Hne.
      assert (HIn : In (snd e) (filter prefer (JsMap.values l))).
      { apply filter_In. split; [|exact Ep]. unfold JsMap.values. now apply in_map. }
      rewrite Hp in HIn. destruct HIn as [Hm|[]].
      pose proof (Hid e He) as H1.
      pose proof (Hid (k, m) (get_In _ _ _ Hget)) as H2. simpl in H2.
      rewrite <- Hm in H1. congruence.
    + now rewrite <- Ep, set_prefer_same.
Qed.

(** X14.  The menu item [clear-default], in a well-formed registry: when a
    session is preferred, its mark is cleared, every other field of every
    session stays, and the display is recomputed once; when none is, the
    item does nothing at all. *)
Theorem clear_default_clears (runtime_id : string) (w : World) :
  ok w ->
  let item := onContextMenu runtime_id "clear-default" in
  outcome_of item w = Returned tt
  /\ world_after item w
     = with_meetings
         (with_map (JsMap.rewrite_values (fun _ m => set_prefer m false))) w
  /\ Meetings_default (g_meetings (world_after item w)) = None
  /\ recomputations (effects_of item w)
     = (match Meetings_default (g_meetings w) with Some _ => 1 | None => 0 end)%nat
  /\ (Meetings_default (g_meetings w) = None -> item w = (Returned tt, w, [])).
Proof.
  intros Hok item.
  assert (Hcleared : Meetings_default
                       (with_map (JsMap.rewrite_values (fun _ m => set_prefer m false))
                          (g_meetings w)) = None).
  { apply default_none. unfold sessions. simpl. rewrite values_rewrite_values.
    apply Forall_map, Forall_forall. now intros e _. }
  unfold item, onContextMenu. simpl. unfold outcome_of, world_after, effects_of.
  rewrite bind_gets.
  destruct (Meetings_default (g_meetings w)) as [m|] eqn:Ed; simpl.
  - destruct (default_In _ _ Ed) as (k & HIn).
    pose proof (sorted_NoDup _ (ok_sorted _ Hok)) as Hnd.
    pose proof (In_get _ _ _ Hnd HIn) as Hget.
    destruct (default_preferred _ _ Ed) as [Hs Hp].
    pose proof (only_preferred _ _ (ok_prefer _ Hok) Hs Hp) as Honly.
    unfold store. simpl. rewrite (held_id w k m Hok Hget).
    destruct (modify_then_update
                (with_meetings (with_map (JsMap.update k (fun _ => set_prefer m false))))
                w) as (e & E & R).
    rewrite E. simpl.
    assert (Hsame : with_map (JsMap.update k (fun _ => set_prefer m false)) (g_meetings w)
                    = with_map (JsMap.rewrite_values (fun _ v => set_prefer v false))
                        (g_meetings w)).
    { apply with_map_ext. apply clear_one_session; auto. exact (ok_id _ Hok). }
    split; [reflexivity|].
    split; [now apply with_meetings_cong|].
    split; [rewrite Hsame; exact Hcleared|].
    split; [exact R|]. discriminate.
  - split; [reflexivity|]. split.
    + symmetry. apply with_meetings_ext.
      rewrite <- (with_map_same (g_meetings w)) at 2. apply with_map_ext.
      rewrite <- (rewrite_values_same (meetings (g_meetings w))) at 2.
      apply rewrite_values_ext_in. intros e He.
      apply default_none in Ed. rewrite Forall_forall in Ed.
      assert (Hp : prefer (snd e) = false).
      { apply Ed. unfold sessions, JsMap.values. now apply in_map. }
      now rewrite <- Hp, set_prefer_same.
    + split; [exact Ed|]. split; [reflexivity|]. reflexivity.
Qed.

(** X14 on three meetings with session 0 preferred. *)
Lemma clear_default_clears_witness :
  Meetings_default
    (g_meetings (world_after (onContextMenu "ext" "clear-default") three_one_preferred))
  = None.
Proof.
  refine (proj1 (proj2 (proj2 (clear_default_clears "ext" three_one_preferred _)))).
  apply reachable_ok.
Defined.

(** ** Events that change nothing *)

Lemma onInternalPageMessage_unchanged port_ message :
  String.eqb (im_command message) "default" = false ->
  unchanged (onInternalPageMessage port_ message).
Proof.
  intros H. unfold onInternalPageMessage. rewrite H.
  unfold onInternalPageMessage_list, Meeting_toggle. read_only.
Qed.

Lemma onContextMenu_unchanged runtime_id item :
  String.eqb item "clear-default" = false ->
  unchanged (onContextMenu runtime_id item).
Proof.
  intros H. unfold onContextMenu. rewrite H. read_only.
Qed.

Lemma Meeting_recv_unchanged this message :
  one_of (pm_command message) ["joined"; "update"]%string = false ->
  unchanged (Meeting_recv this message).
Proof.
  unfold one_of. simpl. intros H.
  apply orb_false_elim in H. destruct H as [Hj H].
  apply orb_false_elim in H. destruct H as [Hu _].
  unfold Meeting_recv. rewrite Hj, Hu. unfold Meeting_message_log. read_only.
Qed.

(** X15.  Clicks on the action button, keyboard shortcuts, page requests
    other than [default] (list, focus, toggle, log, get-log, unknown ones),
    menu items other than [clear-default], and peer messages other than
    [joined] and [update] never change a global of the background page:
    not the registry, not the popup reference, not the settings; also when
    the handler throws. *)
Theorem read_only_events (ev : Event) (w : World) :
  reads_only ev = true -> fst (step w ev) = w.
Proof.
  intros H. rewrite step_world.
  destruct ev; simpl in H; try discriminate; simpl.
  - unfold on_meeting. apply unchanged_bind; [apply unchanged_gets|].
    intros this. apply unchanged_when_defined. intros m.
    apply Meeting_recv_unchanged. now apply negb_true_iff.
  - apply onInternalPageMessage_unchanged. now apply negb_true_iff.
  - apply onActionClicked_unchanged.
  - apply onCommand_unchanged.
  - apply onContextMenu_unchanged. now apply negb_true_iff.
Qed.

(** X15 on three meetings: a shortcut that mutes everything. *)
Lemma read_only_events_witness :
  fst (step three_one_preferred (EvCommand "mute-both")) = three_one_preferred.
Proof. exact (read_only_events (EvCommand "mute-both") three_one_preferred eq_refl). Defined.

(** ** Titles *)

Lemma substring_all (s : string) : String.substring 0 (String.length s) s = s.
Proof.
  induction s as [|c s IH]; simpl; [reflexivity|]. now rewrite IH.
Qed.

Lemma strip_Meet_prefix_there (t : string) :
  strip_Meet_prefix ("Meet - " ++ t) = t.
Proof.
  unfold strip_Meet_prefix. simpl.
  replace (String.prefix "" t) with true by now destruct t.
  rewrite Nat.sub_0_r. apply substring_all.
Qed.

(** X16.  What an [update] leaves in the session, for a session the
    registry holds: the two mute flags of the message, and a title that is
    the old one when the message has none or an empty one, the rest of the
    message's title when that starts with "Meet - ", and the message's
    title as it is otherwise.  Nothing else of the session changes, and no
    other session does. *)
Theorem update_stores (this : Meeting) (message : PeerMessage) (k : Z) (w : World) :
  ok w ->
  Meetings_get (g_meetings w) k = Some this ->
  pm_command message = "update"%string ->
  let w' := fst (step w (EvPortMessage k message)) in
  exists stored,
    Meetings_get (g_meetings w') k = Some stored
    /\ audioMuted stored = pm_audioMuted message
    /\ videoMuted stored = pm_videoMuted message
    /\ id stored = id this /\ port stored = port this
    /\ active stored = active this /\ prefer stored = prefer this
    /\ (pm_title message = None \/ pm_title message = Some ""%string ->
        title stored = title this)
    /\ (forall t, pm_title message = Some ("Meet - " ++ t)%string ->
                  title stored = Some t)
    /\ (forall s, pm_title message = Some s -> s <> ""%string ->
                  String.prefix "Meet - " s = false ->
                  title stored = Some s)
    /\ (forall k0, k0 <> k ->
          Meetings_get (g_meetings w') k0 = Meetings_get (g_meetings w) k0).
Proof.
  intros Hok Hget Hcmd w'.
  destruct (step_update this message k w Hok Hget Hcmd) as (e & E & _).
  exists (after_update this message).
  unfold w'. rewrite E. cbn [fst]. unfold Meetings_get in *. simpl g_meetings.
  simpl meetings.
  split; [exact (get_update _ k (fun _ => after_update this message) this Hget)|].
  do 6 (split; [reflexivity|]).
  change (title (after_update this message))
    with (new_title this (pm_title message)).
  split; [|split; [|split]].
  - intros [-> | ->]; reflexivity.
  - intros t ->. unfold new_title.
    change (("Meet - " ++ t =? "")%string) with false.
    cbv iota. now rewrite strip_Meet_prefix_there.
  - intros s -> Hne Hpre. apply String.eqb_neq in Hne.
    unfold new_title. rewrite Hne.
    unfold strip_Meet_prefix. now rewrite Hpre.
  - intros k0 Hne. rewrite update_as_rewrite, get_rewrite_values.
    destruct (Z.eqb_spec k0 k); [congruence|].
    now destruct (JsMap.get k0 (meetings (g_meetings w))).
Qed.

(** X16 on two waiting meetings: session 1 reports a title. *)
Lemma update_stores_witness :
  exists stored,
    Meetings_get
      (g_meetings
         (fst (step two_waiting
                 (EvPortMessage 1 (title_message "Meet - Weekly sync"
                                     (Some true) (Some false))))))
      1 = Some stored
    /\ title stored = Some "Weekly sync"%string.
Proof.
  destruct (update_stores (set_id (Meeting_new (meeting_page 1)) (Some 1))
              (title_message "Meet - Weekly sync" (Some true) (Some false))
              1 two_waiting)
    as (stored & Hget & _ & _ & _ & _ & _ & _ & _ & Ht & _).
  - apply reachable_ok.
  - reflexivity.
  - reflexivity.
  - exists stored. split; [exact Hget|]. now apply (Ht "Weekly sync"%string).
Defined.

(** ** Settings *)


Lemma storage_loop (changes : list (string * JsValue)) :
  forall w : World,
  exists w1 e,
    forEach onStorageChanged_body changes tt w = (Returned tt, w1, e)
    /\ g_meetings w1 = g_meetings w
    /\ g_badge w1 = g_badge w
    /\ recomputations e = 0%nat
    /\ (Forall (fun c => fst c <> "autofocus"%string) changes ->
        g_autofocus w1 = g_autofocus w)
    /\ (Forall (fun c => fst c <> "action-behavior"%string) changes ->
        g_actionButtonBehavior w1 = g_actionButtonBehavior w).
Proof.
  induction changes as [|[key v] l IH]; intros w; simpl.
  - exists w, []. repeat split.
  - assert (Hb : exists w0 e0,
               onStorageChanged_body tt (key, v) w = (Returned tt, w0, e0)
               /\ g_meetings w0 = g_meetings w /\ g_badge w0 = g_badge w
               /\ recomputations e0 = 0%nat
               /\ (key <> "autofocus"%string -> g_autofocus w0 = g_autofocus w)
               /\ (key <> "action-behavior"%string ->
                   g_actionButtonBehavior w0 = g_actionButtonBehavior w)).
    { unfold onStorageChanged_body. simpl.
      destruct (String.eqb_spec key "debug") as [->|Hd].
      - do 2 eexists. split; [reflexivity|]. repeat split.
      - destruct (String.eqb_spec key "autofocus") as [->|Ha].
        + do 2 eexists. split; [reflexivity|]. repeat split. congruence.
        + destruct (String.eqb_spec key "action-behavior") as [->|Hab].
          * do 2 eexists. split; [reflexivity|]. repeat split. congruence.
          * do 2 eexists. split; [reflexivity|]. repeat split. }
    destruct Hb as (w0 & e0 & E0 & Hm0 & Hb0 & R0 & Ha0 & Hab0).
    destruct (IH w0) as (w1 & e1 & E1 & Hm1 & Hb1 & R1 & Ha1 & Hab1).
    exists w1, (e0 ++ e1).
    split; [rewrite (bind_returned _ _ _ _ _ _ E0), E1; reflexivity|].
    split; [congruence|]. split; [congruence|].
    split; [rewrite recomputations_app; lia|].
    split; intros HF; inversion HF; subst; simpl in *.
    + rewrite Ha1, Ha0; auto.
    + rewrite Hab1, Hab0; auto.
Qed.



(** ** Unknown commands *)

(** Turns [one_of c [...] = false] into one disequation per entry and
    rewrites with them. *)
Ltac none_of H :=
  unfold one_of in H; simpl in H;
  repeat (apply orb_false_elim in H;
          let E := fresh "E" in destruct H as [E H]; try rewrite E).

(** X18.  A command that no handler knows is dropped: a peer message that
    is not [log], [joined] or [update], and a page message that is not one
    of the six page commands, log one warning; a keyboard command that is
    not one of the ten, and a menu item that is not one of the four, log
    one error.  None of them changes a global or posts a message. *)
Theorem unknown_commands_dropped (w : World) :
  (forall k this message,
     Meetings_get (g_meetings w) k = Some this ->
     one_of (pm_command message) ["log"; "joined"; "update"]%string = false ->
     step w (EvPortMessage k message) = (w, [Log WARN]))
  /\ (forall port_ message,
        one_of (im_command message)
          ["list"; "default"; "focus"; "toggle"; "log"; "get-log"]%string = false ->
        step w (EvPageMessage port_ message) = (w, [Log WARN]))
  /\ (forall command,
        one_of command
          ["focus"; "mute-audio"; "unmute-audio"; "toggle-mute-audio";
           "mute-both"; "unmute-both"; "toggle-mute-both";
           "mute-video"; "unmute-video"; "toggle-mute-video"]%string = false ->
        step w (EvCommand command) = (w, [Log ERROR]))
  /\ (forall runtime_id item,
        one_of item ["focus"; "clear-default"; "feedback"; "cws"]%string = false ->
        step w (EvContextMenu runtime_id item) = (w, [Log ERROR])).
Proof.
  split; [|split; [|split]].
  - intros k this message Hget H.
    unfold step, handle, on_meeting. rewrite bind_gets, Hget.
    unfold when_defined, Meeting_recv. none_of H. reflexivity.
  - intros port_ message H.
    unfold step, handle, onInternalPageMessage. none_of H. reflexivity.
  - intros command H.
    unfold step, handle, onCommand. none_of H. reflexivity.
  - intros runtime_id item H.
    unfold step, handle, onContextMenu. none_of H. reflexivity.
Qed.

(** X18 on two waiting meetings: session 0 sends [left]. *)
Lemma unknown_commands_dropped_witness :
  step two_waiting
    (EvPortMessage 0 {| pm_command := "left"; pm_title := None;
                        pm_audioMuted := None; pm_videoMuted := None |})
  = (two_waiting, [Log WARN]).
Proof.
  exact (proj1 (unknown_commands_dropped two_waiting) 0
           (set_id (Meeting_new (meeting_page 0)) (Some 0))
           {| pm_command := "left"; pm_title := None;
              pm_audioMuted := None; pm_videoMuted := None |}
           eq_refl eq_refl).
Defined.

(** ** The popup reference *)

(** X19.  A connecting [control] port becomes the popup reference, replacing
    any earlier one, without a display recomputation and without being sent
    anything; it logs an error if the port has a tab.  A connecting
    [options] port changes nothing.  The disconnect of a control port
    clears the reference whichever port it was, so when an older popup
    disconnects after a newer one connected, no popup is left to refresh:
    the next recomputation posts nothing. *)
Theorem popup_reference (p q : Port) (w : World) :
  (name p = "control"%string ->
   step w (EvConnect p)
   = (with_badge {| popup := Some p |} w,
      match sender_tab p with Some _ => [Log ERROR] | None => [] end))
  /\ (name p = "options"%string -> step w (EvConnect p) = (w, []))
  /\ step w (EvPopupDisconnect p) = (with_badge {| popup := None |} w, [])
  /\ (name p = "control"%string -> name q = "control"%string ->
      popup (g_badge (run [EvConnect p; EvConnect q] w)) = Some q
      /\ popup (g_badge (run [EvConnect p; EvConnect q; EvPopupDisconnect p] w)) = None
      /\ Forall (fun x => is_post x = false)
           (effects_of Badge_update
              (run [EvConnect p; EvConnect q; EvPopupDisconnect p] w))).
Proof.
  assert (Hc : forall p0 w0, name p0 = "control"%string ->
                 step w0 (EvConnect p0)
                 = (with_badge {| popup := Some p0 |} w0,
                    match sender_tab p0 with Some _ => [Log ERROR] | None => [] end)).
  { intros p0 w0 Hn. unfold step, handle, onConnect. rewrite Hn. simpl.
    now destruct (sender_tab p0). }
  split; [apply Hc|]. split; [|split].
  - intros Hn. unfold step, handle, onConnect. rewrite Hn. reflexivity.
  - reflexivity.
  - intros Hp Hq. unfold run. cbn [fold_left].
    rewrite (Hc p w Hp). cbn [fst]. rewrite (Hc q _ Hq). cbn [fst].
    split; [reflexivity|]. split; [reflexivity|].
    match goal with |- Forall _ (effects_of Badge_update ?w1) =>
      destruct (Badge_update_posts w1) as (rest & E & F) end.
    rewrite E. exact F.
Qed.

(** X19 on two waiting meetings: the popup connects. *)
Lemma popup_reference_witness :
  step two_waiting (EvConnect control_page)
  = (with_badge {| popup := Some control_page |} two_waiting, []).
Proof.
  exact (proj1 (popup_reference control_page control_page two_waiting) eq_refl).
Defined.

(** ** Joined *)

Lemma step_joined_runs (this : Meeting) (message : PeerMessage) (k : Z) (w : World) :
  ok w ->
  Meetings_get (g_meetings w) k = Some this ->
  pm_command message = "joined"%string ->
  exists e,
    step w (EvPortMessage k message)
    = (with_meetings (with_map (JsMap.update k (fun _ => set_active this true))) w, e)
    /\ recomputations e = 1%nat.
Proof.
  intros Hok Hget Hcmd.
  unfold step, handle, on_meeting. rewrite bind_gets, Hget.
  unfold when_defined, Meeting_recv. rewrite Hcmd. simpl.
  unfold Meeting_message_joined, store. simpl.
  rewrite (held_id w k this Hok Hget).
  destruct (modify_then_update
              (with_meetings (with_map (JsMap.update k (fun _ => set_active this true))))
              w) as (e & E & R).
  rewrite E. now exists e.
Qed.

Lemma update_same (l : JsMap.t Meeting) (k : Z) (m : Meeting) :
  NoDup (JsMap.keys l) -> JsMap.get k l = Some m ->
  JsMap.update k (fun _ => m) l = l.
Proof.
  intros Hnd Hget. rewrite update_as_rewrite.
  rewrite <- (rewrite_values_same l) at 2.
  apply rewrite_values_ext_in. intros [k' v] He. simpl.
  destruct (Z.eqb_spec k' k) as [->|]; [|reflexivity].
  apply In_get in He; [|exact Hnd]. congruence.
Qed.

(** X20.  [joined] is not debounced.  For a session the registry holds it
    recomputes the display once, every time: a second [joined] changes no
    global, the session being active already, and still recomputes, so two
    in a row recompute twice. *)
Theorem joined_not_debounced (this : Meeting) (message : PeerMessage) (k : Z)
    (w : World) :
  ok w ->
  Meetings_get (g_meetings w) k = Some this ->
  pm_command message = "joined"%string ->
  recomputations (snd (step w (EvPortMessage k message))) = 1%nat
  /\ (active this = true -> fst (step w (EvPortMessage k message)) = w)
  /\ recomputations (trace [EvPortMessage k message; EvPortMessage k message] w)
     = 2%nat.
Proof.
  intros Hok Hget Hcmd.
  destruct (step_joined_runs this message k w Hok Hget Hcmd) as (e1 & E1 & R1).
  split; [now rewrite E1|]. split.
  - intros Hact. rewrite E1. cbn [fst].
    apply with_meetings_ext. rewrite <- (with_map_same (g_meetings w)) at 2.
    apply with_map_ext.
    replace (set_active this true) with this
      by (clear - Hact; destruct this; unfold set_active; simpl in *; now subst).
    apply update_same; [apply sorted_NoDup, (ok_sorted _ Hok)|exact Hget].
  - assert (Hok1 : ok (fst (step w (EvPortMessage k message)))).
    { rewrite step_world. now apply handle_safe. }
    pose proof (step_joined this message k w Hok Hget Hcmd) as Hget1.
    destruct (step_joined_runs _ message k _ Hok1 Hget1 Hcmd) as (e2 & E2 & R2).
    cbn [trace]. rewrite E2. rewrite E1 at 1. cbn [snd].
    rewrite app_nil_r, recomputations_app. lia.
Qed.

(** X20 on two waiting meetings. *)
Lemma joined_not_debounced_witness :
  recomputations (trace [EvPortMessage 0 joined_message;
                         EvPortMessage 0 joined_message] two_waiting) = 2%nat.
Proof.
  refine (proj2 (proj2 (joined_not_debounced
                          (set_id (Meeting_new (meeting_page 0)) (Some 0))
                          joined_message 0 two_waiting _ eq_refl eq_refl))).
  apply reachable_ok.
Defined.

(** * The log module *)

Lemma call_entries (c : Logging.Call) (s : Logging.State) :
  exists added,
    Logging.entries (fst (Logging.call c s)) = Logging.entries s ++ added
    /\ (List.length added <= if Logging.is_quiet c then 0 else 1)%nat.
Proof.
  assert (R : forall now log s,
             Logging.entries (fst (Logging.recordLog now log s))
             = Logging.entries s ++ [Logging.entry_text now log])
    by reflexivity.
  assert (L : forall now level args s,
             exists added,
               Logging.entries (fst (Logging.log_ now level args s))
               = Logging.entries s ++ added
               /\ (List.length added <= 1)%nat).
  { intros now level args s0. unfold Logging.log_.
    destruct (Logging.port s0).
    - exists []. simpl. rewrite app_nil_r. auto.
    - eexists. split; [apply R|simpl; lia]. }
  assert (Z0 : exists added : list string,
             Logging.entries s = Logging.entries s ++ added
             /\ (List.length added <= 0)%nat)
    by (exists []; rewrite app_nil_r; auto).
  assert (Z1 : exists added : list string,
             Logging.entries s = Logging.entries s ++ added
             /\ (List.length added <= 1)%nat)
    by (exists []; rewrite app_nil_r; simpl; auto).
  destruct c as [settings|enabled|now log|now args|now args|now args|now args|now args|now condition args stackArray|];
    simpl; try exact Z0; try apply L.
  - eexists. split; [apply R|simpl; lia].
  - unfold Logging.debug. destruct (negb (Logging.debugEnabled s)); [exact Z1|apply L].
  - unfold Logging.assert. destruct (negb condition); [|exact Z1].
    destruct (Logging.getStack stackArray None None); [apply L|exact Z1].
Qed.

(** X21.  The log only grows.  Whatever a page calls, in whatever order,
    every entry recorded before is still there afterwards, in place;
    [setDebug], [init] and [getLog] add nothing, every other call at most
    one entry.  Turning debugging off clears the console, not the log. *)
Theorem log_append_only (cs : list Logging.Call) (s : Logging.State) :
  exists added,
    Logging.entries (Logging.calls cs s) = Logging.entries s ++ added
    /\ (List.length added
        <= List.length (filter (fun c => negb (Logging.is_quiet c)) cs))%nat.
Proof.
  revert s. induction cs as [|c cs IH]; intros s.
  - exists []. simpl. now rewrite app_nil_r.
  - destruct (call_entries c s) as (a1 & E1 & L1).
    destruct (IH (fst (Logging.call c s))) as (a2 & E2 & L2).
    exists (a1 ++ a2). split.
    + change (Logging.calls (c :: cs) s)
        with (Logging.calls cs (fst (Logging.call c s))).
      now rewrite E2, E1, app_assoc.
    + rewrite length_app. simpl filter.
      destruct (Logging.is_quiet c); simpl; lia.
Qed.

Lemma call_forwards (p : Port) (c : Logging.Call) (s : Logging.State) :
  Logging.port s = Some p ->
  Logging.is_init c = false -> Logging.is_recordLog c = false ->
  Logging.port (fst (Logging.call c s)) = Some p
  /\ Logging.entries (fst (Logging.call c s)) = Logging.entries s
  /\ Logging.page (fst (Logging.call c s)) = Logging.page s
  /\ Forall (Logging.forwarded p) (snd (Logging.call c s)).
Proof.
  intros Hp Hi Hr.
  assert (L : forall now level args,
             Logging.port (fst (Logging.log_ now level args s)) = Some p
             /\ Logging.entries (fst (Logging.log_ now level args s))
                = Logging.entries s
             /\ Logging.page (fst (Logging.log_ now level args s))
                = Logging.page s
             /\ Forall (Logging.forwarded p) (snd (Logging.log_ now level args s))).
  { intros. unfold Logging.log_. rewrite Hp. simpl.
    repeat split; auto. constructor; [reflexivity|constructor]. }
  assert (N : Logging.port s = Some p /\ Logging.entries s = Logging.entries s
              /\ Logging.page s = Logging.page s
              /\ Forall (Logging.forwarded p) []) by auto.
  destruct c as [settings|enabled|now log|now args|now args|now args|now args|now args|now condition args stackArray|];
    try discriminate; simpl; try apply L.
  - destruct enabled; simpl; repeat split; auto.
    constructor; [exact I|constructor].
  - unfold Logging.debug. destruct (negb (Logging.debugEnabled s)); [exact N|apply L].
  - unfold Logging.assert. destruct (negb condition); [|exact N].
    destruct (Logging.getStack stackArray None None); [apply L|exact N].
  - unfold Logging.getLog. rewrite Hp. simpl. repeat split; auto.
    constructor; [reflexivity|constructor].
Qed.

(** X22.  A page that was given a port keeps no log of its own.  Whatever it
    calls short of [init] and [recordLog], its entries stay as they were,
    nothing is printed, and all it puts out are posts on that port; [getLog]
    answers undefined.  What it posts for a message is the record from which
    the background page's [recordLog] makes the very entry the page would
    have recorded itself. *)
Theorem foreground_forwards (p : Port) (cs : list Logging.Call)
    (s : Logging.State) :
  Logging.port s = Some p ->
  forallb (fun c => negb (Logging.is_init c || Logging.is_recordLog c)) cs = true ->
  Logging.entries (Logging.calls cs s) = Logging.entries s
  /\ Forall (Logging.forwarded p) (Logging.transcript cs s)
  /\ fst (Logging.getLog (Logging.calls cs s)) = None
  /\ forall now level args,
       exists log,
         Logging.log_ now level args s = (s, [Logging.Post p (Logging.LogRequest log)])
         /\ forall background,
              Logging.port background = None ->
              Logging.entries (fst (Logging.recordLog now log background))
              = Logging.entries
                  (fst (Logging.log_ now level args
                          (Logging.init
                             {| Logging.i_page := Logging.page s;
                                Logging.i_port := None;
                                Logging.i_debug := Logging.debugEnabled background |}
                             background))).
Proof.
  intros Hp Hcs.
  assert (H : Logging.port (Logging.calls cs s) = Some p
              /\ Logging.entries (Logging.calls cs s) = Logging.entries s
              /\ Forall (Logging.forwarded p) (Logging.transcript cs s)).
  { revert s Hp. induction cs as [|c cs IH]; intros s Hp; [simpl; auto|].
    simpl in Hcs. apply andb_prop in Hcs as [Hc Hcs].
    apply negb_true_iff, orb_false_iff in Hc as [Hi Hr].
    destruct (call_forwards p c s Hp Hi Hr) as (P1 & E1 & _ & F1).
    destruct (IH Hcs _ P1) as (P2 & E2 & F2).
    change (Logging.calls (c :: cs) s)
      with (Logging.calls cs (fst (Logging.call c s))).
    repeat split; [exact P2|congruence|].
    simpl. apply Forall_app. now split. }
  destruct H as (P & E & F).
  split; [exact E|]. split; [exact F|]. split.
  - unfold Logging.getLog. now rewrite P.
  - intros now level args. eexists. split.
    + unfold Logging.log_. rewrite Hp. reflexivity.
    + intros background Hb. unfold Logging.log_. simpl. reflexivity.
Qed.

(** X22 on the options page. *)
Lemma foreground_forwards_witness :
  Logging.entries
    (Logging.calls
       [Logging.CWarn "t" ["Unknown setting 'x'"%string]; Logging.CSetDebug false;
        Logging.CGetLog]
       (Logging.init
          {| Logging.i_page := Some "options"%string;
             Logging.i_port := Some control_page;
             Logging.i_debug := true |}
          Logging.initial))
  = [].
Proof.
  apply foreground_forwards with (p := control_page); reflexivity.
Defined.

Lemma skipn_nth_error {A} (l : list A) (k : nat) (x : A) :
  nth_error l k = Some x -> skipn k l = x :: skipn (S k) l.
Proof.
  revert l. induction k as [|k IH]; intros [|y l] H; try discriminate.
  - now injection H as ->.
  - simpl in H. apply IH in H. exact H.
Qed.

Lemma getStack_loop_runs (stackArray : list string) (n : nat) :
  forall (i : Z) (stackObject : list string),
    0 <= i ->
    (n = 0 \/ Z.to_nat i + n <= List.length stackArray)%nat ->
    Logging.getStack_loop stackArray i n stackObject
    = Some (stackObject
              ++ map Logging.strip_at (firstn n (skipn (Z.to_nat i) stackArray))).
Proof.
  induction n as [|n IH]; intros i acc Hi Hn.
  - simpl. now rewrite app_nil_r.
  - destruct Hn as [Hn|Hn]; [discriminate|].
    destruct (nth_error stackArray (Z.to_nat i)) as [line|] eqn:E.
    2:{ apply nth_error_None in E. lia. }
    simpl. unfold Logging.index.
    destruct (Z.ltb_spec i 0) as [?|_]; [lia|]. rewrite E.
    rewrite IH by lia.
    rewrite (skipn_nth_error _ _ _ E). simpl.
    replace (Z.to_nat (i + 1)) with (S (Z.to_nat i)) by lia.
    now rewrite <- app_assoc.
Qed.

(** X23.  [getStack] stays inside the stack.  With no inner frame un-ignored
    (the frames to ignore are -2 or more) it never reads outside the array,
    whatever the count: it returns the lines after those ignored, in order,
    each without its leading [at]; all of them when no count is given, else
    as many as the count allows, none for a negative count or when fewer
    lines exist than are ignored. *)
Theorem getStack_in_bounds (stackArray : list string)
    (ignoreFrames count : option Z) :
  -2 <= match ignoreFrames with Some n => n | None => 0 end ->
  let skipped :=
    Z.to_nat (match ignoreFrames with Some n => n | None => 0 end + 2) in
  exists frames,
    Logging.getStack stackArray ignoreFrames count = Some frames
    /\ frames
       = map Logging.strip_at (firstn (List.length frames) (skipn skipped stackArray))
    /\ (count = None -> frames = map Logging.strip_at (skipn skipped stackArray))
    /\ (forall c, count = Some c ->
          List.length frames
          = Nat.min (Z.to_nat c) (List.length stackArray - skipped)).
Proof.
  intros Hig skipped. unfold Logging.getStack.
  set (ig := match ignoreFrames with Some n => n | None => 0 end + 2) in *.
  set (max := Z.of_nat (List.length stackArray) - ig).
  set (c := match count with
            | None => max
            | Some count =>
                if count <? 0 then 0 else if count >? max then max else count
            end).
  assert (Hc : (Z.to_nat c = 0 \/ Z.to_nat ig + Z.to_nat c <= List.length stackArray)%nat).
  { unfold c, max. destruct count as [c0|].
    - destruct (Z.ltb_spec c0 0); [now left|].
      destruct (Z.gtb_spec c0 (Z.of_nat (List.length stackArray) - ig)); lia.
    - lia. }
  rewrite getStack_loop_runs by (unfold ig; first [lia|exact Hc]).
  simpl app. eexists. split; [reflexivity|].
  assert (Hlen : List.length
                   (map Logging.strip_at
                      (firstn (Z.to_nat c) (skipn (Z.to_nat ig) stackArray)))
                 = Z.to_nat c).
  { rewrite length_map, length_firstn, length_skipn. lia. }
  split; [now rewrite Hlen|]. split.
  - intros ->. unfold c, max, skipped.
    rewrite firstn_all2; [reflexivity|]. rewrite length_skipn. lia.
  - intros c0 ->. rewrite Hlen. unfold c, max, skipped.
    destruct (Z.ltb_spec c0 0); [lia|].
    destruct (Z.gtb_spec c0 (Z.of_nat (List.length stackArray) - ig)); lia.
Qed.

(** X23 on a stack of four lines, two frames asked for. *)
Lemma getStack_in_bounds_witness :
  exists frames,
    Logging.getStack
      ["Error"; "    at getStack (logging.js:143:22)";
       "    at assert (logging.js:177:37)"; "  at onConnect (background.js:491:15)"]%string
      None (Some 5)
    = Some frames
    /\ List.length frames = 2%nat.
Proof.
  destruct (getStack_in_bounds
              ["Error"; "    at getStack (logging.js:143:22)";
               "    at assert (logging.js:177:37)";
               "  at onConnect (background.js:491:15)"]%string
              None (Some 5)) as (frames & E & _ & _ & L); [simpl; lia|].
  exists frames. split; [exact E|]. now rewrite (L 5 eq_refl).
Defined.

Lemma getStack_caller (stackArray : list string) :
  Logging.getStack stackArray None None
  = Some (map Logging.strip_at (skipn 2 stackArray)).
Proof.
  unfold Logging.getStack. rewrite getStack_loop_runs by lia.
  simpl app. change (Z.to_nat (0 + 2)) with 2%nat.
  rewrite firstn_all2; [reflexivity|].
  destruct stackArray as [|? [|? ?]]; cbn [List.length]; lia.
Qed.

(** X24.  [assert] never throws, whatever the stack looks like.  A true
    condition does nothing at all; a false one logs exactly one error, whose
    message is [assert failed], the arguments, and the caller's frames joined
    by commas. *)
Theorem assert_logs_once (now : string) (condition : bool)
    (args stackArray : list string) (s : Logging.State) :
  Logging.assert now condition args stackArray s
  = Some (if condition then (s, [])
          else Logging.error now
                 (("assert failed"%string :: args)
                    ++ [String.concat ","
                          (map Logging.strip_at (skipn 2 stackArray))])
                 s).
Proof.
  unfold Logging.assert. destruct condition; [reflexivity|]. simpl negb. cbv iota.
  now rewrite getStack_caller.
Qed.

(** * What the coordinator sends the meeting page *)

Section Emits.

Variable P : Effect -> Prop.

Lemma emits_ret {A} (a : A) : emits P (ret a).
Proof. intros w. constructor. Qed.

Lemma emits_throw {A} : emits P (@throw A).
Proof. intros w. constructor. Qed.

Lemma emits_gets {A} (f : World -> A) : emits P (gets f).
Proof. intros w. constructor. Qed.

Lemma emits_modify (f : World -> World) : emits P (modify f).
Proof. intros w. constructor. Qed.

Lemma emits_emit (e : Effect) : P e -> emits P (emit e).
Proof. intros H w. constructor; [exact H|constructor]. Qed.

Lemma emits_bind {A B} (c : M A) (k : A -> M B) :
  emits P c -> (forall a, emits P (k a)) -> emits P (bind c k).
Proof.
  intros Hc Hk w. unfold effects_of, bind.
  specialize (Hc w). unfold effects_of in Hc.
  destruct (c w) as [[[a|] w1] e1]; simpl in *; [|exact Hc].
  specialize (Hk a w1). unfold effects_of in Hk.
  destruct (k a w1) as [[r w2] e2]. simpl in *.
  apply Forall_app. now split.
Qed.

Lemma emits_when_defined {A} (v : option A) (f : A -> M unit) :
  (forall a, emits P (f a)) -> emits P (when_defined v f).
Proof. intros Hf. destruct v; [apply Hf|apply emits_ret]. Qed.

Lemma emits_forEach {X S} (body : S -> X -> M S) (l : list X) (s : S) :
  (forall s x, emits P (body s x)) -> emits P (forEach body l s).
Proof.
  intros Hb. revert s. induction l as [|x l IH]; intros s; simpl.
  - apply emits_ret.
  - apply emits_bind; [apply Hb|exact IH].
Qed.

Lemma emits_find_loop t wi l r : emits P (find_loop t wi l r).
Proof.
  revert r. induction l as [|[k m] l IH]; intros r; simpl.
  - apply emits_ret.
  - destruct (sender_tab (port m)); [apply IH|apply emits_throw].
Qed.

End Emits.

(** Splits a handler along its binds and branches, down to its effects. *)
Ltac emits_each :=
  repeat first
    [ apply emits_ret | apply emits_throw | apply emits_gets
    | apply emits_modify | apply emits_find_loop
    | apply emits_emit; first [reflexivity | discriminate]
    | apply emits_bind; [|intros ?]
    | apply emits_when_defined; intros ?
    | apply emits_forEach; intros ? ?
    | match goal with
      | |- emits _ (if ?b then _ else _) => destruct b
      | |- emits _ (match ?x with _ => _ end) => destruct x
      end
    | progress unfold
        store, Meeting_send, Meeting_toggle, Meeting_mute, Meeting_unmute,
        Meeting_focus, Meeting_autofocus, onInternalPageMessage_list,
        Badge_set, Badge_popupAction, Badge_update,
        Meetings_add, Meetings_remove, Meetings_setDefault, Meetings_find,
        processMeetings_body, Meetings_processMeetings_, stateless,
        Meetings_toggle, Meetings_mute, Meetings_unmute, focus_callback,
        Meetings_focus, Meetings_autofocus, Meeting_bind, Meeting_disconnect,
        Meeting_message_log, Meeting_message_joined, Meeting_message_update,
        Meeting_recv, onInternalPageMessage, onPopupDisconnect, onConnect,
        onActionClicked, onCommand, onStorageChanged_body, onStorageChanged,
        onContextMenu, on_meeting, one_or_all, setDefault_body, handle ].

Lemma handle_understood (Page : Type) (buttons : Page -> list Inject.Button)
    (click : Inject.Control -> Page -> Page) (ev : Event) :
  emits (fun e => Inject.understood Page buttons click e = true) (handle ev).
Proof.
  destruct ev; emits_each.
Qed.

Lemma step_effects (P : Effect -> Prop) (w : World) (ev : Event) :
  emits P (handle ev) -> P (Log ERROR) -> Forall P (snd (step w ev)).
Proof.
  intros H He. specialize (H w). unfold effects_of in H. unfold step.
  destruct (handle ev w) as [[[a|] w1] e1]; simpl in *; [exact H|].
  apply Forall_app. split; [exact H|]. constructor; [exact He|constructor].
Qed.

(** X25.  The coordinator never sends a meeting page a command it has no
    handler for.  Whatever happens, in whatever order, every command message
    in the trace is [mute], [toggle] or [unmute]: the page's [onMessage]
    finds its handler and runs it, and never takes the branch that warns of
    an unknown command. *)
Theorem coordinator_speaks_page_language (Page : Type)
    (buttons : Page -> list Inject.Button)
    (click : Inject.Control -> Page -> Page) (evs : list Event) (w : World) :
  Forall (fun e => Inject.understood Page buttons click e = true) (trace evs w)
  /\ forall p command data,
       In (PostMessage p (MsgCommand command data)) (trace evs w) ->
       In command ["mute"; "toggle"; "unmute"]%string
       /\ exists handler,
            Inject.commands Page buttons click command = Some handler
            /\ forall st pg,
                 Inject.onMessage Page buttons click command data st pg
                 = Inject.andThen Page
                     (Inject.dbg Page
                        [("dispatching to " ++ command)%string;
                         "[object Object]"%string] st pg)
                     (handler data).
Proof.
  assert (H : Forall (fun e => Inject.understood Page buttons click e = true)
                (trace evs w)).
  { revert w. induction evs as [|ev evs IH]; intros w; simpl; [constructor|].
    apply Forall_app. split; [|apply IH].
    apply step_effects; [apply handle_understood|reflexivity]. }
  split; [exact H|]. intros p command data Hin.
  rewrite Forall_forall in H. specialize (H _ Hin). simpl in H.
  unfold Inject.handles in H.
  destruct (Inject.commands Page buttons click command) as [handler|] eqn:E;
    [|discriminate].
  split.
  - unfold Inject.commands in E. simpl.
    destruct (String.eqb_spec command "mute"); [auto|].
    destruct (String.eqb_spec command "toggle"); [auto|].
    destruct (String.eqb_spec command "unmute"); [auto|discriminate].
  - exists handler. split; [reflexivity|]. intros st pg.
    unfold Inject.onMessage. now rewrite E.
Qed.

(** * The meeting page *)

Section PageFacts.

Variable Page : Type.
Variable buttons : Page -> list Inject.Button.
Variable click : Inject.Control -> Page -> Page.

Ltac account :=
  unfold Inject.pays, Inject.outputs, Inject.state_after; simpl;
  repeat match goal with
         | c : Inject.Control |- _ => destruct c
         end;
  simpl; try lia.

Lemma pays_andThen (c : Inject.Control) (st : Inject.State)
    (r : Inject.Run Page) (k : Inject.State -> Page -> Inject.Run Page) :
  Inject.pays Page c st r ->
  (forall st' pg', Inject.pays Page c st' (k st' pg')) ->
  Inject.pays Page c st (Inject.andThen Page r k).
Proof.
  unfold Inject.pays, Inject.outputs, Inject.state_after.
  intros Hr Hk. destruct r as [[[|] [st1 pg1]] out]; simpl in *.
  - specialize (Hk st1 pg1). destruct (k st1 pg1) as [[cpl [st2 pg2]] out2].
    simpl in *. rewrite filter_app, length_app.
    destruct (Inject.armed c st1), (Inject.armed c st2), (Inject.armed c st); lia.
  - exact Hr.
Qed.

Lemma pays_skip c st pg : Inject.pays Page c st (Inject.skip Page st pg).
Proof. account. Qed.

Lemma pays_dbg c args st pg : Inject.pays Page c st (Inject.dbg Page args st pg).
Proof.
  unfold Inject.dbg, Inject.log. destruct (Inject.debugEnabled st); account.
Qed.

Lemma pays_command c act data st pg :
  (forall c' ele st pg, Inject.pays Page c st (act c' ele st pg)) ->
  Inject.pays Page c st (Inject.command_body Page buttons act data st pg).
Proof.
  intros Hact. unfold Inject.command_body. apply pays_andThen.
  - destruct (truthy (audio data)); [apply Hact|apply pays_skip].
  - intros. destruct (truthy (video data)); [apply Hact|apply pays_skip].
Qed.

Lemma pays_onMessage c command data st pg :
  Inject.pays Page c st (Inject.onMessage Page buttons click command data st pg).
Proof.
  unfold Inject.onMessage, Inject.commands.
  destruct (String.eqb command "mute");
    [|destruct (String.eqb command "toggle");
      [|destruct (String.eqb command "unmute")]].
  4:{ account. }
  all: apply pays_andThen; [apply pays_dbg|].
  all: intros; apply pays_command; intros c' [[[]]|] st0 pg0; account.
Qed.

Lemma pays_defaultMuteMeeting c st pg :
  Inject.pays Page c st (Inject.defaultMuteMeeting Page buttons click st pg).
Proof.
  unfold Inject.defaultMuteMeeting. apply pays_andThen.
  - destruct st as [d [|] v]; simpl; [|apply pays_skip].
    destruct (Inject.getAudioElement Page buttons pg) as [[[|]]|]; account.
  - intros [d a [|]] pg'; simpl; [|apply pays_skip].
    destruct (Inject.getVideoElement Page buttons pg') as [[[|]]|]; account.
Qed.

Lemma pays_onMutations c mutations st pg :
  Inject.pays Page c st (Inject.onMutations Page buttons click mutations st pg).
Proof.
  unfold Inject.onMutations. apply pays_andThen; [apply pays_dbg|].
  intros st1 pg1. apply pays_andThen.
  - destruct (_ || _); [apply pays_defaultMuteMeeting|apply pays_skip].
  - intros st2 pg2.
    destruct (Inject.getAudioElement Page buttons pg2);
      [destruct (Inject.getVideoElement Page buttons pg2)|]; account.
Qed.

Lemma pays_on_event c ev st pg :
  Inject.pays Page c st (Inject.on_event Page buttons click ev st pg).
Proof.
  destruct ev; simpl.
  - apply pays_onMessage.
  - apply pays_onMutations.
  - apply pays_defaultMuteMeeting.
  - apply pays_skip.
Qed.

End PageFacts.

(** X26.  The default mute fires at most once for each control.  Over any
    run of the page (commands from the coordinator, changes of the buttons,
    further calls of [defaultMuteMeeting], the page changing under the
    script in any way, exceptions included) the notices shown for a control
    and what is still armed of it at the end make up what was armed at the
    start: the microphone is muted by default at most once, never when the
    setting was off, and the setting stays armed until it fires and is never
    armed again; likewise the camera. *)
Theorem default_mute_once (Page : Type) (buttons : Page -> list Inject.Button)
    (click : Inject.Control -> Page -> Page) (c : Inject.Control)
    (evs : list (Inject.PageEvent Page)) (st : Inject.State) (pg : Page) :
  let '(st', _, out) := Inject.on_events Page buttons click evs st pg in
  (List.length (filter (Inject.is_popup c) out)
   + (if Inject.armed c st' then 1 else 0)
   = if Inject.armed c st then 1 else 0)%nat.
Proof.
  revert st pg. induction evs as [|ev evs IH]; intros st pg.
  - simpl. lia.
  - simpl. pose proof (pays_on_event Page buttons click c ev st pg) as H.
    unfold Inject.pays in H.
    set (r := Inject.on_event Page buttons click ev st pg) in *.
    specialize (IH (Inject.state_after Page r) (Inject.page_after Page r)).
    destruct (Inject.on_events Page buttons click evs _ _) as [[st' pg'] out].
    rewrite filter_app, length_app. lia.
Qed.

(** X27.  On a page whose buttons flip when clicked, [mute] does what it
    says and is idempotent.  With both buttons there it ends normally and
    leaves the settings alone; afterwards a control is muted when it was
    asked for or was muted already, and running the same command again
    clicks nothing.  [unmute] mirrors it. *)
Theorem mute_settles (Page : Type) (buttons : Page -> list Inject.Button)
    (click : Inject.Control -> Page -> Page)
    (data : Data) (st : Inject.State) (pg : Page) (a v : Inject.Button) :
  (forall c pg b,
     Inject.getElement Page buttons c pg = Some b ->
     Inject.getElement Page buttons c (click c pg)
     = Some (Inject.mkButton (negb (Inject.isMuted b)))) ->
  (forall pg,
     Inject.getVideoElement Page buttons (click Inject.Mic pg)
     = Inject.getVideoElement Page buttons pg
     /\ Inject.getAudioElement Page buttons (click Inject.Cam pg)
        = Inject.getAudioElement Page buttons pg) ->
  Inject.getAudioElement Page buttons pg = Some a ->
  Inject.getVideoElement Page buttons pg = Some v ->
  (exists pg',
     Inject.commandMute Page buttons click data st pg
     = (Inject.Normal, (st, pg'),
        (if truthy (audio data) && negb (Inject.isMuted a)
         then [Inject.Click Inject.Mic] else [])
          ++ (if truthy (video data) && negb (Inject.isMuted v)
              then [Inject.Click Inject.Cam] else []))
     /\ Inject.getAudioElement Page buttons pg'
        = Some (Inject.mkButton (truthy (audio data) || Inject.isMuted a))
     /\ Inject.getVideoElement Page buttons pg'
        = Some (Inject.mkButton (truthy (video data) || Inject.isMuted v))
     /\ Inject.commandMute Page buttons click data st pg'
        = (Inject.Normal, (st, pg'), []))
  /\ (exists pg',
        Inject.commandUnmute Page buttons click data st pg
        = (Inject.Normal, (st, pg'),
           (if truthy (audio data) && Inject.isMuted a
            then [Inject.Click Inject.Mic] else [])
             ++ (if truthy (video data) && Inject.isMuted v
                 then [Inject.Click Inject.Cam] else []))
        /\ Inject.getAudioElement Page buttons pg'
           = Some (Inject.mkButton (negb (truthy (audio data)) && Inject.isMuted a))
        /\ Inject.getVideoElement Page buttons pg'
           = Some (Inject.mkButton (negb (truthy (video data)) && Inject.isMuted v))
        /\ Inject.commandUnmute Page buttons click data st pg'
           = (Inject.Normal, (st, pg'), [])).
Proof.
  intros Hflip Hother Ha Hv.
  pose proof (fun pg => proj1 (Hother pg)) as Hmic.
  pose proof (fun pg => proj2 (Hother pg)) as Hcam.
  pose proof (Hflip Inject.Mic) as Fmic. pose proof (Hflip Inject.Cam) as Fcam.
  simpl in Fmic, Fcam.
  destruct a as [ma], v as [mv].
  unfold Inject.commandMute, Inject.commandUnmute, Inject.command_body,
    Inject.act_mute, Inject.act_unmute, Inject.andThen, Inject.skip.
  split.
  - destruct (truthy (audio data)), (truthy (video data)), ma, mv;
      rewrite ?Ha, ?Hv; simpl;
      rewrite ?Hmic, ?Hv; simpl;
      eexists; (split; [reflexivity|]);
      repeat (first
                [ rewrite Hcam | rewrite Hmic | rewrite Ha | rewrite Hv
                | erewrite Fmic by (rewrite ?Hcam; eassumption)
                | erewrite Fcam by (rewrite ?Hmic; eassumption) ];
              simpl);
      auto.
  - destruct (truthy (audio data)), (truthy (video data)), ma, mv;
      rewrite ?Ha, ?Hv; simpl;
      rewrite ?Hmic, ?Hv; simpl;
      eexists; (split; [reflexivity|]);
      repeat (first
                [ rewrite Hcam | rewrite Hmic | rewrite Ha | rewrite Hv
                | erewrite Fmic by (rewrite ?Hcam; eassumption)
                | erewrite Fcam by (rewrite ?Hmic; eassumption) ];
              simpl);
      auto.
Qed.

(** X27 on a lobby with both controls live. *)
Lemma mute_settles_witness :
  exists pg',
    Inject.commandMute (list Inject.Button) (fun pg => pg) Inject.flip
      audio_only (Inject.mkState false false false) Inject.lobby
    = (Inject.Normal, (Inject.mkState false false false, pg'),
       [Inject.Click Inject.Mic])
    /\ Inject.getAudioElement _ (fun pg => pg) pg' = Some (Inject.mkButton true)
    /\ Inject.getVideoElement _ (fun pg => pg) pg' = Some (Inject.mkButton false)
    /\ Inject.commandMute (list Inject.Button) (fun pg => pg) Inject.flip
         audio_only (Inject.mkState false false false) pg'
       = (Inject.Normal, (Inject.mkState false false false, pg'), []).
Proof.
  refine (proj1 (mute_settles (list Inject.Button) (fun pg => pg) Inject.flip
                   audio_only (Inject.mkState false false false) Inject.lobby
                   (Inject.mkButton false) (Inject.mkButton false)
                   _ _ eq_refl eq_refl)).
  - intros [|] [|x [|y l]] b H; simpl in *; try discriminate;
      injection H as <-; reflexivity.
  - intros [|x [|y l]]; split; reflexivity.
Defined.

(** * What the meeting page sends the coordinator *)

Lemma onMutations_sends (Page : Type) (buttons : Page -> list Inject.Button)
    (click : Inject.Control -> Page -> Page) (mutations : nat)
    (st : Inject.State) (pg : Page) :
  let r := Inject.onMutations Page buttons click mutations st pg in
  Inject.completion Page r = Inject.Normal ->
  exists audio_ video_ before,
    Inject.getAudioElement Page buttons (Inject.page_after Page r) = Some audio_
    /\ Inject.getVideoElement Page buttons (Inject.page_after Page r) = Some video_
    /\ Inject.outputs Page r
       = before ++ [Inject.Send (Inject.SentUpdate (Inject.isMuted audio_)
                                   (Inject.isMuted video_))].
Proof.
  cbv zeta.
  unfold Inject.onMutations, Inject.andThen, Inject.completion,
    Inject.page_after, Inject.outputs.
  destruct (Inject.dbg Page _ st pg) as [[[|] [st1 pg1]] out1];
    [|discriminate].
  destruct (if Inject.defaultMuteAudio st1 || Inject.defaultMuteVideo st1
            then Inject.defaultMuteMeeting Page buttons click st1 pg1
            else Inject.skip Page st1 pg1) as [[[|] [st2 pg2]] out2];
    [|discriminate].
  destruct (Inject.getAudioElement Page buttons pg2) as [audio_|] eqn:Ea;
    [|discriminate].
  destruct (Inject.getVideoElement Page buttons pg2) as [video_|] eqn:Ev;
    [|discriminate].
  intros _. exists audio_, video_, (out1 ++ out2). simpl.
  now rewrite Ea, Ev, app_assoc.
Qed.

(** X28.  What the page reports is what the registry holds.  A change of
    the buttons that [onMutations] handles to the end finishes by sending
    one [update] with the mute state of the two buttons as they then are,
    both booleans; the coordinator's [recv] has a handler for it, as for
    every message the page sends, and never takes the branch for an unknown
    command; and for a session the registry holds it stores exactly these
    two flags, leaving the title as it was. *)
Theorem page_update_reaches_registry (Page : Type)
    (buttons : Page -> list Inject.Button)
    (click : Inject.Control -> Page -> Page) (mutations : nat)
    (st : Inject.State) (pg : Page) (this : Meeting) (k : Z) (w : World) :
  ok w ->
  Meetings_get (g_meetings w) k = Some this ->
  let r := Inject.onMutations Page buttons click mutations st pg in
  Inject.completion Page r = Inject.Normal ->
  (forall m,
     Meeting_recv this (Inject.to_peer m)
     = match m with
       | Inject.SentLog _ _ => Meeting_message_log this
       | Inject.SentJoined => Meeting_message_joined this
       | Inject.SentUpdate _ _ => Meeting_message_update this (Inject.to_peer m)
       end)
  /\ exists audio_ video_ before stored,
       Inject.getAudioElement Page buttons (Inject.page_after Page r) = Some audio_
       /\ Inject.getVideoElement Page buttons (Inject.page_after Page r) = Some video_
       /\ Inject.outputs Page r
          = before ++ [Inject.Send (Inject.SentUpdate (Inject.isMuted audio_)
                                      (Inject.isMuted video_))]
       /\ Meetings_get
            (g_meetings
               (fst (step w (EvPortMessage k
                               (Inject.to_peer
                                  (Inject.SentUpdate (Inject.isMuted audio_)
                                     (Inject.isMuted video_)))))))
            k
          = Some stored
       /\ audioMuted stored = Some (Inject.isMuted audio_)
       /\ videoMuted stored = Some (Inject.isMuted video_)
       /\ title stored = title this.
Proof.
  intros Hok Hget r Hr. split.
  - intros m. now destruct m.
  - destruct (onMutations_sends Page buttons click mutations st pg Hr)
      as (audio_ & video_ & before & Ea & Ev & Eo).
    exists audio_, video_, before.
    set (message := Inject.to_peer
                      (Inject.SentUpdate (Inject.isMuted audio_)
                         (Inject.isMuted video_))).
    exists (after_update this message).
    destruct (step_update this message k w Hok Hget eq_refl) as (e & E & _).
    rewrite E. cbn [fst]. unfold Meetings_get in *. simpl g_meetings.
    simpl meetings.
    split; [exact Ea|]. split; [exact Ev|]. split; [exact Eo|].
    split; [exact (get_update _ k (fun _ => after_update this message) this Hget)|].
    repeat split.
Qed.

(** X28 on the lobby of the first of two waiting meetings. *)
Lemma page_update_reaches_registry_witness :
  Meeting_recv (set_id (Meeting_new (meeting_page 0)) (Some 0))
    (Inject.to_peer Inject.SentJoined)
  = Meeting_message_joined (set_id (Meeting_new (meeting_page 0)) (Some 0)).
Proof.
  refine (proj1 (page_update_reaches_registry
                   (list Inject.Button) (fun pg => pg) Inject.flip 1
                   (Inject.mkState false true false) Inject.lobby
                   (set_id (Meeting_new (meeting_page 0)) (Some 0)) 0
                   two_waiting _ eq_refl eq_refl) Inject.SentJoined).
  apply reachable_ok.
Defined.

(** ** No title from the page *)

Lemma untitled_unchanged {A} (c : M A) (w : World) :
  unchanged c -> keeps_untitled c w.
Proof. intros Hc H. now rewrite (Hc w). Qed.

Lemma untitled_bind {A B} (c : M A) (k : A -> M B) (w : World) :
  keeps_untitled c w -> (forall a w1, keeps_untitled (k a) w1) ->
  keeps_untitled (bind c k) w.
Proof.
  intros Hc Hk H. specialize (Hc H). rewrite world_after_bind.
  unfold world_after in Hc.
  destruct (c w) as [[[a|] w1] e1]; simpl in *; [now apply Hk|exact Hc].
Qed.

Lemma untitled_gets_bind {A B} (f : World -> A) (k : A -> M B) (w : World) :
  keeps_untitled (k (f w)) w -> keeps_untitled (bind (gets f) k) w.
Proof.
  intros H Hu. unfold world_after in *. rewrite bind_gets. now apply H.
Qed.

Lemma untitled_modify_globals (f : World -> World) (w : World) :
  g_meetings (f w) = g_meetings w -> keeps_untitled (modify f) w.
Proof.
  intros E H. unfold world_after, modify. simpl. now rewrite E.
Qed.

Lemma untitled_then_update {A} (c : M A) (w : World) :
  keeps_untitled c w -> keeps_untitled (bind c (fun _ => Badge_update)) w.
Proof.
  intros H. apply untitled_bind; [exact H|].
  intros. apply untitled_unchanged, Badge_update_unchanged.
Qed.

Lemma untitled_held (w : World) (k : Z) (this : Meeting) :
  untitled (g_meetings w) -> Meetings_get (g_meetings w) k = Some this ->
  title this = None.
Proof.
  unfold untitled, sessions, JsMap.values. intros H Hget.
  rewrite Forall_forall in H. apply H.
  apply (in_map snd _ (k, this)). now apply get_In.
Qed.

Lemma untitled_store (this : Meeting) (w : World) :
  title this = None -> keeps_untitled (store this) w.
Proof.
  intros Ht. unfold store. destruct (id this) as [k|];
    [|apply untitled_unchanged, unchanged_ret].
  intros H. unfold world_after, modify, untitled, sessions in *. simpl.
  rewrite update_as_rewrite, values_rewrite_values.
  unfold JsMap.values in H. rewrite Forall_map in *.
  eapply Forall_impl; [|exact H]. intros e He. simpl.
  now destruct (fst e =? k).
Qed.

Lemma untitled_set (l : JsMap.t Meeting) (k : Z) (m : Meeting) :
  Forall (fun m => title m = None) (JsMap.values l) -> title m = None ->
  Forall (fun m => title m = None) (JsMap.values (JsMap.set k m l)).
Proof.
  intros H Hm. induction l as [|[k' v] l IH]; simpl.
  - now constructor.
  - inversion H as [|? ? Hv Hl]; subst.
    destruct (k' =? k); simpl; constructor; auto.
Qed.

Lemma untitled_add (port_ : Port) (w : World) :
  keeps_untitled (Meetings_add (Meeting_new port_)) w.
Proof.
  intros H. destruct (Meetings_add_runs (Meeting_new port_) w) as (e & E & _).
  unfold world_after. rewrite E. simpl.
  unfold untitled, sessions in *. simpl. now apply untitled_set.
Qed.

Lemma untitled_remove (meeting : Meeting) (w : World) :
  keeps_untitled (Meetings_remove meeting) w.
Proof.
  intros H. destruct (Meetings_remove_runs meeting w) as (e & E & _).
  unfold world_after. rewrite E. simpl.
  unfold untitled, sessions in *. simpl.
  destruct (id meeting) as [k|]; [|exact H].
  unfold JsMap.values, JsMap.delete in *. rewrite Forall_map in *.
  rewrite Forall_forall in *. intros x Hx. apply filter_In in Hx. now apply H.
Qed.

Lemma untitled_setDefault (id_ : option Z) (value : option bool) (w : World) :
  keeps_untitled (Meetings_setDefault id_ value) w.
Proof.
  intros H. rewrite setDefault_world.
  unfold untitled, sessions in *. simpl. rewrite values_rewrite_values.
  unfold JsMap.values in H. rewrite Forall_map in *.
  eapply Forall_impl; [|exact H]. intros x Hx. simpl.
  unfold setDefault_body.
  destruct (id_strict_eqb _ _); [exact Hx|].
  now destruct (_ && _).
Qed.

Lemma untitled_recv (this : Meeting) (message : PeerMessage) (w : World) :
  title this = None -> pm_title message = None ->
  keeps_untitled (Meeting_recv this message) w.
Proof.
  intros Ht Hm. unfold Meeting_recv.
  destruct (String.eqb _ "log"); [apply untitled_unchanged, unchanged_emit|].
  destruct (String.eqb _ "joined").
  { apply untitled_then_update. now apply untitled_store. }
  destruct (String.eqb _ "update"); [|apply untitled_unchanged, unchanged_emit].
  unfold Meeting_message_update. apply untitled_bind.
  - apply untitled_store. simpl. now rewrite Hm.
  - intros. apply untitled_unchanged. read_only.
Qed.

Lemma untitled_handle (ev : Event) (w : World) :
  brings_no_title ev = true -> keeps_untitled (handle ev) w.
Proof.
  intros Hev. destruct ev; simpl.
  - unfold onConnect. destruct (String.eqb _ "control").
    + apply untitled_bind; [apply untitled_unchanged; read_only|].
      intros. now apply untitled_modify_globals.
    + destruct (String.eqb _ "options");
        [apply untitled_unchanged, unchanged_ret|].
      apply untitled_then_update. unfold Meeting_bind. apply untitled_add.
  - unfold on_meeting. apply untitled_gets_bind.
    destruct (Meetings_get (g_meetings w) k); simpl;
      [apply untitled_remove|apply untitled_unchanged, unchanged_ret].
  - unfold on_meeting. apply untitled_gets_bind.
    destruct (Meetings_get (g_meetings w) k) as [this|] eqn:E; simpl;
      [|apply untitled_unchanged, unchanged_ret].
    intros H. apply untitled_recv; [|simpl in Hev|exact H].
    + now apply (untitled_held w k).
    + now destruct (pm_title message).
  - unfold onInternalPageMessage.
    destruct (String.eqb _ "list");
      [apply untitled_unchanged; unfold onInternalPageMessage_list; read_only|].
    destruct (String.eqb _ "default"); [apply untitled_setDefault|].
    apply untitled_unchanged. unfold Meeting_toggle. read_only.
  - now apply untitled_modify_globals.
  - apply untitled_unchanged, onActionClicked_unchanged.
  - apply untitled_unchanged, onCommand_unchanged.
  - intros H. unfold onStorageChanged.
    destruct (storage_loop changes w) as (w1 & e1 & E1 & Hm & _).
    destruct (Badge_update_runs w1) as (e2 & E2 & _).
    unfold world_after. rewrite (bind_returned _ _ _ _ _ _ E1), E2. simpl.
    now rewrite Hm.
  - unfold onContextMenu.
    destruct (String.eqb _ "focus");
      [apply untitled_unchanged, Meetings_focus_unchanged|].
    destruct (String.eqb _ "clear-default");
      [|apply untitled_unchanged; read_only].
    apply untitled_gets_bind.
    destruct (Meetings_default (g_meetings w)) as [m|] eqn:E; simpl;
      [|apply untitled_unchanged, unchanged_ret].
    intros H. apply untitled_then_update; [|exact H].
    apply untitled_store. simpl.
    destruct (default_In _ _ E) as (k & HIn).
    unfold untitled, sessions, JsMap.values in H.
    rewrite Forall_forall in H. apply H. now apply (in_map snd _ (k, m)).
Qed.

(** X29.  No session ever gets a title from the meeting page.  The page's
    messages carry none, and as long as no other peer message does, a
    registry without titles stays without: whatever happens, every session
    the registry holds has a null title, and so has every row of the list
    sent to the popup. *)
Theorem title_never_set (evs : list Event) (w : World) :
  untitled (g_meetings w) ->
  forallb brings_no_title evs = true ->
  (forall k m, brings_no_title (EvPortMessage k (Inject.to_peer m)) = true)
  /\ untitled (g_meetings (run evs w))
  /\ (forall k this,
        Meetings_get (g_meetings (run evs w)) k = Some this -> title this = None)
  /\ exists rows,
       snapshot (g_meetings (run evs w)) = MsgList rows
       /\ Forall (fun row => le_title row = None) rows.
Proof.
  intros Hw Hevs.
  assert (H : untitled (g_meetings (run evs w))).
  { revert w Hw. induction evs as [|ev evs IH]; intros w Hw; [exact Hw|].
    simpl in Hevs. apply andb_prop in Hevs as [Hev Hevs]. simpl.
    apply IH; [exact Hevs|]. rewrite step_world.
    now apply untitled_handle. }
  split; [intros k m; now destruct m|]. split; [exact H|]. split.
  - intros k this. now apply untitled_held.
  - eexists. split; [reflexivity|].
    unfold untitled in H. rewrite Forall_map.
    eapply Forall_impl; [|exact H]. now intros m Hm.
Qed.

(** X29 on a meeting that connects, reports its buttons and is joined. *)
Lemma title_never_set_witness :
  untitled
    (g_meetings
       (run [EvConnect (meeting_page 0);
             EvPortMessage 0 (Inject.to_peer (Inject.SentUpdate true false));
             EvPortMessage 0 (Inject.to_peer Inject.SentJoined)]
          (initial_world JsUndefined JsUndefined))).
Proof.
  apply title_never_set; [constructor|reflexivity].
Defined.
